(** * Neon Mails (bot9): the dispatch engine of [main.go]

    A shallow embedding of the mail dispatcher: the placeholder substitution
    and the SMTP retry loop of [sendEmail], and the goroutine pool of
    [sendEmails] as an interleaving transition system over the SQLite queue,
    the semaphore channel, the wait group and the process-wide counters. *)

From Stdlib Require Import ZArith Lia List Bool Ascii Sorted.
From stdpp Require Import base tactics option list strings.
Import ListNotations.

Local Open Scope Z_scope.

(** ** Go strings

    A Go [string] is a byte sequence; it is modelled by [string] (a list of
    8-bit [ascii] characters). *)

Module GoStrings.

(** [strings.HasPrefix(s, p)]: byte-wise and therefore case-sensitive. *)
Fixpoint HasPrefix (s p : string) {struct p} : bool :=
  match p with
  | EmptyString => true
  | String a p' =>
      match s with
      | EmptyString => false
      | String b s' => Ascii.eqb a b && HasPrefix s' p'
      end
  end.

(** The scanning loop of [strings.Replace(s, old, new, -1)]: the leftmost
    occurrence of [old] is replaced by [new], and the scan resumes right
    after the replaced bytes, so the bytes of [new] are never scanned and
    occurrences do not overlap. [skip] counts the bytes of a matched [old]
    that are still to be stepped over. *)
Fixpoint replaceFrom (old new : string) (skip : nat) (s : string) : string :=
  match s with
  | EmptyString => EmptyString
  | String c s' =>
      match skip with
      | S k => replaceFrom old new k s'
      | O =>
          if HasPrefix s old
          then new +:+ replaceFrom old new (String.length old - 1) s'
          else String c (replaceFrom old new 0 s')
      end
  end.

(** [strings.ReplaceAll(s, old, new)] for a non-empty [old], which is how
    the program calls it (the two calls use the constants ["{name}"] and
    ["{sender}"]). Go's special case for an empty [old] (an insertion at
    every rune boundary) is outside this definition. *)
Definition ReplaceAll (s old new : string) : string := replaceFrom old new 0 s.

End GoStrings.
Import GoStrings.

(** ** Constants and records of [main.go] *)

(** [time.Duration] is a count of nanoseconds. *)
Definition Second : Z := 1000000000.
Definition Hour : Z := 3600 * Second.

Definition emailDelay : Z := 2 * Second.
Definition emailsPerHour : Z := 180.
Definition hourDuration : Z := Hour.

(** [concurrency := 10] in [sendEmails]: the capacity of the [sem] channel. *)
Definition concurrency : nat := 10.

Record SMTPConfig := mkSMTPConfig {
  Host : string;
  Port : Z;
  User : string;
  Password : string;
  From : string
}.

Record Recipient := mkRecipient {
  SenderName : string;
  RecipientName : string;
  RecipientEmail : string
}.

(** ** [sendEmail]: composing the message *)

Definition newline : string := String (ascii_of_nat 10) EmptyString.

(** Lines 324-327: the two [ReplaceAll] passes, first [{name}], then
    [{sender}] on the result of the first. *)
Definition substitute (recipientName senderName text : string) : string :=
  ReplaceAll (ReplaceAll text "{name}" recipientName) "{sender}" senderName.

(** Line 330: [fmt.Sprintf("%s <%s>", senderName, smtpConfig.From)]. *)
Definition senderHeader (cfg : SMTPConfig) (senderName : string) : string :=
  senderName +:+ " <" +:+ From cfg +:+ ">".

(** Line 333: [fmt.Sprintf("From: %s\nSubject: %s\n\n%s", sender, subject, body)]
    on the substituted subject and body. *)
Definition composeMessage (cfg : SMTPConfig)
    (recipientName senderName subject body : string) : string :=
  "From: " +:+ senderHeader cfg senderName +:+ newline +:+
  "Subject: " +:+ substitute recipientName senderName subject +:+ newline +:+ newline +:+
  substitute recipientName senderName body.

(** ** [sendEmail]: the SMTP conversation

    The calls the function makes on the network and on the clock are
    recorded as events; whether a network call succeeds is decided by the
    environment. The trace holds the calls of [sendEmail] itself, not what
    [net/smtp] does inside them (its [Client.Auth], for one, quits the
    connection when the server refuses the authentication). *)

Inductive SmtpOp := OpDial | OpStartTLS | OpAuth | OpMail | OpRcpt | OpData | OpWrite.

Inductive Event :=
  | EDial (host : string) (port : Z)        (* smtp.Dial("host:port") *)
  | EStartTLS (serverName : string)         (* c.StartTLS(&tls.Config{ServerName}) *)
  | EAuth (user password host : string)     (* c.Auth(smtp.PlainAuth("", ...)) *)
  | EMail (from : string)                   (* c.Mail(from) *)
  | ERcpt (to : string)                     (* c.Rcpt(to) *)
  | EData                                   (* c.Data() *)
  | EWrite (msg : string)                   (* wc.Write(msg) *)
  | ESleep (d : Z)                          (* time.Sleep(d) *)
  | ECloseData                              (* deferred wc.Close() *)
  | ECloseConn.                             (* deferred c.Close() *)

(** What one call of [sendEmail] has done so far ([trace], oldest first) and
    the calls it has deferred to its return ([defers], latest first). *)
Record Call := mkCall { trace : list Event; defers : list Event }.

(** One attempt (one iteration of the retry loop) is a computation over
    [Call] that either completes ([Some]) or is cut short by a [continue]
    ([None]). *)
Definition Attempt (A : Type) : Type := Call -> option A * Call.

Definition ret {A} (a : A) : Attempt A := fun c => (Some a, c).

Definition bind {A B} (m : Attempt A) (k : A -> Attempt B) : Attempt B :=
  fun c => match m c with
           | (Some a, c') => k a c'
           | (None, c') => (None, c')
           end.

Notation "m >>> k" := (bind m (fun _ => k)) (at level 90, right associativity).

Definition defer (e : Event) : Attempt unit :=
  fun c => (Some tt, mkCall (trace c) (e :: defers c)).

(** A network call followed by the error branch every call site has:
    [log.Printf(...); time.Sleep(2 * time.Second); continue]. *)
Definition call (e : Event) (ok : bool) : Attempt unit :=
  fun c =>
    if ok then (Some tt, mkCall (trace c ++ [e]) (defers c))
    else (None, mkCall (trace c ++ [e; ESleep (2 * Second)]) (defers c)).

(** Lines 337-392: the body of the retry loop. *)
Definition attempt (cfg : SMTPConfig) (recipientEmail msg : string)
    (net : SmtpOp -> bool) : Attempt unit :=
  call (EDial (Host cfg) (Port cfg)) (net OpDial) >>>
  defer ECloseConn >>>
  (if Port cfg =? 587
   then call (EStartTLS (Host cfg)) (net OpStartTLS)
   else ret tt) >>>
  call (EAuth (User cfg) (Password cfg) (Host cfg)) (net OpAuth) >>>
  call (EMail (From cfg)) (net OpMail) >>>
  call (ERcpt recipientEmail) (net OpRcpt) >>>
  call EData (net OpData) >>>
  defer ECloseData >>>
  call (EWrite msg) (net OpWrite).

(** Line 395: [fmt.Errorf("failed to send email to %s after multiple attempts", ...)]. *)
Definition exhausted (recipientEmail : string) : string :=
  "failed to send email to " +:+ recipientEmail +:+ " after multiple attempts".

(** [for i := 0; i < 3; i++ { ... }] with [n] iterations left; [net i] is
    the behaviour of the network during iteration [i]. The result is Go's
    [error]: [None] is [nil]. *)
Fixpoint retryLoop (n i : nat) (cfg : SMTPConfig) (recipientEmail msg : string)
    (net : nat -> SmtpOp -> bool) (c : Call) : option string * Call :=
  match n with
  | O => (Some (exhausted recipientEmail), c)
  | S n' =>
      match attempt cfg recipientEmail msg (net i) c with
      | (Some _, c') => (None, c')
      | (None, c') => retryLoop n' (S i) cfg recipientEmail msg net c'
      end
  end.

(** [sendEmail]: the error it returns and everything it did, the deferred
    closes running at the return. *)
Definition sendEmail (cfg : SMTPConfig)
    (recipientEmail recipientName senderName subject body : string)
    (net : nat -> SmtpOp -> bool) : option string * list Event :=
  let msg := composeMessage cfg recipientName senderName subject body in
  let '(err, c) := retryLoop 3 0 cfg recipientEmail msg net (mkCall [] []) in
  (err, trace c ++ defers c).

(** ** Go [int]

    [successCount], [failureCount] and [totalEmails] are Go [int]s: 64-bit
    two's-complement integers whose arithmetic wraps around. *)

Definition wrap (z : Z) : Z := (z + 2 ^ 63) mod 2 ^ 64 - 2 ^ 63.

(** ** The job queue: table [email_queue] of [email_queue.db] *)

Record Row := mkRow {
  id : Z;
  sender_name : string;
  recipient_name : string;
  recipient_email : string;
  subject : string;
  body : string;
  status : string
}.

(** The rows in rowid order, and the AUTOINCREMENT high-water mark that
    SQLite keeps for the table ([sqlite_sequence]): it survives [DELETE]. *)
Record Table := mkTable { rows : list Row; seq : Z }.

(** The statements the program executes after start-up. *)
Inductive Sql :=
  | SqlInsert (r : Row)
  | SqlSelectPending
  | SqlCountPending
  | SqlUpdateStatus (value : string) (rowid : Z)
  | SqlDeleteAll.

(** [WHERE status = 'pending'] *)
Definition pending (r : Row) : bool := String.eqb (status r) "pending".

(** The row made by the [INSERT] of [queueEmails]: the id comes from
    AUTOINCREMENT, the status from the column's [DEFAULT 'pending']. *)
Definition newRow (t : Table) (rc : Recipient) (subj bod : string) : Row :=
  mkRow (seq t + 1) (SenderName rc) (RecipientName rc) (RecipientEmail rc)
        subj bod "pending".

Definition insertRow (r : Row) (t : Table) : Table :=
  mkTable (rows t ++ [r]) (id r).

Definition setStatus (v : string) (r : Row) : Row :=
  mkRow (id r) (sender_name r) (recipient_name r) (recipient_email r)
        (subject r) (body r) v.

(** [UPDATE email_queue SET status = v WHERE id = i] *)
Definition updateStatus (v : string) (i : Z) (t : Table) : Table :=
  mkTable (map (fun r => if id r =? i then setStatus v r else r) (rows t)) (seq t).

(** [DELETE FROM email_queue] *)
Definition deleteAll (t : Table) : Table := mkTable [] (seq t).

Definition selectPending (t : Table) : list Row := filter (fun r => pending r = true) (rows t).

Definition countPending (t : Table) : Z := Z.of_nat (length (selectPending t)).

Definition statusOf (i : Z) (t : Table) : option string :=
  status <$> find (fun r => id r =? i) (rows t).

(** ** Process state *)

(** The package-level variables, apart from [db] and the widgets. *)
Record Globals := mkGlobals {
  smtpConfig : SMTPConfig;
  recipients : list Recipient;
  emailSubject : string;
  emailBody : string;
  successCount : Z;
  failureCount : Z;
  totalEmails : Z
}.

Definition setConfig (c : SMTPConfig) (g : Globals) : Globals :=
  mkGlobals c (recipients g) (emailSubject g) (emailBody g)
            (successCount g) (failureCount g) (totalEmails g).
Definition setRecipients (rs : list Recipient) (g : Globals) : Globals :=
  mkGlobals (smtpConfig g) rs (emailSubject g) (emailBody g)
            (successCount g) (failureCount g) (totalEmails g).
Definition setTemplate (subj bod : string) (g : Globals) : Globals :=
  mkGlobals (smtpConfig g) (recipients g) subj bod
            (successCount g) (failureCount g) (totalEmails g).
Definition setSuccessCount (v : Z) (g : Globals) : Globals :=
  mkGlobals (smtpConfig g) (recipients g) (emailSubject g) (emailBody g)
            v (failureCount g) (totalEmails g).
Definition setFailureCount (v : Z) (g : Globals) : Globals :=
  mkGlobals (smtpConfig g) (recipients g) (emailSubject g) (emailBody g)
            (successCount g) v (totalEmails g).
Definition setTotalEmails (v : Z) (g : Globals) : Globals :=
  mkGlobals (smtpConfig g) (recipients g) (emailSubject g) (emailBody g)
            (successCount g) (failureCount g) v.

(** What the program shows: the calls on [progressBar] and [resultLabel].
    A [float64] quotient is kept as its two integer operands. *)
Inductive Ui :=
  | BarSetValue (num den : Z)                (* progressBar.SetValue(float64(num) / float64(den)) *)
  | BarSetFull                               (* progressBar.SetValue(1.0) *)
  | ResultQueued                             (* "Emails queued successfully." *)
  | ResultFetchFailed                        (* "Failed to fetch email queue." *)
  | ResultCountFailed                        (* "Failed to count pending emails." *)
  | ResultNoPending                          (* "No pending emails to send." *)
  | ResultProgress (num den sent failed : Z) (* "Progress: %.0f%%, Sent: %d, Failed: %d" *)
  | ResultCompleted (sent failed : Z).       (* "Job completed! Emails sent: %d, Failed: %d" *)

(** Where the goroutine running [sendEmails] stands. *)
Inductive MainPc :=
  | MIdle                                    (* no callback is running *)
  | MNext (cursor : list Row)                (* at [rows.Next()] *)
  | MAcquire (r : Row) (cursor : list Row)   (* after [wg.Add(1)], at [sem <- struct{}{}] *)
  | MSpawn (r : Row) (cursor : list Row)     (* holding the slot, at [go func(...)] *)
  | MWait                                    (* at [wg.Wait()] *)
  | MPurge                                   (* at [DELETE FROM email_queue] *)
  | MReport.                                 (* at the final [SetValue] and [SetText] *)

(** Where a worker goroutine (lines 283-305) stands. *)
Inductive WorkerPc :=
  | WSend                                    (* in [sendEmail]: the delivery is in flight *)
  | WLoad                                    (* [sendEmail] returned; about to read its counter *)
  | WStore (v : Z)                           (* read [v]; about to write [v + 1] *)
  | WUpdate                                  (* at the [UPDATE] *)
  | WNotify                                  (* at [updateChan <- struct{}{}] *)
  | WSleep                                   (* in [time.Sleep(emailDelay)] *)
  | WRelease                                 (* deferred [<-sem] *)
  | WDone                                    (* deferred [wg.Done()] *)
  | WExit.                                   (* returned *)

(** A worker goroutine: the row it was started for, where it stands, and
    the error [sendEmail] returned to it (meaningful once past [WSend]). *)
Record Worker := mkWorker { job : Row; wpc : WorkerPc; sendErr : option string }.

(** Where a listener goroutine (lines 259-265) stands. *)
Inductive ListenerPc :=
  | LRecv                                    (* blocked in [range updateChan] *)
  | LCompute                                 (* received; about to compute [progress] *)
  | LPublish (num den : Z).                  (* [SetValue] done; about to [SetText] *)

Record State := mkState {
  globals : Globals;
  table : Table;
  sqlLog : list (Sql * bool);   (* statements executed, latest first, and whether each succeeded *)
  ui : list Ui;                 (* widget calls, latest first *)
  mainPc : MainPc;
  workers : list Worker;        (* every worker goroutine started so far, in order *)
  sem : nat;                    (* number of tokens in the current [sem] channel *)
  wg : nat;                     (* counter of the current [sync.WaitGroup] *)
  listeners : list ListenerPc   (* listener goroutines, latest first: the head serves the current [updateChan] *)
}.

Definition setGlobals (g : Globals) (s : State) : State :=
  mkState g (table s) (sqlLog s) (ui s) (mainPc s) (workers s) (sem s) (wg s) (listeners s).
Definition setTable (t : Table) (s : State) : State :=
  mkState (globals s) t (sqlLog s) (ui s) (mainPc s) (workers s) (sem s) (wg s) (listeners s).
Definition logSql (q : Sql) (ok : bool) (s : State) : State :=
  mkState (globals s) (table s) ((q, ok) :: sqlLog s) (ui s) (mainPc s) (workers s) (sem s) (wg s) (listeners s).
Definition show (u : Ui) (s : State) : State :=
  mkState (globals s) (table s) (sqlLog s) (u :: ui s) (mainPc s) (workers s) (sem s) (wg s) (listeners s).
Definition setMain (pc : MainPc) (s : State) : State :=
  mkState (globals s) (table s) (sqlLog s) (ui s) pc (workers s) (sem s) (wg s) (listeners s).
Definition setWorkers (ws : list Worker) (s : State) : State :=
  mkState (globals s) (table s) (sqlLog s) (ui s) (mainPc s) ws (sem s) (wg s) (listeners s).
Definition setSem (n : nat) (s : State) : State :=
  mkState (globals s) (table s) (sqlLog s) (ui s) (mainPc s) (workers s) n (wg s) (listeners s).
Definition setWg (n : nat) (s : State) : State :=
  mkState (globals s) (table s) (sqlLog s) (ui s) (mainPc s) (workers s) (sem s) n (listeners s).
Definition setListeners (ls : list ListenerPc) (s : State) : State :=
  mkState (globals s) (table s) (sqlLog s) (ui s) (mainPc s) (workers s) (sem s) (wg s) ls.

(** [db.Exec] of a statement that changes the table to [t'] when it
    succeeds; a failed statement is only logged by the program. *)
Definition exec (q : Sql) (ok : bool) (t' : Table) (s : State) : State :=
  logSql q ok (if ok then setTable t' s else s).

(** The state [main] leaves before the window opens: the table exists and
    has been emptied, every variable has its zero value. [seq0] is the
    AUTOINCREMENT mark left in the file by earlier processes. *)
Definition init (seq0 : Z) : State :=
  mkState (mkGlobals (mkSMTPConfig "" 0 "" "" "") [] "" "" 0 0 0)
          (mkTable [] seq0) [] [] MIdle [] 0 0 [].

(** ** The button callbacks

    Fyne runs the callbacks of a window one after the other, so a callback
    starts only when no other one is running ([MIdle]). The file dialogs and
    the JSON and CSV parsing are not part of the model: a load callback is
    given the value it ends up storing. *)

Inductive UserOp :=
  | LoadSMTPConfig (cfg : SMTPConfig)
  | LoadRecipients (rs : list Recipient)
  | LoadTemplate (subj bod : string)
  | QueueEmails (insertOk : nat -> bool)        (* which of the INSERTs succeed *)
  | SendEmails (queryOk countOk : bool).        (* whether the two SELECTs succeed *)

(** [queueEmails], lines 218-226: one [INSERT] per recipient, the [k]-th
    one succeeding when [insertOk k]; a failure is logged and skipped. *)
Fixpoint queueLoop (rs : list Recipient) (k : nat) (insertOk : nat -> bool)
    (s : State) : State :=
  match rs with
  | [] => s
  | rc :: rs' =>
      let r := newRow (table s) rc (emailSubject (globals s)) (emailBody (globals s)) in
      queueLoop rs' (S k) insertOk
        (exec (SqlInsert r) (insertOk k) (insertRow r (table s)) s)
  end.

Definition queueEmails (insertOk : nat -> bool) (s : State) : State :=
  show ResultQueued (queueLoop (recipients (globals s)) 0 insertOk s).

(** [sendEmails], lines 231-269: up to the first [rows.Next()]. The
    [SELECT] and the [COUNT] see the same table, nothing else being able to
    write to it in between. The cursor yields the rows that are pending
    now: the workers only ever write to rows it has already yielded. The
    wait group, [updateChan] and [sem] are new objects; the workers of the
    earlier runs have all returned by then (see [PoolInv]). *)
Definition sendEmailsStart (queryOk countOk : bool) (s : State) : State :=
  let s1 := logSql SqlSelectPending queryOk s in
  if negb queryOk then show ResultFetchFailed s1 else
  let cursor := selectPending (table s) in
  let s2 := logSql SqlCountPending countOk s1 in
  if negb countOk then show ResultCountFailed s2 else
  let s3 := setGlobals (setTotalEmails (countPending (table s)) (globals s2)) s2 in
  if totalEmails (globals s3) =? 0 then show ResultNoPending s3 else
  (* a fresh WaitGroup, a fresh updateChan with its listener, a fresh sem *)
  setMain (MNext cursor)
    (setSem 0 (setWg 0 (setListeners (LRecv :: listeners s3) s3))).

Definition stepUser (op : UserOp) (s : State) : option State :=
  match mainPc s with
  | MIdle =>
      Some match op with
           | LoadSMTPConfig cfg => setGlobals (setConfig cfg (globals s)) s
           | LoadRecipients rs => setGlobals (setRecipients rs (globals s)) s
           | LoadTemplate subj bod => setGlobals (setTemplate subj bod (globals s)) s
           | QueueEmails insertOk => queueEmails insertOk s
           | SendEmails queryOk countOk => sendEmailsStart queryOk countOk s
           end
  | _ => None
  end.

(** ** The goroutines of [sendEmails]

    Each goroutine advances by steps, and the steps of different goroutines
    interleave in any order. A step is one statement that touches what the
    goroutines share (the counters, the table, [sem], the wait group,
    [updateChan], the widgets). A call of [sendEmail] is one step, taken
    when the call returns: it shares nothing with the other goroutines. No
    network call has a deadline, so a call may never return: its worker
    then never takes the step. The reads a statement makes
    of several variables are taken together, and so are the two widget
    calls that end [sendEmails]. Time is not modelled: [time.Sleep] is a
    step that can be taken at any moment. *)

(** Lines 271-320, one statement at a time. [ok] is the outcome of the
    database call of the step, if it has one; [None] means the goroutine
    is blocked (or not running). *)
Definition stepMain (ok : bool) (s : State) : option State :=
  match mainPc s with
  | MIdle => None
  | MNext [] => Some (setMain MWait s)
  | MNext (r :: cursor) =>
      if ok                                     (* rows.Scan *)
      then Some (setMain (MAcquire r cursor) (setWg (S (wg s)) s))
      else Some (setMain (MNext cursor) s)      (* continue *)
  | MAcquire r cursor =>
      if (sem s <? concurrency)%nat
      then Some (setMain (MSpawn r cursor) (setSem (S (sem s)) s))
      else None
  | MSpawn r cursor =>
      Some (setMain (MNext cursor) (setWorkers (workers s ++ [mkWorker r WSend None]) s))
  | MWait => if (wg s =? 0)%nat then Some (setMain MPurge s) else None
  | MPurge => Some (setMain MReport (exec SqlDeleteAll ok (deleteAll (table s)) s))
  | MReport =>
      Some (setMain MIdle
             (show (ResultCompleted (successCount (globals s)) (failureCount (globals s)))
                (show BarSetFull s)))
  end.

(** The counter a worker increments: [failureCount] when [sendEmail]
    returned an error, [successCount] otherwise. *)
Definition counterOf (err : option string) (g : Globals) : Z :=
  match err with Some _ => failureCount g | None => successCount g end.

Definition setCounterOf (err : option string) (v : Z) (g : Globals) : Globals :=
  match err with Some _ => setFailureCount v g | None => setSuccessCount v g end.

(** Lines 283-305 for the [i]-th worker. [net] is the behaviour of the
    network during its [sendEmail], [ok] the outcome of its [UPDATE]. The
    increment [x++] of a plain [int] is a read followed by a write. *)
Definition stepWorker (i : nat) (net : nat -> SmtpOp -> bool) (ok : bool)
    (s : State) : option State :=
  match workers s !! i with
  | None => None
  | Some w =>
      let r := job w in
      let at_ pc s' := setWorkers (<[i := mkWorker r pc (sendErr w)]> (workers s')) s' in
      match wpc w with
      | WSend =>
          let err := fst (sendEmail (smtpConfig (globals s)) (recipient_email r)
                            (recipient_name r) (sender_name r) (subject r) (body r) net) in
          Some (setWorkers (<[i := mkWorker r WLoad err]> (workers s)) s)
      | WLoad => Some (at_ (WStore (counterOf (sendErr w) (globals s))) s)
      | WStore v =>
          Some (at_ WUpdate (setGlobals (setCounterOf (sendErr w) (wrap (v + 1)) (globals s)) s))
      | WUpdate =>
          Some (at_ WNotify
                  (exec (SqlUpdateStatus "sent" (id r)) ok
                        (updateStatus "sent" (id r) (table s)) s))
      | WNotify =>
          match listeners s with
          | LRecv :: ls => Some (at_ WSleep (setListeners (LCompute :: ls) s))
          | _ => None
          end
      | WSleep => Some (at_ WRelease s)
      | WRelease => Some (at_ WDone (setSem (pred (sem s)) s))
      | WDone => Some (at_ WExit (setWg (pred (wg s)) s))
      | WExit => None
      end
  end.

(** Lines 260-264 for the [i]-th listener: the body of its loop. *)
Definition stepListener (i : nat) (s : State) : option State :=
  let g := globals s in
  match listeners s !! i with
  | Some LCompute =>
      let num := wrap (successCount g + failureCount g) in
      let den := totalEmails g in
      Some (setListeners (<[i := LPublish num den]> (listeners s))
              (show (BarSetValue num den) s))
  | Some (LPublish num den) =>
      Some (setListeners (<[i := LRecv]> (listeners s))
              (show (ResultProgress num den (successCount g) (failureCount g)) s))
  | _ => None
  end.

(** ** Executions *)

Inductive Action :=
  | Click (op : UserOp)
  | Main (ok : bool)
  | Work (i : nat) (net : nat -> SmtpOp -> bool) (ok : bool)
  | Listen (i : nat).

Definition step (a : Action) (s : State) : option State :=
  match a with
  | Click op => stepUser op s
  | Main ok => stepMain ok s
  | Work i net ok => stepWorker i net ok s
  | Listen i => stepListener i s
  end.

(** A schedule is run from left to right; an action that is not enabled
    in the current state is passed over. *)
Fixpoint run (sched : list Action) (s : State) : State :=
  match sched with
  | [] => s
  | a :: sched' => run sched' (default s (step a s))
  end.

(** The number of deliveries in flight, and of workers holding a slot of
    [sem]. *)
Definition sending (w : Worker) : bool :=
  match wpc w with WSend => true | _ => false end.

Definition holding (w : Worker) : bool :=
  match wpc w with WDone | WExit => false | _ => true end.

Definition live (w : Worker) : bool :=
  match wpc w with WExit => false | _ => true end.

Definition count (p : Worker -> bool) (ws : list Worker) : nat :=
  length (List.filter p ws).

Arguments count : simpl never.

Definition inFlight (s : State) : nat := count sending (workers s).

(** ** Vocabulary of the statements *)

(** *** Templates

    A template seen as the text between its tokens and the tokens. *)
Inductive Piece :=
  | Text (t : string)
  | NameToken                                (* {name} *)
  | SenderToken.                             (* {sender} *)

(** The template as it is written in the file. *)
Fixpoint render (p : list Piece) : string :=
  match p with
  | [] => ""
  | Text t :: p' => t +:+ render p'
  | NameToken :: p' => "{name}" +:+ render p'
  | SenderToken :: p' => "{sender}" +:+ render p'
  end.

(** The template with every token replaced by its value, the values being
    copied as they are. *)
Fixpoint fill (recipientName senderName : string) (p : list Piece) : string :=
  match p with
  | [] => ""
  | Text t :: p' => t +:+ fill recipientName senderName p'
  | NameToken :: p' => recipientName +:+ fill recipientName senderName p'
  | SenderToken :: p' => senderName +:+ fill recipientName senderName p'
  end.

(** The template after the first pass only. *)
Fixpoint fillName (recipientName : string) (p : list Piece) : string :=
  match p with
  | [] => ""
  | Text t :: p' => t +:+ fillName recipientName p'
  | NameToken :: p' => recipientName +:+ fillName recipientName p'
  | SenderToken :: p' => "{sender}" +:+ fillName recipientName p'
  end.

(** [c] does not occur in [s]. *)
Fixpoint lacks (c : ascii) (s : string) : bool :=
  match s with
  | EmptyString => true
  | String b s' => negb (Ascii.eqb c b) && lacks c s'
  end.

(** The text between the tokens has no opening brace. *)
Definition plain (p : list Piece) : bool :=
  forallb (fun x => match x with Text t => lacks "{" t | _ => true end) p.

(** No opening brace of [s] is followed by the letter s, nor ends [s]: no
    occurrence of [{sender}] can begin inside [s]. *)
Fixpoint noSenderStart (s : string) : bool :=
  match s with
  | EmptyString => true
  | String b s' =>
      (if Ascii.eqb b "{"
       then match s' with
            | EmptyString => false
            | String b' _ => negb (Ascii.eqb b' "s")
            end
       else true) && noSenderStart s'
  end.

(** The substitution as the specification words it: one pass over the
    template that replaces each token by its value and never looks inside
    a value it has inserted. *)
Fixpoint specSubstituteFrom (recipientName senderName : string) (skip : nat)
    (s : string) : string :=
  match s with
  | EmptyString => EmptyString
  | String c s' =>
      match skip with
      | S k => specSubstituteFrom recipientName senderName k s'
      | O =>
          if HasPrefix s "{name}"
          then recipientName +:+ specSubstituteFrom recipientName senderName 5 s'
          else if HasPrefix s "{sender}"
          then senderName +:+ specSubstituteFrom recipientName senderName 7 s'
          else String c (specSubstituteFrom recipientName senderName 0 s')
      end
  end.

Definition specSubstitute (recipientName senderName text : string) : string :=
  specSubstituteFrom recipientName senderName 0 text.

(** *** Traces of [sendEmail] *)

Definition isDial (e : Event) : bool := match e with EDial _ _ => true | _ => false end.
Definition isSleep (e : Event) : bool := match e with ESleep _ => true | _ => false end.
Definition isStartTLS (e : Event) : bool := match e with EStartTLS _ => true | _ => false end.
Definition isClose (e : Event) : bool :=
  match e with ECloseData | ECloseConn => true | _ => false end.

(** An attempt begins with its [smtp.Dial]. *)
Definition attempts (tr : list Event) : nat := length (List.filter isDial tr).
Definition sleeps (tr : list Event) : nat := length (List.filter isSleep tr).
Definition upgrades (tr : list Event) : nat := length (List.filter isStartTLS tr).

(** Whether one iteration of the retry loop reaches [return nil] under the
    network behaviour [net]. *)
Definition succeeds (cfg : SMTPConfig) (recipientEmail msg : string)
    (net : SmtpOp -> bool) : bool :=
  match fst (attempt cfg recipientEmail msg net (mkCall [] [])) with
  | Some _ => true
  | None => false
  end.

(** What one iteration adds to the trace. *)
Definition attemptEvents (cfg : SMTPConfig) (recipientEmail msg : string)
    (net : SmtpOp -> bool) : list Event :=
  trace (snd (attempt cfg recipientEmail msg net (mkCall [] []))).


(** *** Bookkeeping of the pool *)

(** The slot [sendEmails] itself holds between [sem <- struct{}{}] and the
    [go] statement, and the [wg.Add(1)] it has done for a worker it has not
    started yet. *)
Definition spawnSlot (pc : MainPc) : nat :=
  match pc with MSpawn _ _ => 1 | _ => 0 end.

Definition pendingAdd (pc : MainPc) : nat :=
  match pc with MAcquire _ _ | MSpawn _ _ => 1 | _ => 0 end.

(** [sendEmails] is not between its first [rows.Next()] and the return of
    [wg.Wait()]. *)
Definition quiescent (pc : MainPc) : bool :=
  match pc with MIdle | MPurge | MReport => true | _ => false end.

Record PoolInv (s : State) : Prop := mkPoolInv {
  pool_sem : sem s = (count holding (workers s) + spawnSlot (mainPc s))%nat;
  pool_bound : (sem s <= concurrency)%nat;
  pool_wg : wg s = (count live (workers s) + pendingAdd (mainPc s))%nat;
  pool_quiet : quiescent (mainPc s) = true -> wg s = 0%nat
}.

(** *** Bookkeeping of the table *)

(** How one action can change the table: rows are appended with fresh ids
    and status [pending], or the status of a row is set to [sent], or
    every row is deleted. *)
Inductive TableStep (t : Table) : Table -> Prop :=
  | TableInsert (news : list Row) (sq : Z) :
      (forall r, In r news -> status r = "pending" /\ seq t < id r <= sq) ->
      seq t <= sq ->
      TableStep t (mkTable (rows t ++ news) sq)
  | TableUpdate (i : Z) : TableStep t (updateStatus "sent" i t)
  | TableDelete : TableStep t (deleteAll t).

(** Every statement the program has run writes [pending] (by an insert)
    or [sent] (by an update) and nothing else. *)
Definition writesPendingOrSent (q : Sql) : Prop :=
  match q with
  | SqlInsert r => status r = "pending"
  | SqlUpdateStatus v _ => v = "sent"
  | _ => True
  end.

Record TableInv (s : State) : Prop := mkTableInv {
  tab_status : forall r, In r (rows (table s)) -> status r = "pending" \/ status r = "sent";
  tab_ids : forall r, In r (rows (table s)) -> id r <= seq (table s);
  tab_log : forall q ok, In (q, ok) (sqlLog s) -> writesPendingOrSent q
}.

(** *** Bookkeeping of the updates *)

(** The worker has run its [UPDATE]. *)
Definition pastUpdate (pc : WorkerPc) : bool :=
  match pc with
  | WNotify | WSleep | WRelease | WDone | WExit => true
  | _ => false
  end.

(** Every worker that is past its [UPDATE] has issued
    [UPDATE email_queue SET status = 'sent' WHERE id = <its row>]. *)
Definition UpdateInv (s : State) : Prop :=
  forall i w, workers s !! i = Some w -> pastUpdate (wpc w) = true ->
    exists ok, In (SqlUpdateStatus "sent" (id (job w)), ok) (sqlLog s).

(** *** Bookkeeping of the purge *)

(** As long as no [DELETE FROM email_queue] has failed, the table holds
    only pending rows between two runs, and no row at all after the purge
    of a run. *)
Definition PurgeInv (s : State) : Prop :=
  ~ In (SqlDeleteAll, false) (sqlLog s) ->
  match mainPc s with
  | MIdle => forall r, In r (rows (table s)) -> status r = "pending"
  | MReport => rows (table s) = []
  | _ => True
  end.

(** *** Counters that start above zero

    [shift ds df past s] is the state [s] in which [successCount] is [ds]
    higher and [failureCount] is [df] higher, together with every copy of
    them that a goroutine holds or that has been shown, and in which
    [past] had been shown before anything else. *)

Definition shiftOf (ds df : Z) (err : option string) : Z :=
  match err with Some _ => df | None => ds end.

Definition shiftWorker (ds df : Z) (w : Worker) : Worker :=
  match wpc w with
  | WStore v => mkWorker (job w) (WStore (wrap (v + shiftOf ds df (sendErr w)))) (sendErr w)
  | _ => w
  end.

Definition shiftListener (ds df : Z) (l : ListenerPc) : ListenerPc :=
  match l with
  | LPublish num den => LPublish (wrap (num + (ds + df))) den
  | _ => l
  end.

Definition shiftUi (ds df : Z) (u : Ui) : Ui :=
  match u with
  | BarSetValue num den => BarSetValue (wrap (num + (ds + df))) den
  | ResultProgress num den sent failed =>
      ResultProgress (wrap (num + (ds + df))) den (wrap (sent + ds)) (wrap (failed + df))
  | ResultCompleted sent failed => ResultCompleted (wrap (sent + ds)) (wrap (failed + df))
  | _ => u
  end.

Definition shiftGlobals (ds df : Z) (g : Globals) : Globals :=
  mkGlobals (smtpConfig g) (recipients g) (emailSubject g) (emailBody g)
            (wrap (successCount g + ds)) (wrap (failureCount g + df)) (totalEmails g).

Definition shift (ds df : Z) (past : list Ui) (s : State) : State :=
  mkState (shiftGlobals ds df (globals s)) (table s) (sqlLog s)
          ((shiftUi ds df <$> ui s) ++ past) (mainPc s)
          (shiftWorker ds df <$> workers s) (sem s) (wg s)
          (shiftListener ds df <$> listeners s).

(** The state [s] of a process whose counters were put back to zero, and
    whose display history is forgotten. *)
Definition withCountersReset (s : State) : State :=
  mkState (setSuccessCount 0 (setFailureCount 0 (globals s))) (table s) (sqlLog s)
          [] (mainPc s) (workers s) (sem s) (wg s) (listeners s).

(** No goroutine holds a copy of a counter: no worker is between the read
    and the write of its increment, no listener between its [SetValue] and
    its [SetText]. *)
Definition settled (s : State) : bool :=
  forallb (fun w => match wpc w with WStore _ => false | _ => true end) (workers s) &&
  forallb (fun l => match l with LPublish _ _ => false | _ => true end) (listeners s).

Definition inRange (z : Z) : Prop := - 2 ^ 63 <= z < 2 ^ 63.

Definition RangeInv (s : State) : Prop :=
  inRange (successCount (globals s)) /\ inRange (failureCount (globals s)).

(** *** Scenarios

    Schedules and network behaviours on which the statements are
    exercised. *)

Definition netAll (b : bool) : nat -> SmtpOp -> bool := fun _ _ => b.

(** The network of the specification's scenario: two failed attempts
    (authentication refused), then a success. *)
Definition thirdTimeLucky : nat -> SmtpOp -> bool :=
  fun i op => match op with OpAuth => (2 <=? i)%nat | _ => true end.

Definition bob : Recipient := mkRecipient "Alice" "Bob" "bob@x.org".

(** Load [n] recipients, queue them and press Send, every statement
    succeeding. *)
Definition batch (n : nat) : list Action :=
  [Click (LoadRecipients (replicate n bob));
   Click (QueueEmails (fun _ => true));
   Click (SendEmails true true)].

(** [sendEmails] fetches [n] rows and starts a worker for each:
    [rows.Next()], [sem <-], [go]. *)
Definition launch (n : nat) : list Action :=
  concat (replicate n [Main true; Main true; Main true]).

(** Worker [i] runs alone from its start to its exit, the listener of the
    current run publishing its progress event. *)
Definition serve (i : nat) (net : nat -> SmtpOp -> bool) : list Action :=
  replicate 5 (Work i net true) ++ [Listen 0; Listen 0] ++ replicate 3 (Work i net true).

(** [wg.Wait()] returns, the purge succeeds, the summary is shown. *)
Definition finish : list Action := [Main true; Main true; Main true].

(** A first run of one job, delivered, from the fresh process to the
    summary. *)
Definition firstRun : list Action :=
  batch 1 ++ launch 1 ++ [Main true] ++ serve 0 (netAll true) ++ finish.

(** The same run when its purge fails. *)
Definition firstRunPurgeFailed : list Action :=
  batch 1 ++ launch 1 ++ [Main true] ++ serve 0 (netAll true) ++
  [Main true; Main false; Main true].

(** A second run of one job, delivered, after [firstRun]: the recipients
    are still loaded, the new worker is the second of the process. *)
Definition secondRun : list Action :=
  [Click (QueueEmails (fun _ => true)); Click (SendEmails true true)] ++
  launch 1 ++ [Main true] ++ serve 1 (netAll true) ++ finish.

(** A first run of two jobs, both delivered, in which the two workers read
    [successCount] before either of them writes it back. *)
Definition racyRun : list Action :=
  let w0 := Work 0 (netAll true) true in
  let w1 := Work 1 (netAll true) true in
  batch 2 ++ launch 2 ++ [Main true] ++
  [w0; w1] ++                   (* both deliveries succeed *)
  [w0; w1] ++                   (* both read successCount = 0 *)
  [w0; w1] ++                   (* both write successCount = 1 *)
  [w0; w0; Listen 0; Listen 0; w0; w0; w0] ++
  [w1; w1; Listen 0; Listen 0; w1; w1; w1] ++
  finish.

(** The scenario of the specification: 25 jobs in a fresh process, the
    deliveries of the rows with an even id failing, the workers running
    one after the other (10 are started, and one more each time one has
    finished). *)
Definition evenIdsFail (i : nat) : nat -> SmtpOp -> bool := netAll (Nat.even i).

Definition scenario25 : list Action :=
  batch 25 ++ launch 10 ++
  concat (map (fun i => serve i (evenIdsFail i) ++ launch 1) (List.seq 0 15)) ++
  concat (map (fun i => serve i (evenIdsFail i)) (List.seq 15 10)) ++
  [Main true] ++ finish.


(** ** The load callbacks

    [loadTemplate] and [loadRecipients] after the file dialog: what the
    callback does with what it could read. [loadSMTPConfig] hands the bytes
    to [json.Unmarshal] and is left out. *)

(** The scanning loop of [strings.Split(s, sep)] for a non-empty [sep]:
    the pieces of [s] between the leftmost non-overlapping occurrences of
    [sep]; the head of the result is the piece being read. *)
Fixpoint splitFrom (sep : string) (skip : nat) (s : string) : list string :=
  match s with
  | EmptyString => [EmptyString]
  | String c s' =>
      match skip with
      | S k => splitFrom sep k s'
      | O =>
          if HasPrefix s sep
          then EmptyString :: splitFrom sep (String.length sep - 1) s'
          else match splitFrom sep 0 s' with
               | p :: ps => String c p :: ps
               | [] => [String c EmptyString]
               end
      end
  end.

Definition Split (s sep : string) : list string := splitFrom sep 0 s.

(** [s[n:]] *)
Fixpoint dropBytes (n : nat) (s : string) : string :=
  match n, s with
  | S k, String _ s' => dropBytes k s'
  | _, _ => s
  end.

(** [strings.TrimPrefix(s, prefix)] *)
Definition TrimPrefix (s prefix : string) : string :=
  if HasPrefix s prefix then dropBytes (String.length prefix) s else s.

(** What the dialog hands to the callback: no file, a file that cannot be
    read (or, for the CSV reader, parsed), or the content. *)
Inductive FileRead (A : Type) :=
  | OpenFailed
  | ReadFailed
  | Content (a : A).

Arguments OpenFailed {A}.
Arguments ReadFailed {A}.
Arguments Content {A} a.

(** The texts of [statusLabel]. *)
Inductive StatusText :=
  | StatusOpenFailed                         (* "Failed to open file." *)
  | StatusReadFailed                         (* "Failed to read file." *)
  | StatusReadCSVFailed                      (* "Failed to read CSV file." *)
  | StatusInvalidCSV                         (* "Invalid CSV format." *)
  | StatusRecipientsLoaded (n : Z)           (* "Recipients loaded: %d" *)
  | StatusTemplateLoaded.                    (* "Template loaded successfully." *)

(** Lines 202-208: the loop over the lines, [i] being the index of the
    head of [lines]. *)
Fixpoint templateLoop (lines : list string) (i : nat) (subj bod : string) :
    string * string :=
  match lines with
  | [] => (subj, bod)
  | line :: rest =>
      if (i =? 0)%nat
      then templateLoop rest (S i) (TrimPrefix line "Subject: ") bod
      else templateLoop rest (S i) subj (bod +:+ (line +:+ newline))
  end.

(** Lines 198-211: the subject and the body of a template file. *)
Definition parseTemplate (content : string) : string * string :=
  templateLoop (Split content newline) 0 "" "".

(** [loadTemplate], lines 185-214. *)
Definition loadTemplate (f : FileRead string) (g : Globals) : Globals * StatusText :=
  match f with
  | OpenFailed => (g, StatusOpenFailed)
  | ReadFailed => (g, StatusReadFailed)
  | Content content =>
      let '(subj, bod) := parseTemplate content in
      (setTemplate subj bod g, StatusTemplateLoaded)
  end.

(** The zero value of [Recipient]. *)
Definition zeroRecipient : Recipient := mkRecipient "" "" "".

(** [Recipient{record[0], record[1], record[2]}] *)
Definition recipientOf (record : list string) : Recipient :=
  mkRecipient (nth 0 record "") (nth 1 record "") (nth 2 record "").

(** Lines 167-178: the loop over the records, writing [recipients[i]];
    [false] is the early return on a record that has not 3 fields. *)
Fixpoint fillLoop (records : list (list string)) (i : nat) (rs : list Recipient) :
    list Recipient * bool :=
  match records with
  | [] => (rs, true)
  | record :: rest =>
      if (length record =? 3)%nat
      then fillLoop rest (S i) (<[i := recipientOf record]> rs)
      else (rs, false)
  end.

(** The rule of [csv.Reader] with its default [FieldsPerRecord = 0]: the
    first record sets the number of fields, and [ReadAll] fails
    ([ErrFieldCount]) on a record that has another number. *)
Definition fieldCountOk (records : list (list string)) : bool :=
  match records with
  | [] => true
  | first :: rest => forallb (fun record => (length record =? length first)%nat) rest
  end.

(** [loadRecipients], lines 146-182, [records] being the records the file
    holds, the header included; [ReadFailed] stands for a file that is not
    well-formed CSV. [csvReader.ReadAll()] returns the records when they
    all have as many fields as the first, and an error otherwise. The
    variable [recipients] is assigned the new slice before the loop. *)
Definition loadRecipients (f : FileRead (list (list string))) (g : Globals) :
    Globals * StatusText :=
  match f with
  | OpenFailed => (g, StatusOpenFailed)
  | ReadFailed => (g, StatusReadCSVFailed)
  | Content records =>
      if negb (fieldCountOk records) then (g, StatusReadCSVFailed) else
      let records := match records with [] => [] | _ :: data => data end in
      let '(rs, ok) := fillLoop records 0 (replicate (length records) zeroRecipient) in
      (setRecipients rs g,
       if ok then StatusRecipientsLoaded (Z.of_nat (length rs)) else StatusInvalidCSV)
  end.

(** The rows [queueEmails] inserts for [rs] when every [INSERT] succeeds,
    the AUTOINCREMENT mark being [sq] before the first. *)
Fixpoint queuedRows (sq : Z) (subj bod : string) (rs : list Recipient) : list Row :=
  match rs with
  | [] => []
  | rc :: rs' =>
      mkRow (sq + 1) (SenderName rc) (RecipientName rc) (RecipientEmail rc) subj bod "pending"
      :: queuedRows (sq + 1) subj bod rs'
  end.

(** The number of [INSERT]s that succeed among those numbered [k] to
    [k + n - 1]. *)
Fixpoint inserted (insertOk : nat -> bool) (k n : nat) : nat :=
  match n with
  | O => O
  | S n' => ((if insertOk k then 1 else 0) + inserted insertOk (S k) n')%nat
  end.


(** The lines put end to end, each followed by a line break. *)
Fixpoint unlines (lines : list string) : string :=
  match lines with
  | [] => ""
  | line :: rest => line +:+ newline +:+ unlines rest
  end.


(** *** More on the traces of [sendEmail] *)

(** What one iteration defers to the return of the call. *)
Definition attemptDefers (cfg : SMTPConfig) (recipientEmail msg : string)
    (net : SmtpOp -> bool) : list Event :=
  defers (snd (attempt cfg recipientEmail msg net (mkCall [] []))).

Definition isCloseConn (e : Event) : bool :=
  match e with ECloseConn => true | _ => false end.

(** The number of iterations among the first [n] whose [smtp.Dial]
    succeeds. *)
Definition dialled (net : nat -> SmtpOp -> bool) (n : nat) : nat :=
  length (List.filter (fun i => net i OpDial) (List.seq 0 n)).

(** The event is a call with the arguments [sendEmail] was given: the
    configured host, port, credentials and sender, the recipient address
    and the composed message. *)
Definition asConfigured (cfg : SMTPConfig) (recipientEmail msg : string) (e : Event) : Prop :=
  match e with
  | EDial host port => host = Host cfg /\ port = Port cfg
  | EStartTLS name => name = Host cfg
  | EAuth user password host => user = User cfg /\ password = Password cfg /\ host = Host cfg
  | EMail from => from = From cfg
  | ERcpt to => to = recipientEmail
  | EWrite m => m = msg
  | ESleep d => d = 2 * Second
  | EData | ECloseData | ECloseConn => True
  end.


(** *** Bookkeeping of the dispatch *)

(** The rows [sendEmails] still has to start a worker for: the one it
    holds, if any, and those the cursor has not yielded yet. *)
Definition inHand (pc : MainPc) : list Row :=
  match pc with
  | MNext cursor => cursor
  | MAcquire r cursor | MSpawn r cursor => r :: cursor
  | _ => []
  end.

(** The rows of the workers started since there were [n0] of them,
    followed by the rows still in hand. *)
Definition dispatched (n0 : nat) (s : State) : list Row :=
  drop n0 (job <$> workers s) ++ inHand (mainPc s).

Definition noClick (a : Action) : bool :=
  match a with Click _ => false | _ => true end.

(** No [rows.Scan] fails (nor any other database call of [sendEmails]
    itself). *)
Definition scansOk (a : Action) : bool :=
  match a with Main ok => ok | _ => true end.


(** *** Bookkeeping of the progress events *)

Definition tally {A : Type} (p : A -> bool) (l : list A) : nat :=
  length (List.filter p l).

Arguments tally : simpl never.

(** The worker has handed its progress event to the listener. *)
Definition notified (w : Worker) : bool :=
  match wpc w with WSleep | WRelease | WDone | WExit => true | _ => false end.

Definition computing (l : ListenerPc) : bool :=
  match l with LCompute => true | _ => false end.

Definition publishing (l : ListenerPc) : bool :=
  match l with LPublish _ _ => true | _ => false end.

Definition isBarSetValue (u : Ui) : bool :=
  match u with BarSetValue _ _ => true | _ => false end.

Definition isResultProgress (u : Ui) : bool :=
  match u with ResultProgress _ _ _ _ => true | _ => false end.

(** Every progress event handed over is shown once on the bar and once on
    the label, or is about to be. *)
Record ProgressInv (s : State) : Prop := mkProgressInv {
  progress_bar :
    (tally isBarSetValue (ui s) + tally computing (listeners s) =
     tally notified (workers s))%nat;
  progress_text :
    (tally isResultProgress (ui s) + tally publishing (listeners s) =
     tally isBarSetValue (ui s))%nat
}.


(** *** What is left of a run

    A bound on the number of steps the goroutines of a run still have to
    take: every statement a worker has before it, the two widget calls of
    a listener when it holds an event, and what [sendEmails] has left,
    the rows of its cursor included. *)

Definition weight {A : Type} (f : A -> nat) (l : list A) : nat :=
  list_sum (List.map f l).

Arguments weight : simpl never.

Definition wcost (w : Worker) : nat :=
  match wpc w with
  | WSend => 11 | WLoad => 10 | WStore _ => 9 | WUpdate => 8 | WNotify => 7
  | WSleep => 3 | WRelease => 2 | WDone => 1 | WExit => 0
  end.

Definition lcost (l : ListenerPc) : nat :=
  match l with LRecv => 0 | LCompute => 2 | LPublish _ _ => 1 end.

Definition mcost (pc : MainPc) : nat :=
  match pc with
  | MIdle => 0
  | MReport => 1
  | MPurge => 2
  | MWait => 3
  | MNext cursor => 4 + 15 * length cursor
  | MSpawn _ cursor => 17 + 15 * length cursor
  | MAcquire _ cursor => 18 + 15 * length cursor
  end.

Definition remaining (s : State) : nat :=
  mcost (mainPc s) + weight wcost (workers s) + weight lcost (listeners s).

(** The number of actions of a schedule that are taken, the others being
    passed over. *)
Fixpoint taken (sched : list Action) (s : State) : nat :=
  match sched with
  | [] => 0
  | a :: sched' =>
      match step a s with
      | Some s' => S (taken sched' s')
      | None => taken sched' s
      end
  end.

(** While [sendEmails] runs, the listener of its [updateChan] exists. *)
Definition ListenInv (s : State) : Prop :=
  mainPc s <> MIdle -> listeners s <> [].


(** *** Bookkeeping of the row ids *)

(** The ids of the rows grow along the table and stay below the
    AUTOINCREMENT mark. *)
Record KeyInv (t : Table) : Prop := mkKeyInv {
  key_sorted : StronglySorted Z.lt (map id (rows t));
  key_bound : Forall (fun r => id r <= seq t) (rows t)
}.

(** *** Bookkeeping of the listeners *)

Definition isResultCompleted (u : Ui) : bool :=
  match u with ResultCompleted _ _ => true | _ => false end.

(** [sendEmails] is running. *)
Definition running (pc : MainPc) : bool :=
  match pc with MIdle => false | _ => true end.


(** The action is not a step of worker [i]. *)
Definition notWorker (i : nat) (a : Action) : bool :=
  match a with Work j _ _ => negb (j =? i)%nat | _ => true end.

(** * Properties *)

(** ** Placeholder substitution *)

Section Replace.

Variables (c0 : ascii) (old' new : string).
Let old := String c0 old'.

Lemma HasPrefix_app (p b : string) : HasPrefix (p +:+ b) p = true.
Proof.
  induction p as [|a p IH]; simpl; [reflexivity|].
  now rewrite Ascii.eqb_refl, IH.
Qed.

Lemma replaceFrom_skip (o n a b : string) :
  replaceFrom o n (String.length a) (a +:+ b) = replaceFrom o n 0 b.
Proof.
  induction a as [|c a IH]; simpl; [reflexivity|exact IH].
Qed.

(** An occurrence of the token at the head is replaced, and the scan goes
    on after it. *)
Lemma ReplaceAll_token (b : string) :
  ReplaceAll (old +:+ b) old new = new +:+ ReplaceAll b old new.
Proof.
  unfold ReplaceAll, old. simpl.
  rewrite Ascii.eqb_refl, HasPrefix_app. simpl.
  now rewrite Nat.sub_0_r, replaceFrom_skip.
Qed.

(** Text without the first byte of the token is copied. *)
Lemma ReplaceAll_text (a b : string) :
  lacks c0 a = true ->
  ReplaceAll (a +:+ b) old new = a +:+ ReplaceAll b old new.
Proof.
  unfold ReplaceAll, old.
  induction a as [|c a IH]; simpl; [reflexivity|].
  intros [Hc Ha]%andb_prop.
  apply negb_true_iff in Hc. rewrite Hc. simpl.
  now rewrite IH.
Qed.

End Replace.

Lemma ReplaceAll_name_over_sender (rn b : string) :
  ReplaceAll ("{sender}" +:+ b) "{name}" rn = "{sender}" +:+ ReplaceAll b "{name}" rn.
Proof. reflexivity. Qed.

Lemma replaceFrom_cons (o n : string) (c : ascii) (s : string) :
  replaceFrom o n 0 (String c s) =
  if HasPrefix (String c s) o
  then n +:+ replaceFrom o n (String.length o - 1) s
  else String c (replaceFrom o n 0 s).
Proof. reflexivity. Qed.

Lemma HasPrefix_cons (c a : ascii) (s p : string) :
  HasPrefix (String c s) (String a p) = Ascii.eqb a c && HasPrefix s p.
Proof. reflexivity. Qed.

Lemma ReplaceAll_sender_over_value (sn v b : string) :
  noSenderStart v = true ->
  ReplaceAll (v +:+ b) "{sender}" sn = v +:+ ReplaceAll b "{sender}" sn.
Proof.
  unfold ReplaceAll.
  induction v as [|c v IH]; [reflexivity|].
  intros [Hc Hv]%andb_prop.
  specialize (IH Hv).
  change (String c v +:+ b) with (String c (v +:+ b)).
  change (String c v +:+ replaceFrom "{sender}" sn 0 b)
    with (String c (v +:+ replaceFrom "{sender}" sn 0 b)).
  rewrite replaceFrom_cons.
  change "{sender}" with (String "{" (String "s" "ender}")) at 1.
  rewrite HasPrefix_cons, Ascii.eqb_sym.
  destruct (Ascii.eqb c "{") eqn:Ec.
  - destruct v as [|c' v]; [discriminate|].
    apply negb_true_iff in Hc.
    change (String c' v +:+ b) with (String c' (v +:+ b)) at 1.
    rewrite HasPrefix_cons, Ascii.eqb_sym, Hc. cbn [andb].
    f_equal. exact IH.
  - cbn [andb]. f_equal. exact IH.
Qed.

Lemma first_pass (rn : string) (p : list Piece) :
  plain p = true -> ReplaceAll (render p) "{name}" rn = fillName rn p.
Proof.
  induction p as [|[t| |] p IH]; intros Hp; [reflexivity| | |].
  - apply andb_prop in Hp as [Ht Hp]. cbn [render fillName].
    change "{name}" with (String "{" "name}").
    rewrite ReplaceAll_text by exact Ht. now rewrite <- IH.
  - cbn [render fillName].
    change "{name}" with (String "{" "name}").
    rewrite ReplaceAll_token. now rewrite <- IH.
  - cbn [render fillName].
    rewrite ReplaceAll_name_over_sender. now rewrite IH.
Qed.

Lemma second_pass (rn sn : string) (p : list Piece) :
  plain p = true -> noSenderStart rn = true ->
  ReplaceAll (fillName rn p) "{sender}" sn = fill rn sn p.
Proof.
  intros Hp Hrn.
  induction p as [|[t| |] p IH]; [reflexivity| | |].
  - apply andb_prop in Hp as [Ht Hp]. cbn [fill fillName].
    change "{sender}" with (String "{" "sender}").
    rewrite ReplaceAll_text by exact Ht. now rewrite <- IH.
  - cbn [fill fillName].
    rewrite ReplaceAll_sender_over_value by exact Hrn. now rewrite IH.
  - cbn [fill fillName].
    change "{sender}" with (String "{" "sender}").
    rewrite ReplaceAll_token. now rewrite <- IH.
Qed.

Lemma substitute_fill (rn sn : string) (p : list Piece) :
  plain p = true -> noSenderStart rn = true ->
  substitute rn sn (render p) = fill rn sn p.
Proof.
  intros Hp Hrn. unfold substitute.
  now rewrite first_pass, second_pass.
Qed.

Lemma append_empty_r (s : string) : s +:+ "" = s.
Proof.
  induction s as [|c s IH]; [reflexivity|].
  change (String c (s +:+ "") = String c s). now rewrite IH.
Qed.

(** C3, as stated, fails: the second pass scans the recipient name the
    first pass has just inserted, so a [{sender}] token inside a recipient
    name is replaced in its turn, where the one-pass substitution of the
    specification leaves it alone; the same happens to a [{sender}] that
    the inserted name completes with the braces around it. *)
Lemma C3_sender_token_in_name_resubstituted :
  substitute "{sender}" "Alice" "Hi {name}" = "Hi Alice" /\
  specSubstitute "{sender}" "Alice" "Hi {name}" = "Hi {sender}" /\
  substitute "{sender}" "Alice" "Hi {name}" <> specSubstitute "{sender}" "Alice" "Hi {name}" /\
  substitute "sender" "Alice" "{{name}}" = "Alice" /\
  specSubstitute "sender" "Alice" "{{name}}" = "{sender}".
Proof. repeat split; try reflexivity. discriminate. Qed.

(** C3 (amended): for a template whose text between the tokens has no
    opening brace, and a recipient name in which no [{sender}] can begin,
    the subject and the body of the composed message are the template with
    every [{name}] replaced by the recipient name and every [{sender}] by
    the sender name, the names being copied as they are (a [{name}] inside
    either name and a [{sender}] inside the sender name stay). The match is
    case-sensitive, ["Hi {name} from {sender}"] gives ["Hi Bob from Alice"],
    and a recipient name that is [{sender}] is replaced by the sender
    name. *)
Theorem C3_substitution (cfg : SMTPConfig) (recipientName senderName : string)
    (subj bod : list Piece) :
  plain subj = true -> plain bod = true -> noSenderStart recipientName = true ->
  substitute recipientName senderName (render subj) = fill recipientName senderName subj /\
  substitute recipientName senderName (render bod) = fill recipientName senderName bod /\
  composeMessage cfg recipientName senderName (render subj) (render bod) =
    "From: " +:+ (senderName +:+ " <" +:+ From cfg +:+ ">") +:+ newline +:+
    "Subject: " +:+ fill recipientName senderName subj +:+ newline +:+ newline +:+
    fill recipientName senderName bod /\
  substitute "Bob" "Alice" "Hi {name} from {sender}" = "Hi Bob from Alice" /\
  substitute recipientName senderName "Dear {Name}, {NAME}, {Sender}" =
    "Dear {Name}, {NAME}, {Sender}" /\
  substitute "{sender}" senderName "{name}" = senderName.
Proof.
  intros Hs Hb Hn.
  assert (Es := substitute_fill recipientName senderName subj Hs Hn).
  assert (Eb := substitute_fill recipientName senderName bod Hb Hn).
  repeat split; try assumption; try reflexivity.
  - unfold composeMessage, senderHeader. now rewrite Es, Eb.
  - unfold substitute.
    change (ReplaceAll "{name}" "{name}" "{sender}") with ("{sender}" +:+ "").
    change "{sender}" with (String "{" "sender}") at 2.
    rewrite ReplaceAll_token.
    change (ReplaceAll "" "{sender}" senderName) with "".
    apply append_empty_r.
Qed.

Lemma C3_substitution_witness :
  substitute "{name}" "{sender} & {name}" "Hi {name} from {sender}" =
    "Hi {name} from {sender} & {name}".
Proof.
  pose proof (C3_substitution (mkSMTPConfig "h" 25 "u" "p" "me@x.org")
                "{name}" "{sender} & {name}"
                [Text "Hi "; NameToken; Text " from "; SenderToken] [Text "Dear "; NameToken]
                eq_refl eq_refl eq_refl) as H.
  exact (proj1 H).
Defined.

(** ** The retry loop of [sendEmail] *)

Section Attempt.

Variables (cfg : SMTPConfig) (recipientEmail msg : string).

Ltac attempt_cases net :=
  unfold attemptEvents, succeeds, attempt, bind, call, defer, ret;
  destruct (Port cfg =? 587) eqn:?;
  destruct (net OpDial) eqn:?; cbn [fst snd trace defers];
  try destruct (net OpStartTLS) eqn:?; cbn [fst snd trace defers];
  try destruct (net OpAuth) eqn:?; cbn [fst snd trace defers];
  try destruct (net OpMail) eqn:?; cbn [fst snd trace defers];
  try destruct (net OpRcpt) eqn:?; cbn [fst snd trace defers];
  try destruct (net OpData) eqn:?; cbn [fst snd trace defers];
  try destruct (net OpWrite) eqn:?; cbn [fst snd trace defers].

(** An iteration only appends to what the call has done and deferred. *)
Lemma attempt_frame (net : SmtpOp -> bool) (c : Call) :
  exists ds,
    forallb isClose ds = true /\
    attempt cfg recipientEmail msg net c =
      (if succeeds cfg recipientEmail msg net then Some tt else None,
       mkCall (trace c ++ attemptEvents cfg recipientEmail msg net) (ds ++ defers c)).
Proof.
  attempt_cases net;
    repeat rewrite <- app_assoc; cbn [app];
    first [ exists (@nil Event); split; reflexivity
          | exists [ECloseConn]; split; reflexivity
          | exists [ECloseData; ECloseConn]; split; reflexivity ].
Qed.

Lemma attempt_one_dial (net : SmtpOp -> bool) :
  attempts (attemptEvents cfg recipientEmail msg net) = 1%nat.
Proof. attempt_cases net; reflexivity. Qed.

Lemma attempt_sleeps (net : SmtpOp -> bool) :
  sleeps (attemptEvents cfg recipientEmail msg net) =
  if succeeds cfg recipientEmail msg net then 0%nat else 1%nat.
Proof. attempt_cases net; reflexivity. Qed.

Lemma attempt_sleep_flat (net : SmtpOp -> bool) (d : Z) :
  In (ESleep d) (attemptEvents cfg recipientEmail msg net) -> d = 2 * Second.
Proof.
  attempt_cases net; cbn [app In]; intros H;
    repeat (destruct H as [H|H]; [congruence|]); destruct H.
Qed.

(** A failed iteration ends with its only sleep. *)
Lemma attempt_failed_then_sleep (net : SmtpOp -> bool) :
  succeeds cfg recipientEmail msg net = false ->
  exists evs,
    attemptEvents cfg recipientEmail msg net = evs ++ [ESleep (2 * Second)] /\
    sleeps evs = 0%nat.
Proof.
  attempt_cases net; intros H; try discriminate H; cbn [app];
    match goal with
    | |- exists evs, ?l = _ /\ _ => exists (removelast l); split; reflexivity
    end.
Qed.

Lemma attempt_upgrades (net : SmtpOp -> bool) :
  upgrades (attemptEvents cfg recipientEmail msg net) =
  if net OpDial && (Port cfg =? 587) then 1%nat else 0%nat.
Proof. attempt_cases net; reflexivity. Qed.

End Attempt.

Lemma attempts_app (a b : list Event) : attempts (a ++ b) = (attempts a + attempts b)%nat.
Proof. unfold attempts. now rewrite List.filter_app, List.length_app. Qed.

Lemma sleeps_app (a b : list Event) : sleeps (a ++ b) = (sleeps a + sleeps b)%nat.
Proof. unfold sleeps. now rewrite List.filter_app, List.length_app. Qed.

(** The deferred closes are neither attempts nor sleeps. *)
Lemma closes_quiet (ds : list Event) :
  forallb isClose ds = true ->
  attempts ds = 0%nat /\ sleeps ds = 0%nat /\ upgrades ds = 0%nat /\
  forall d, ~ In (ESleep d) ds.
Proof.
  induction ds as [|e ds IH]; [intros _; repeat split; intros d []|].
  intros [He Hds]%andb_prop. destruct (IH Hds) as (A & S & U & N).
  destruct e; try discriminate He;
    (repeat split; [exact A|exact S|exact U|];
     intros d [H|H]; [discriminate H|exact (N d H)]).
Qed.

Section SendEmail.

Variables (cfg : SMTPConfig).
Variables (recipientEmail recipientName senderName subj bod : string).
Variable (net : nat -> SmtpOp -> bool).

Let msg := composeMessage cfg recipientName senderName subj bod.
Let ok (i : nat) := succeeds cfg recipientEmail msg (net i).
Let events (i : nat) := attemptEvents cfg recipientEmail msg (net i).

(** The call is its iterations one after the other, up to the first that
    succeeds, followed by the deferred closes. *)
Lemma sendEmail_shape :
  exists closes,
    forallb isClose closes = true /\
    sendEmail cfg recipientEmail recipientName senderName subj bod net =
      (if ok 0 then None else if ok 1 then None else if ok 2 then None
       else Some (exhausted recipientEmail),
       (events 0 ++
        (if ok 0 then [] else events 1 ++
         (if ok 1 then [] else events 2))) ++ closes).
Proof.
  unfold sendEmail. fold msg. cbn [retryLoop].
  destruct (attempt_frame cfg recipientEmail msg (net 0) (mkCall [] [])) as (d0 & H0 & ->).
  fold (ok 0) (events 0). destruct (ok 0).
  { exists (d0 ++ []). split; [now rewrite forallb_app, H0|].
    cbn [trace defers]. now rewrite !app_nil_r. }
  match goal with |- context [attempt _ _ _ _ ?c] =>
    destruct (attempt_frame cfg recipientEmail msg (net 1) c) as (d1 & H1 & ->) end.
  fold (ok 1) (events 1). destruct (ok 1).
  { exists (d1 ++ d0 ++ []). split; [now rewrite !forallb_app, H0, H1|].
    cbn [trace defers app]. now rewrite !app_nil_r. }
  match goal with |- context [attempt _ _ _ _ ?c] =>
    destruct (attempt_frame cfg recipientEmail msg (net 2) c) as (d2 & H2 & ->) end.
  fold (ok 2) (events 2).
  exists (d2 ++ d1 ++ d0 ++ []). split; [now rewrite !forallb_app, H0, H1, H2|].
  destruct (ok 2); cbn [trace defers app]; now rewrite <- !app_assoc.
Qed.

End SendEmail.

(** C2: a call of [sendEmail] makes at most 3 attempts; the first attempt
    that succeeds ends the call with [nil], no attempt following it; every
    failed attempt ends with one sleep of 2 seconds, and these are the only
    sleeps of the call; when the 3 attempts fail the call returns the error
    that names the recipient address. *)
Theorem C2_retry_policy (cfg : SMTPConfig)
    (recipientEmail recipientName senderName subj bod : string)
    (net : nat -> SmtpOp -> bool) :
  let msg := composeMessage cfg recipientName senderName subj bod in
  let ok i := succeeds cfg recipientEmail msg (net i) in
  let events i := attemptEvents cfg recipientEmail msg (net i) in
  let err := fst (sendEmail cfg recipientEmail recipientName senderName subj bod net) in
  let tr := snd (sendEmail cfg recipientEmail recipientName senderName subj bod net) in
  (attempts tr <= 3)%nat /\
  (forall k, (k < 3)%nat -> ok k = true -> (forall j, (j < k)%nat -> ok j = false) ->
     err = None /\ attempts tr = S k /\ sleeps tr = k) /\
  (ok 0%nat = false -> ok 1%nat = false -> ok 2%nat = false ->
     err = Some ("failed to send email to " +:+ recipientEmail +:+ " after multiple attempts") /\
     attempts tr = 3%nat /\ sleeps tr = 3%nat) /\
  (forall d, In (ESleep d) tr -> d = 2 * Second) /\
  (forall i, ok i = false ->
     exists evs, events i = evs ++ [ESleep (2 * Second)] /\ sleeps evs = 0%nat) /\
  (exists closes,
     forallb isClose closes = true /\
     tr = (events 0%nat ++
           (if ok 0%nat then [] else events 1%nat ++
            (if ok 1%nat then [] else events 2%nat))) ++ closes).
Proof.
  intros msg ok events err tr.
  destruct (sendEmail_shape cfg recipientEmail recipientName senderName subj bod net)
    as (closes & Hc & E).
  fold msg in E. fold (ok 0%nat) (ok 1%nat) (ok 2%nat) in E.
  fold (events 0%nat) (events 1%nat) (events 2%nat) in E.
  assert (Etr : tr = (events 0%nat ++
           (if ok 0%nat then [] else events 1%nat ++
            (if ok 1%nat then [] else events 2%nat))) ++ closes)
    by (unfold tr; now rewrite E).
  assert (Eerr : err = if ok 0%nat then None else if ok 1%nat then None
                       else if ok 2%nat then None else Some (exhausted recipientEmail))
    by (unfold err; now rewrite E).
  clearbody tr err. clear E.
  destruct (closes_quiet closes Hc) as (CA & CS & _ & CN).
  assert (A : forall i, attempts (events i) = 1%nat)
    by (intros i; apply attempt_one_dial).
  assert (S : forall i, sleeps (events i) = if ok i then 0%nat else 1%nat)
    by (intros i; apply attempt_sleeps).
  assert (Hn : attempts tr = if ok 0%nat then 1%nat else if ok 1%nat then 2%nat else 3%nat).
  { subst tr. rewrite !attempts_app, CA, A.
    destruct (ok 0%nat); [reflexivity|]. rewrite attempts_app, A.
    destruct (ok 1%nat); [reflexivity|]. now rewrite A. }
  assert (Hs : sleeps tr = if ok 0%nat then 0%nat else if ok 1%nat then 1%nat
                           else if ok 2%nat then 2%nat else 3%nat).
  { subst tr. rewrite !sleeps_app, CS, (S 0%nat).
    destruct (ok 0%nat); [reflexivity|]. rewrite sleeps_app, (S 1%nat).
    destruct (ok 1%nat); [reflexivity|]. rewrite (S 2%nat).
    now destruct (ok 2%nat). }
  repeat split.
  - rewrite Hn. destruct (ok 0%nat), (ok 1%nat); lia.
  - destruct k as [|[|[|k]]]; try lia;
      rewrite Eerr; try rewrite H0; try rewrite (H1 0%nat) by lia;
      try rewrite (H1 1%nat) by lia; reflexivity.
  - destruct k as [|[|[|k]]]; try lia;
      rewrite Hn; try rewrite H0; try rewrite (H1 0%nat) by lia;
      try rewrite (H1 1%nat) by lia; reflexivity.
  - destruct k as [|[|[|k]]]; try lia;
      rewrite Hs; try rewrite H0; try rewrite (H1 0%nat) by lia;
      try rewrite (H1 1%nat) by lia; try rewrite H0; reflexivity.
  - rewrite Eerr, H, H0, H1. reflexivity.
  - rewrite Hn, H, H0. reflexivity.
  - rewrite Hs, H, H0, H1. reflexivity.
  - intros d Hd. subst tr.
    assert (F : forall i, In (ESleep d) (events i) -> d = 2 * Second)
      by (intros i; apply attempt_sleep_flat).
    apply in_app_or in Hd as [Hd|Hd]; [|destruct (CN d Hd)].
    apply in_app_or in Hd as [Hd|Hd]; [exact (F _ Hd)|].
    destruct (ok 0%nat); [destruct Hd|].
    apply in_app_or in Hd as [Hd|Hd]; [exact (F _ Hd)|].
    destruct (ok 1%nat); [destruct Hd|exact (F _ Hd)].
  - intros i Hi. now apply attempt_failed_then_sleep.
  - exists closes. split; [exact Hc|exact Etr].
Qed.

Lemma C2_retry_policy_witness :
  fst (sendEmail (mkSMTPConfig "h" 587 "u" "p" "me@x.org")
         "bob@x.org" "Bob" "Alice" "Hi {name}" "Dear {name}" thirdTimeLucky) = None /\
  attempts (snd (sendEmail (mkSMTPConfig "h" 587 "u" "p" "me@x.org")
         "bob@x.org" "Bob" "Alice" "Hi {name}" "Dear {name}" thirdTimeLucky)) = 3%nat /\
  sleeps (snd (sendEmail (mkSMTPConfig "h" 587 "u" "p" "me@x.org")
         "bob@x.org" "Bob" "Alice" "Hi {name}" "Dear {name}" thirdTimeLucky)) = 2%nat.
Proof.
  pose proof (C2_retry_policy (mkSMTPConfig "h" 587 "u" "p" "me@x.org")
                "bob@x.org" "Bob" "Alice" "Hi {name}" "Dear {name}" thirdTimeLucky) as H.
  cbv zeta in H. destruct H as (_ & H & _).
  apply (H 2%nat); [lia|reflexivity|].
  intros j Hj. destruct j as [|[|j]]; [reflexivity|reflexivity|lia].
Defined.

(** C9: an attempt whose connection is open calls [StartTLS] exactly when
    the configured port is 587, right after the dial; with any other port
    it goes from the dial straight to the authentication; an attempt never
    upgrades more than once, and on port 587 an attempt whose upgrade is
    refused fails without authenticating. *)
Theorem C9_starttls_iff_port_587 (cfg : SMTPConfig) (recipientEmail msg : string)
    (net : SmtpOp -> bool) :
  let events := attemptEvents cfg recipientEmail msg net in
  (net OpDial = true ->
     ((exists name, In (EStartTLS name) events) <-> Port cfg = 587)) /\
  (net OpDial = true -> Port cfg = 587 ->
     exists rest, events = EDial (Host cfg) (Port cfg) :: EStartTLS (Host cfg) :: rest) /\
  (net OpDial = true -> Port cfg <> 587 ->
     exists rest, events = EDial (Host cfg) (Port cfg)
                           :: EAuth (User cfg) (Password cfg) (Host cfg) :: rest) /\
  (Port cfg <> 587 -> upgrades events = 0%nat) /\
  (upgrades events <= 1)%nat /\
  (Port cfg = 587 -> net OpStartTLS = false ->
     succeeds cfg recipientEmail msg net = false /\
     forall u p h, ~ In (EAuth u p h) events).
Proof.
  intros events.
  assert (Refused : Port cfg = 587 -> net OpStartTLS = false ->
            succeeds cfg recipientEmail msg net = false /\
            forall u p h, ~ In (EAuth u p h) events).
  { intros Hp Ht. apply Z.eqb_eq in Hp. subst events.
    unfold succeeds, attemptEvents, attempt, bind, call, defer, ret.
    rewrite Hp, Ht. destruct (net OpDial); cbn [fst snd trace defers app];
      (split; [reflexivity|]); intros u p h H;
      repeat (destruct H as [H|H]; [discriminate H|]); exact H. }
  assert (U := attempt_upgrades cfg recipientEmail msg net). fold events in U.
  assert (In0 : upgrades events = 0%nat -> forall name, ~ In (EStartTLS name) events).
  { unfold upgrades. generalize events. intros l Hl name Hin.
    induction l as [|e l IH]; [destruct Hin|].
    cbn [List.filter] in Hl. destruct Hin as [->|Hin]; [discriminate Hl|].
    destruct (isStartTLS e); [discriminate Hl|exact (IH Hl Hin)]. }
  assert (Shape : net OpDial = true ->
            exists rest, events = EDial (Host cfg) (Port cfg) ::
              (if Port cfg =? 587 then EStartTLS (Host cfg)
               else EAuth (User cfg) (Password cfg) (Host cfg)) :: rest).
  { intros Hd. subst events.
    unfold attemptEvents, attempt, bind, call, defer, ret. rewrite Hd.
    cbn [fst snd trace defers app].
    destruct (Port cfg =? 587).
    - destruct (net OpStartTLS); cbn [fst snd trace defers app].
      + destruct (net OpAuth), (net OpMail), (net OpRcpt), (net OpData), (net OpWrite);
          cbn [fst snd trace defers app]; eexists; reflexivity.
      + eexists; reflexivity.
    - destruct (net OpAuth), (net OpMail), (net OpRcpt), (net OpData), (net OpWrite);
        cbn [fst snd trace defers app]; eexists; reflexivity. }
  repeat split.
  - intros [name Hin]. apply Z.eqb_eq.
    destruct (Port cfg =? 587); [reflexivity|].
    rewrite andb_false_r in U. destruct (In0 U name Hin).
  - intros Hp. destruct (Shape H) as [rest E].
    apply Z.eqb_eq in Hp. rewrite Hp in E.
    exists (Host cfg). rewrite E. right. now left.
  - intros Hd Hp. destruct (Shape Hd) as [rest E].
    apply Z.eqb_eq in Hp. rewrite Hp in E. now exists rest.
  - intros Hd Hp. destruct (Shape Hd) as [rest E].
    apply Z.eqb_neq in Hp. rewrite Hp in E. now exists rest.
  - intros Hp. apply Z.eqb_neq in Hp. now rewrite U, Hp, andb_false_r.
  - rewrite U. destruct (net OpDial && (Port cfg =? 587)); lia.
  - exact (proj1 (Refused H H0)).
  - exact (proj2 (Refused H H0)).
Qed.

Lemma C9_starttls_iff_port_587_witness :
  (exists name,
     In (EStartTLS name)
        (attemptEvents (mkSMTPConfig "h" 587 "u" "p" "me@x.org") "bob@x.org" "m"
           (fun _ => true))) /\
  upgrades (attemptEvents (mkSMTPConfig "h" 25 "u" "p" "me@x.org") "bob@x.org" "m"
              (fun _ => true)) = 0%nat.
Proof.
  split.
  - apply (proj1 (C9_starttls_iff_port_587 (mkSMTPConfig "h" 587 "u" "p" "me@x.org")
                    "bob@x.org" "m" (fun _ => true))); reflexivity.
  - apply (proj1 (proj2 (proj2 (proj2
             (C9_starttls_iff_port_587 (mkSMTPConfig "h" 25 "u" "p" "me@x.org")
                "bob@x.org" "m" (fun _ => true)))))).
    cbn. discriminate.
Defined.

(** ** Executions and invariants *)

Lemma run_cons_Some (a : Action) (sched : list Action) (s s' : State) :
  step a s = Some s' -> run (a :: sched) s = run sched s'.
Proof. intros E. cbn [run]. now rewrite E. Qed.

Lemma run_cons_None (a : Action) (sched : list Action) (s : State) :
  step a s = None -> run (a :: sched) s = run sched s.
Proof. intros E. cbn [run]. now rewrite E. Qed.

(** A property that holds initially and is kept by every enabled step
    holds along every schedule. *)
Lemma run_invariant (P : State -> Prop) :
  (forall a s s', P s -> step a s = Some s' -> P s') ->
  forall sched s, P s -> P (run sched s).
Proof.
  intros Hstep sched. induction sched as [|a sched IH]; intros s Hs; [exact Hs|].
  cbn [run]. apply IH. destruct (step a s) as [s'|] eqn:E; [|exact Hs].
  exact (Hstep a s s' Hs E).
Qed.

(** *** Counting goroutines *)

Lemma count_app (p : Worker -> bool) (a b : list Worker) :
  count p (a ++ b) = (count p a + count p b)%nat.
Proof. unfold count. now rewrite List.filter_app, List.length_app. Qed.

Lemma count_insert (p : Worker -> bool) (ws : list Worker) (i : nat) (w w' : Worker) :
  ws !! i = Some w ->
  (count p (<[i := w']> ws) + (if p w then 1 else 0) =
   count p ws + (if p w' then 1 else 0))%nat.
Proof.
  revert i. induction ws as [|x ws IH]; intros i Hi; [discriminate Hi|].
  destruct i as [|i]; simpl in Hi.
  - injection Hi as ->. clear IH. unfold count. simpl.
    destruct (p w), (p w'); simpl; lia.
  - specialize (IH i Hi). unfold count in *. simpl.
    destruct (p x); simpl; lia.
Qed.

Lemma count_mono (p q : Worker -> bool) (ws : list Worker) :
  (forall w, p w = true -> q w = true) -> (count p ws <= count q ws)%nat.
Proof.
  intros Hpq. unfold count. induction ws as [|w ws IH]; [reflexivity|].
  simpl. specialize (Hpq w).
  destruct (p w), (q w); simpl; try lia.
Qed.

Lemma holding_le_live (ws : list Worker) : (count holding ws <= count live ws)%nat.
Proof. apply count_mono. intros w. unfold holding, live. now destruct (wpc w). Qed.

Lemma sending_le_holding (ws : list Worker) :
  (count sending ws <= count holding ws)%nat.
Proof. apply count_mono. intros w. unfold holding, sending. now destruct (wpc w). Qed.

Lemma count_lookup (p : Worker -> bool) (ws : list Worker) (i : nat) (w : Worker) :
  ws !! i = Some w -> p w = true -> (1 <= count p ws)%nat.
Proof.
  revert i. induction ws as [|x ws IH]; intros i Hi Hp; [discriminate Hi|].
  destruct i as [|i]; simpl in Hi.
  - injection Hi as ->. unfold count. simpl. rewrite Hp. simpl. lia.
  - specialize (IH i Hi Hp). unfold count in *. simpl.
    destruct (p x); simpl; lia.
Qed.

(** *** What [queueEmails] leaves alone *)

Lemma queueLoop_frame (rs : list Recipient) (k : nat) (f : nat -> bool) (s : State) :
  let s' := queueLoop rs k f s in
  globals s' = globals s /\ ui s' = ui s /\ mainPc s' = mainPc s /\
  workers s' = workers s /\ sem s' = sem s /\ wg s' = wg s /\
  listeners s' = listeners s.
Proof.
  revert k s. induction rs as [|rc rs IH]; intros k s; [now repeat split|].
  cbn [queueLoop].
  match goal with |- context [queueLoop rs (S k) f ?x] =>
    destruct (IH (S k) x) as (G & U & M & W & S & N & L) end.
  cbv zeta. rewrite G, U, M, W, S, N, L.
  unfold exec, logSql, setTable. now destruct (f k).
Qed.

(** *** The pool invariant *)

Lemma pool_init (seq0 : Z) : PoolInv (init seq0).
Proof. constructor; cbn; unfold concurrency; auto with arith. Qed.

Lemma pool_step (a : Action) (s s' : State) :
  PoolInv s -> step a s = Some s' -> PoolInv s'.
Proof.
  intros [Hsem Hb Hwg Hq] Hstep.
  pose proof (holding_le_live (workers s)) as Hhl.
  destruct a as [op|ok|i net ok|i]; cbn [step] in Hstep.
  - (* a callback starts *)
    unfold stepUser in Hstep.
    destruct (mainPc s) eqn:Hpc; try discriminate Hstep.
    injection Hstep as <-. cbn in Hsem, Hwg, Hq. specialize (Hq eq_refl).
    destruct op as [cfg|rs|subj bod|f|q c].
    1-3: constructor; cbn; rewrite ?Hpc; cbn; auto.
    + unfold queueEmails.
      destruct (queueLoop_frame (recipients (globals s)) 0 f s) as (_ & _ & M & W & S & N & _).
      constructor; cbn; rewrite ?M, ?W, ?S, ?N, ?Hpc; cbn; auto.
    + unfold sendEmailsStart.
      destruct q; cbn [negb]; [|constructor; cbn; rewrite ?Hpc; cbn; auto].
      destruct c; cbn [negb]; [|constructor; cbn; rewrite ?Hpc; cbn; auto].
      match goal with |- context [if ?b then _ else _] => destruct b end;
        constructor; cbn; rewrite ?Hpc; cbn; auto; try lia.
  - (* sendEmails *)
    unfold stepMain in Hstep.
    destruct (mainPc s) as [|cur|r cur|r cur| | |] eqn:Hpc; cbn in Hsem, Hwg, Hq.
    + discriminate Hstep.
    + destruct cur as [|r cur]; [|destruct ok]; injection Hstep as <-;
        constructor; cbn; auto; try lia; try discriminate.
      (* the loop is over: MWait is not quiescent *)
    + destruct (sem s <? concurrency)%nat eqn:Hlt; [|discriminate Hstep].
      apply Nat.ltb_lt in Hlt. injection Hstep as <-.
      constructor; cbn; auto; try lia; try discriminate.
    + injection Hstep as <-.
      assert (H1 : forall p, p (mkWorker r WSend None) = true ->
                count p [mkWorker r WSend None] = 1%nat)
        by (intros p Hp; unfold count; cbn; now rewrite Hp).
      constructor; cbn; rewrite ?count_app, ?H1 by reflexivity;
        auto; try lia; try discriminate.
    + destruct (wg s =? 0)%nat eqn:Hz; [|discriminate Hstep].
      apply Nat.eqb_eq in Hz. injection Hstep as <-.
      constructor; cbn; auto; try lia.
    + injection Hstep as <-. specialize (Hq eq_refl).
      unfold exec, logSql, setTable. destruct ok; constructor; cbn; auto; try lia.
    + injection Hstep as <-. specialize (Hq eq_refl).
      constructor; cbn; auto; try lia.
  - (* a worker *)
    unfold stepWorker in Hstep.
    destruct (workers s !! i) as [[r pc err]|] eqn:Hi; [|discriminate Hstep].
    cbn [job wpc sendErr] in Hstep.
    assert (Hlive : pc <> WExit -> (1 <= count live (workers s))%nat).
    { intros Hne. apply (count_lookup live _ i _ Hi). now destruct pc. }
    assert (Hhold : forall pc', (count holding (<[i := mkWorker r pc' err]> (workers s))
                     + (if holding (mkWorker r pc err) then 1 else 0)
                   = count holding (workers s)
                     + (if holding (mkWorker r pc' err) then 1 else 0))%nat)
      by (intros pc'; apply count_insert; exact Hi).
    assert (Hliv : forall pc', (count live (<[i := mkWorker r pc' err]> (workers s))
                     + (if live (mkWorker r pc err) then 1 else 0)
                   = count live (workers s)
                     + (if live (mkWorker r pc' err) then 1 else 0))%nat)
      by (intros pc'; apply count_insert; exact Hi).
    assert (Hq' : quiescent (mainPc s) = true -> pc = WExit).
    { intros Q. specialize (Hq Q). destruct pc; try reflexivity;
        (assert (1 <= count live (workers s))%nat by (apply Hlive; discriminate); lia). }
    destruct pc.
    + (* sendEmail returns *)
      injection Hstep as <-.
      pose proof (count_insert holding (workers s) i (mkWorker r WSend err)
                    (mkWorker r WLoad
                       (fst (sendEmail (smtpConfig (globals s)) (recipient_email r)
                               (recipient_name r) (sender_name r) (subject r) (body r) net)))
                    Hi) as H1.
      pose proof (count_insert live (workers s) i (mkWorker r WSend err)
                    (mkWorker r WLoad
                       (fst (sendEmail (smtpConfig (globals s)) (recipient_email r)
                               (recipient_name r) (sender_name r) (subject r) (body r) net)))
                    Hi) as H2.
      cbn in H1, H2.
      constructor; cbn; auto; try lia; try (intros Q; discriminate (Hq' Q)).
    + injection Hstep as <-. specialize (Hhold (WStore (counterOf err (globals s)))).
      specialize (Hliv (WStore (counterOf err (globals s)))). cbn in Hhold, Hliv.
      constructor; cbn; auto; try lia; try (intros Q; discriminate (Hq' Q)).
    + injection Hstep as <-. specialize (Hhold WUpdate). specialize (Hliv WUpdate).
      cbn in Hhold, Hliv.
      constructor; cbn; auto; try lia; try (intros Q; discriminate (Hq' Q)).
    + injection Hstep as <-. specialize (Hhold WNotify). specialize (Hliv WNotify).
      cbn in Hhold, Hliv. unfold exec, logSql, setTable.
      destruct ok; constructor; cbn; auto; try lia; try (intros Q; discriminate (Hq' Q)).
    + destruct (listeners s) as [|[| |] ls]; try discriminate Hstep.
      injection Hstep as <-. specialize (Hhold WSleep). specialize (Hliv WSleep).
      cbn in Hhold, Hliv.
      constructor; cbn; auto; try lia; try (intros Q; discriminate (Hq' Q)).
    + injection Hstep as <-. specialize (Hhold WRelease). specialize (Hliv WRelease).
      cbn in Hhold, Hliv.
      constructor; cbn; auto; try lia; try (intros Q; discriminate (Hq' Q)).
    + (* the slot is given back *)
      injection Hstep as <-. specialize (Hhold WDone). specialize (Hliv WDone).
      cbn in Hhold, Hliv.
      constructor; cbn; auto; try lia; try (intros Q; discriminate (Hq' Q)).
    + (* wg.Done() *)
      injection Hstep as <-. specialize (Hhold WExit). specialize (Hliv WExit).
      cbn in Hhold, Hliv.
      constructor; cbn; auto; try lia; try (intros Q; discriminate (Hq' Q)).
    + discriminate Hstep.
  - (* a listener *)
    unfold stepListener in Hstep.
    destruct (listeners s !! i) as [[| |num den]|]; try discriminate Hstep;
      injection Hstep as <-; constructor; cbn; auto.
Qed.

Lemma pool_run (sched : list Action) (seq0 : Z) : PoolInv (run sched (init seq0)).
Proof.
  apply run_invariant; [|apply pool_init].
  intros a s s'. apply pool_step.
Qed.

(** C5: along every execution, the number of deliveries in flight, and
    even the number of workers that have not yet given their slot back,
    never exceeds the concurrency bound 10; when 10 workers hold a slot,
    [sendEmails] is blocked at [sem <-] and starts no further worker. *)
Theorem C5_concurrency_bound (sched : list Action) (seq0 : Z) :
  let s := run sched (init seq0) in
  (inFlight s <= 10)%nat /\
  (count holding (workers s) <= 10)%nat /\
  (forall r cursor ok,
     mainPc s = MAcquire r cursor -> count holding (workers s) = 10%nat ->
     step (Main ok) s = None).
Proof.
  intros s. destruct (pool_run sched seq0) as [Hsem Hb _ _]. fold s in Hsem, Hb.
  unfold concurrency in Hb.
  pose proof (sending_le_holding (workers s)) as Hsh.
  unfold inFlight. repeat split; try lia.
  intros r cursor ok Hpc Hfull. cbn [step]. unfold stepMain. rewrite Hpc in *.
  cbn in Hsem. replace (sem s) with 10%nat by lia. reflexivity.
Qed.

Lemma C5_concurrency_bound_witness :
  inFlight (run (batch 11 ++ launch 10 ++ [Main true]) (init 0)) = 10%nat /\
  step (Main true) (run (batch 11 ++ launch 10 ++ [Main true]) (init 0)) = None.
Proof.
  split; [vm_compute; reflexivity|].
  refine (proj2 (proj2 (C5_concurrency_bound (batch 11 ++ launch 10 ++ [Main true]) 0))
            _ _ true _ _); vm_compute; reflexivity.
Defined.

(** ** The status column *)

Lemma statusOf_app_Some (i : Z) (rs news : list Row) (sq sq' : Z) (st : string) :
  statusOf i (mkTable rs sq) = Some st ->
  statusOf i (mkTable (rs ++ news) sq') = Some st.
Proof.
  unfold statusOf. cbn [rows].
  induction rs as [|r rs IH]; [discriminate|].
  cbn [app find]. destruct (id r =? i); [trivial|exact IH].
Qed.

Lemma statusOf_app_None (i : Z) (rs news : list Row) (sq sq' : Z) :
  statusOf i (mkTable rs sq) = None ->
  statusOf i (mkTable (rs ++ news) sq') = statusOf i (mkTable news sq').
Proof.
  unfold statusOf. cbn [rows].
  induction rs as [|r rs IH]; [reflexivity|].
  cbn [app find]. destruct (id r =? i); [discriminate|exact IH].
Qed.

Lemma statusOf_In (i : Z) (t : Table) (st : string) :
  statusOf i t = Some st -> exists r, In r (rows t) /\ id r = i /\ status r = st.
Proof.
  unfold statusOf. destruct (find _ (rows t)) as [r|] eqn:E; [|discriminate].
  intros [= <-]. apply find_some in E as [Hin Hid].
  exists r. repeat split; [exact Hin|now apply Z.eqb_eq].
Qed.

Lemma statusOf_update (v : string) (i j : Z) (t : Table) :
  statusOf i (updateStatus v j t) =
  match statusOf i t with
  | Some st => Some (if i =? j then v else st)
  | None => None
  end.
Proof.
  unfold statusOf, updateStatus. cbn [rows].
  induction (rows t) as [|r rs IH]; [reflexivity|].
  cbn [map find].
  destruct (id r =? j) eqn:Ej; cbn [id setStatus].
  - destruct (id r =? i) eqn:Ei.
    + apply Z.eqb_eq in Ej, Ei. subst. now rewrite Z.eqb_refl.
    + exact IH.
  - destruct (id r =? i) eqn:Ei; [|exact IH].
    apply Z.eqb_eq in Ei. subst i. now rewrite Ej.
Qed.

(** What one step of the table does to the status of a row. *)
Lemma TableStep_status (t t' : Table) (i : Z) :
  TableStep t t' ->
  match statusOf i t, statusOf i t' with
  | Some st, Some st' => st' = st \/ st' = "sent"
  | None, Some st' => st' = "pending" /\ seq t < i
  | _, None => True
  end.
Proof.
  intros [news sq Hnews Hsq|j|].
  - destruct t as [rs sq0]. cbn [rows seq] in *.
    destruct (statusOf i (mkTable rs sq0)) as [st|] eqn:E.
    + rewrite (statusOf_app_Some i rs news sq0 sq st E). now left.
    + rewrite (statusOf_app_None i rs news sq0 sq E).
      destruct (statusOf i (mkTable news sq)) as [st'|] eqn:E'; [|trivial].
      apply statusOf_In in E' as (r & Hin & Hid & Hst).
      destruct (Hnews r Hin) as [Hp Hr]. cbn in Hin. split; [congruence|lia].
  - rewrite statusOf_update. destruct (statusOf i t) as [st|]; [|trivial].
    destruct (i =? j); [now right|now left].
  - unfold statusOf, deleteAll. cbn. now destruct (find _ (rows t)).
Qed.

Lemma TableStep_seq (t t' : Table) : TableStep t t' -> seq t <= seq t'.
Proof. intros [news sq _ Hsq|j|]; cbn; lia. Qed.

(** The inserts of [queueEmails]. *)
Lemma queueLoop_table (rs : list Recipient) (k : nat) (f : nat -> bool) (s : State) :
  exists news sq,
    table (queueLoop rs k f s) = mkTable (rows (table s) ++ news) sq /\
    (forall r, In r news -> status r = "pending" /\ seq (table s) < id r <= sq) /\
    seq (table s) <= sq /\
    (forall q ok, In (q, ok) (sqlLog (queueLoop rs k f s)) ->
       In (q, ok) (sqlLog s) \/ writesPendingOrSent q).
Proof.
  revert k s. induction rs as [|rc rs IH]; intros k s.
  - exists [], (seq (table s)). cbn [queueLoop]. rewrite app_nil_r.
    destruct (table s). cbn [rows seq].
    refine (conj eq_refl (conj _ (conj _ _))); [intros r []|lia|now left].
  - cbn [queueLoop].
    match goal with |- context [queueLoop rs (S k) f ?x] =>
      destruct (IH (S k) x) as (news & sq & E & Hn & Hs & Hl); rewrite E end.
    unfold exec, logSql, setTable in *.
    destruct (f k); cbn [table sqlLog insertRow rows seq newRow id] in *.
    + exists (newRow (table s) rc (emailSubject (globals s)) (emailBody (globals s)) :: news), sq.
      rewrite <- app_assoc. cbn [app]. repeat split; try lia.
      * destruct H as [<-|H]; [reflexivity|exact (proj1 (Hn r H))].
      * destruct H as [<-|H]; [cbn; lia|]. destruct (Hn r H). lia.
      * destruct H as [<-|H]; [cbn; lia|]. destruct (Hn r H). lia.
      * intros q ok Hin. destruct (Hl q ok Hin) as [[[= <- <-]|H]|H];
          [right; reflexivity|now left|now right].
    + exists news, sq. repeat split; try apply Hn; try assumption.
      intros q ok Hin. destruct (Hl q ok Hin) as [[[= <- <-]|H]|H];
          [right; reflexivity|now left|now right].
Qed.

Lemma TableStep_refl (t : Table) : TableStep t t.
Proof.
  replace t with (mkTable (rows t ++ []) (seq t)) at 2
    by (rewrite app_nil_r; now destruct t).
  apply TableInsert; [intros r []|lia].
Qed.

Lemma TableStep_rows (t t' : Table) :
  TableStep t t' ->
  (forall r, In r (rows t) ->
     (status r = "pending" \/ status r = "sent") /\ id r <= seq t) ->
  forall r, In r (rows t') ->
    (status r = "pending" \/ status r = "sent") /\ id r <= seq t'.
Proof.
  intros [news sq Hnews Hsq|j|] H r Hin; cbn [rows seq updateStatus deleteAll] in *.
  - apply in_app_or in Hin as [Hin|Hin].
    + destruct (H r Hin). split; [assumption|lia].
    + destruct (Hnews r Hin) as [Hp Hr]. split; [now left|lia].
  - apply in_map_iff in Hin as (r0 & <- & Hin). destruct (H r0 Hin) as [Hs Hi].
    destruct (id r0 =? j); [|now split]. split; [now right|exact Hi].
  - destruct Hin.
Qed.

(** Every enabled action changes the table by a [TableStep], and runs only
    statements that write [pending] or [sent]. *)
Lemma step_table (a : Action) (s s' : State) :
  step a s = Some s' ->
  TableStep (table s) (table s') /\
  (forall q ok, In (q, ok) (sqlLog s') -> In (q, ok) (sqlLog s) \/ writesPendingOrSent q).
Proof.
  intros Hstep.
  assert (Same : forall x : State, table x = table s -> sqlLog x = sqlLog s ->
            TableStep (table s) (table x) /\
            (forall q ok, In (q, ok) (sqlLog x) -> In (q, ok) (sqlLog s) \/ writesPendingOrSent q)).
  { intros x -> ->. split; [apply TableStep_refl|now left]. }
  destruct a as [op|ok|i net ok|i]; cbn [step] in Hstep.
  - unfold stepUser in Hstep.
    destruct (mainPc s); try discriminate Hstep. injection Hstep as <-.
    destruct op as [cfg|rs|subj bod|f|q c]; try (apply Same; reflexivity).
    + unfold queueEmails. cbn [show table sqlLog].
      destruct (queueLoop_table (recipients (globals s)) 0 f s)
        as (news & sq & E & Hn & Hs & Hl).
      rewrite E. split; [now apply TableInsert|exact Hl].
    + unfold sendEmailsStart.
      destruct q; cbn [negb].
      2: { split; [apply TableStep_refl|]. cbn. intros q ok [[= <- <-]|H]; [now right|now left]. }
      destruct c; cbn [negb].
      2: { split; [apply TableStep_refl|]. cbn.
           intros q ok [[= <- <-]|[[= <- <-]|H]]; [now right|now right|now left]. }
      match goal with |- context [if ?b then _ else _] => destruct b end;
        (split; [apply TableStep_refl|]; cbn;
         intros q ok [[= <- <-]|[[= <- <-]|H]]; [now right|now right|now left]).
  - unfold stepMain in Hstep.
    destruct (mainPc s) as [|cur|r cur|r cur| | |].
    + discriminate Hstep.
    + destruct cur as [|r cur]; [|destruct ok]; injection Hstep as <-; apply Same; reflexivity.
    + destruct (sem s <? concurrency)%nat; [|discriminate Hstep].
      injection Hstep as <-. apply Same; reflexivity.
    + injection Hstep as <-. apply Same; reflexivity.
    + destruct (wg s =? 0)%nat; [|discriminate Hstep].
      injection Hstep as <-. apply Same; reflexivity.
    + injection Hstep as <-. unfold exec, logSql, setTable.
      destruct ok; cbn [setMain table sqlLog].
      * split; [apply TableDelete|].
        intros q ok [[= <- <-]|H]; [now right|now left].
      * split; [apply TableStep_refl|].
        intros q ok [[= <- <-]|H]; [now right|now left].
    + injection Hstep as <-. apply Same; reflexivity.
  - unfold stepWorker in Hstep.
    destruct (workers s !! i) as [[r pc err]|]; [|discriminate Hstep].
    cbn [job wpc sendErr] in Hstep.
    destruct pc; try discriminate Hstep;
      try (injection Hstep as <-; apply Same; reflexivity).
    + injection Hstep as <-. unfold exec, logSql, setTable.
      destruct ok; cbn [setWorkers table sqlLog].
      * split; [apply TableUpdate|].
        intros q ok [[= <- <-]|H]; [now right|now left].
      * split; [apply TableStep_refl|].
        intros q ok [[= <- <-]|H]; [now right|now left].
    + destruct (listeners s) as [|[| |] ls]; try discriminate Hstep.
      injection Hstep as <-. apply Same; reflexivity.
  - unfold stepListener in Hstep.
    destruct (listeners s !! i) as [[| |num den]|]; try discriminate Hstep;
      injection Hstep as <-; apply Same; reflexivity.
Qed.

Lemma table_init (seq0 : Z) : TableInv (init seq0).
Proof. constructor; cbn; intros; contradiction. Qed.

Lemma table_step (a : Action) (s s' : State) :
  TableInv s -> step a s = Some s' -> TableInv s'.
Proof.
  intros [Hst Hid Hlog] Hstep. destruct (step_table a s s' Hstep) as [Ht Hl].
  assert (H : forall r, In r (rows (table s')) ->
            (status r = "pending" \/ status r = "sent") /\ id r <= seq (table s')).
  { apply (TableStep_rows _ _ Ht). intros r Hin. split; [now apply Hst|now apply Hid]. }
  constructor.
  - intros r Hin. exact (proj1 (H r Hin)).
  - intros r Hin. exact (proj2 (H r Hin)).
  - intros q ok Hin. destruct (Hl q ok Hin) as [Hold|Hnew]; [exact (Hlog q ok Hold)|exact Hnew].
Qed.

Lemma table_run (sched : list Action) (s : State) : TableInv s -> TableInv (run sched s).
Proof. apply run_invariant. intros a x x'. apply table_step. Qed.

(** A step of the program on the status of row [i]. *)
Lemma step_status (a : Action) (s : State) (i : Z) :
  match statusOf i (table s), statusOf i (table (run [a] s)) with
  | Some st, Some st' => st' = st \/ st' = "sent"
  | None, Some st' => st' = "pending" /\ seq (table s) < i
  | _, None => True
  end.
Proof.
  destruct (step a s) as [s'|] eqn:E.
  - rewrite (run_cons_Some _ _ _ _ E). cbn [run].
    apply TableStep_status. exact (proj1 (step_table a s s' E)).
  - rewrite (run_cons_None _ _ _ E). cbn [run].
    apply TableStep_status. apply TableStep_refl.
Qed.

(** A row that is [sent] stays [sent] until it is deleted, and its id is
    never given to another row. *)
Lemma sent_forever (more : list Action) (s : State) (i : Z) :
  TableInv s ->
  statusOf i (table s) = Some "sent" \/
    (statusOf i (table s) = None /\ i <= seq (table s)) ->
  statusOf i (table (run more s)) = Some "sent" \/
    (statusOf i (table (run more s)) = None /\ i <= seq (table (run more s))).
Proof.
  revert s. induction more as [|a more IH]; intros s Hinv H; [exact H|].
  destruct (step a s) as [s'|] eqn:E;
    [rewrite (run_cons_Some _ _ _ _ E)|rewrite (run_cons_None _ _ _ E); now apply IH].
  apply IH; [exact (table_step a s s' Hinv E)|].
  destruct (step_table a s s' E) as [Ht _].
  pose proof (TableStep_status _ _ i Ht) as Hs.
  pose proof (TableStep_seq _ _ Ht) as Hq.
  destruct H as [H|[H Hi]]; rewrite H in Hs.
  - destruct (statusOf i (table s')) as [st'|] eqn:E'.
    + left. destruct Hs as [->| ->]; reflexivity.
    + right. split; [reflexivity|].
      apply statusOf_In in H as (r & Hin & <- & _).
      pose proof (tab_ids s Hinv r Hin). lia.
  - destruct (statusOf i (table s')) as [st'|] eqn:E'; [lia|].
    right. split; [reflexivity|lia].
Qed.

(** C7: along every execution each row is [pending] or [sent]; a row is
    created [pending]; one action leaves the status of a row as it is or
    takes it from [pending] to [sent]; a row that is [sent] is [sent] for
    as long as it exists (and its id is not reused); the only status the
    program ever writes with an [UPDATE] is [sent], and every [INSERT]
    writes [pending]. *)
Theorem C7_status_only_pending_to_sent (sched : list Action) (seq0 : Z)
    (a : Action) (more : list Action) (i : Z) :
  let s := run sched (init seq0) in
  (forall r, In r (rows (table s)) -> status r = "pending" \/ status r = "sent") /\
  (forall st', statusOf i (table s) = None ->
     statusOf i (table (run [a] s)) = Some st' -> st' = "pending") /\
  (forall st st', statusOf i (table s) = Some st ->
     statusOf i (table (run [a] s)) = Some st' ->
     st' = st \/ (st = "pending" /\ st' = "sent")) /\
  (forall st', statusOf i (table s) = Some "sent" ->
     statusOf i (table (run more s)) = Some st' -> st' = "sent") /\
  (forall v j ok, In (SqlUpdateStatus v j, ok) (sqlLog s) -> v = "sent") /\
  (forall r ok, In (SqlInsert r, ok) (sqlLog s) -> status r = "pending").
Proof.
  intros s.
  assert (Hinv : TableInv s) by (apply table_run, table_init).
  pose proof (step_status a s i) as Hstep.
  repeat split.
  - apply (tab_status s Hinv).
  - intros st' H0 H1. rewrite H0, H1 in Hstep. exact (proj1 Hstep).
  - intros st st' H0 H1. rewrite H0, H1 in Hstep.
    destruct Hstep as [->| ->]; [now left|].
    apply statusOf_In in H0 as (r & Hin & _ & <-).
    destruct (tab_status s Hinv r Hin) as [E|E]; rewrite E; [now right|now left].
  - intros st' H0 H1.
    destruct (sent_forever more s i Hinv (or_introl H0)) as [H|[H _]]; congruence.
  - intros v j ok Hin. exact (tab_log s Hinv _ _ Hin).
  - intros r ok Hin. exact (tab_log s Hinv _ _ Hin).
Qed.

Lemma C7_status_only_pending_to_sent_witness :
  statusOf 1 (table (run (batch 1 ++ launch 1 ++ replicate 3 (Work 0 (netAll true) true))
                         (init 0))) = Some "pending" /\
  statusOf 1 (table (run (batch 1 ++ launch 1 ++ replicate 4 (Work 0 (netAll true) true))
                         (init 0))) = Some "sent" /\
  ("sent" = "pending" \/ ("pending" = "pending" /\ "sent" = "sent")).
Proof.
  split; [vm_compute; reflexivity|]. split; [vm_compute; reflexivity|].
  apply (proj1 (proj2 (proj2
           (C7_status_only_pending_to_sent
              (batch 1 ++ launch 1 ++ replicate 3 (Work 0 (netAll true) true)) 0
              (Work 0 (netAll true) true) [] 1))));
    vm_compute; reflexivity.
Defined.

(** ** The worker and its [UPDATE] *)

Lemma queueLoop_log_mono (rs : list Recipient) (k : nat) (f : nat -> bool) (s : State)
    (e : Sql * bool) :
  In e (sqlLog s) -> In e (sqlLog (queueLoop rs k f s)).
Proof.
  revert k s. induction rs as [|rc rs IH]; intros k s H; [exact H|].
  cbn [queueLoop]. apply IH. unfold exec, logSql, setTable.
  destruct (f k); cbn [sqlLog]; now right.
Qed.

(** The log of statements only grows. *)
Lemma step_log_mono (a : Action) (s s' : State) (e : Sql * bool) :
  step a s = Some s' -> In e (sqlLog s) -> In e (sqlLog s').
Proof.
  intros Hstep He.
  destruct a as [op|ok|i net ok|i]; cbn [step] in Hstep.
  - unfold stepUser in Hstep.
    destruct (mainPc s); try discriminate Hstep. injection Hstep as <-.
    destruct op as [cfg|rs|subj bod|f|q c]; try exact He.
    + unfold queueEmails. cbn [show sqlLog]. now apply queueLoop_log_mono.
    + unfold sendEmailsStart.
      destruct q; cbn [negb]; [|cbn; now right].
      destruct c; cbn [negb]; [|cbn; now right; right].
      match goal with |- context [if ?b then _ else _] => destruct b end;
        cbn; now right; right.
  - unfold stepMain in Hstep.
    destruct (mainPc s) as [|cur|r cur|r cur| | |].
    + discriminate Hstep.
    + destruct cur as [|r cur]; [|destruct ok]; injection Hstep as <-; exact He.
    + destruct (sem s <? concurrency)%nat; [|discriminate Hstep].
      injection Hstep as <-. exact He.
    + injection Hstep as <-. exact He.
    + destruct (wg s =? 0)%nat; [|discriminate Hstep].
      injection Hstep as <-. exact He.
    + injection Hstep as <-. unfold exec, logSql, setTable.
      destruct ok; cbn; now right.
    + injection Hstep as <-. exact He.
  - unfold stepWorker in Hstep.
    destruct (workers s !! i) as [[r pc err]|]; [|discriminate Hstep].
    cbn [job wpc sendErr] in Hstep.
    destruct pc; try discriminate Hstep;
      try (injection Hstep as <-; exact He).
    + injection Hstep as <-. unfold exec, logSql, setTable.
      destruct ok; cbn; now right.
    + destruct (listeners s) as [|[| |] ls]; try discriminate Hstep.
      injection Hstep as <-. exact He.
  - unfold stepListener in Hstep.
    destruct (listeners s !! i) as [[| |num den]|]; try discriminate Hstep;
      injection Hstep as <-; exact He.
Qed.

Lemma update_init (seq0 : Z) : UpdateInv (init seq0).
Proof. intros i w H. discriminate H. Qed.

Lemma update_step (a : Action) (s s' : State) :
  UpdateInv s -> step a s = Some s' -> UpdateInv s'.
Proof.
  intros Hinv Hstep.
  assert (Keep : workers s' = workers s -> UpdateInv s').
  { intros E j w Hj Hp. rewrite E in Hj. destruct (Hinv j w Hj Hp) as [ok Hin].
    exists ok. exact (step_log_mono a s s' _ Hstep Hin). }
  destruct a as [op|ok|i net ok|i]; cbn [step] in Hstep.
  - apply Keep. unfold stepUser in Hstep.
    destruct (mainPc s); try discriminate Hstep. injection Hstep as <-.
    destruct op as [cfg|rs|subj bod|f|q c]; try reflexivity.
    + unfold queueEmails. cbn [show workers].
      exact (proj1 (proj2 (proj2 (proj2 (queueLoop_frame _ 0 f s))))).
    + unfold sendEmailsStart.
      destruct q; cbn [negb]; [|reflexivity].
      destruct c; cbn [negb]; [|reflexivity].
      match goal with |- context [if ?b then _ else _] => destruct b end; reflexivity.
  - pose proof Hstep as Hstep0. unfold stepMain in Hstep.
    destruct (mainPc s) as [|cur|r cur|r cur| | |].
    + discriminate Hstep.
    + apply Keep.
      destruct cur as [|r cur]; [|destruct ok]; injection Hstep as <-; reflexivity.
    + apply Keep. destruct (sem s <? concurrency)%nat; [|discriminate Hstep].
      injection Hstep as <-. reflexivity.
    + (* a worker is started, at WSend *)
      injection Hstep as <-. intros j w Hj Hp. cbn [setMain setWorkers workers sqlLog] in *.
      apply lookup_app_Some in Hj as [Hj|[_ Hj]].
      * exact (Hinv j w Hj Hp).
      * destruct (j - length (workers s))%nat; [|discriminate Hj].
        injection Hj as <-. discriminate Hp.
    + apply Keep. destruct (wg s =? 0)%nat; [|discriminate Hstep].
      injection Hstep as <-. reflexivity.
    + apply Keep. injection Hstep as <-. unfold exec, logSql, setTable.
      now destruct ok.
    + apply Keep. injection Hstep as <-. reflexivity.
  - pose proof Hstep as Hstep0. unfold stepWorker in Hstep.
    destruct (workers s !! i) as [[r pc err]|] eqn:Hi; [|discriminate Hstep].
    cbn [job wpc sendErr] in Hstep.
    assert (Hlen : (i < length (workers s))%nat) by (eapply lookup_lt_Some; exact Hi).
    assert (Other : forall w', workers s' = <[i := w']> (workers s) ->
              job w' = r ->
              (pastUpdate (wpc w') = true ->
               pastUpdate pc = true \/
               exists ok', In (SqlUpdateStatus "sent" (id r), ok') (sqlLog s')) ->
              UpdateInv s').
    { intros w' E Hjob Hnew j w Hj Hp. rewrite E in Hj.
      destruct (decide (i = j)) as [<-|Hne].
      - rewrite list_lookup_insert_eq in Hj by exact Hlen. injection Hj as <-.
        rewrite Hjob. destruct (Hnew Hp) as [Hold|Hlog]; [|exact Hlog].
        destruct (Hinv i _ Hi Hold) as [ok' Hin]. exists ok'.
        exact (step_log_mono (Work i net ok) s s' _ Hstep0 Hin).
      - rewrite list_lookup_insert_ne in Hj by exact Hne.
        destruct (Hinv j w Hj Hp) as [ok' Hin]. exists ok'.
        exact (step_log_mono (Work i net ok) s s' _ Hstep0 Hin). }
    destruct pc; try discriminate Hstep.
    + injection Hstep as <-. eapply Other; [reflexivity|reflexivity|discriminate].
    + injection Hstep as <-. eapply Other; [reflexivity|reflexivity|discriminate].
    + injection Hstep as <-. eapply Other; [reflexivity|reflexivity|discriminate].
    + unfold exec, logSql, setTable in Hstep.
      destruct ok; injection Hstep as <-;
        (eapply Other; [reflexivity|reflexivity|]);
        intros _; right; eexists; cbn; left; reflexivity.
    + destruct (listeners s) as [|[| |] ls]; try discriminate Hstep.
      injection Hstep as <-. eapply Other; [reflexivity|reflexivity|now left].
    + injection Hstep as <-. eapply Other; [reflexivity|reflexivity|now left].
    + injection Hstep as <-. eapply Other; [reflexivity|reflexivity|now left].
    + injection Hstep as <-. eapply Other; [reflexivity|reflexivity|now left].
  - apply Keep. unfold stepListener in Hstep.
    destruct (listeners s !! i) as [[| |num den]|]; try discriminate Hstep;
      injection Hstep as <-; reflexivity.
Qed.

Lemma update_run (sched : list Action) (seq0 : Z) : UpdateInv (run sched (init seq0)).
Proof.
  apply run_invariant; [|apply update_init].
  intros a s s'. apply update_step.
Qed.

(** The other goroutines leave a worker where it is. *)
Lemma step_notWorker (i : nat) (a : Action) (s s' : State) (w : Worker) :
  notWorker i a = true -> step a s = Some s' ->
  workers s !! i = Some w -> workers s' !! i = Some w.
Proof.
  intros Ha Hstep Hi.
  destruct a as [op|ok|j net ok|j]; cbn [step] in Hstep.
  - unfold stepUser in Hstep.
    destruct (mainPc s); try discriminate Hstep. injection Hstep as <-.
    destruct op as [cfg|rs|subj bod|f|q c]; try exact Hi.
    + unfold queueEmails. cbn [show workers].
      destruct (queueLoop_frame (recipients (globals s)) 0 f s) as (_ & _ & _ & W & _).
      now rewrite W.
    + unfold sendEmailsStart.
      destruct q; cbn [negb]; [|exact Hi].
      destruct c; cbn [negb]; [|exact Hi].
      match goal with |- context [if ?b then _ else _] => destruct b end; exact Hi.
  - unfold stepMain in Hstep.
    destruct (mainPc s) as [|cur|r cur|r cur| | |]; try discriminate Hstep.
    + destruct cur as [|r cur]; [|destruct ok]; injection Hstep as <-; exact Hi.
    + destruct (sem s <? concurrency)%nat; [|discriminate Hstep].
      injection Hstep as <-. exact Hi.
    + injection Hstep as <-. cbn [setMain setWorkers workers].
      now apply lookup_app_l_Some.
    + destruct (wg s =? 0)%nat; [|discriminate Hstep].
      injection Hstep as <-. exact Hi.
    + injection Hstep as <-. unfold exec, logSql, setTable. destruct ok; exact Hi.
    + injection Hstep as <-. exact Hi.
  - cbn [notWorker] in Ha. apply negb_true_iff, Nat.eqb_neq in Ha.
    unfold stepWorker in Hstep.
    destruct (workers s !! j) as [[r pc err]|] eqn:Hj; [|discriminate Hstep].
    cbn [job wpc sendErr] in Hstep.
    destruct pc; try discriminate Hstep.
    5: destruct (listeners s) as [|[| |] ls]; try discriminate Hstep.
    all: unfold exec, logSql, setTable in Hstep; try destruct ok; injection Hstep as <-;
      cbn [setWorkers setGlobals setListeners setSem setWg workers];
      rewrite list_lookup_insert_ne by exact Ha; exact Hi.
  - unfold stepListener in Hstep.
    destruct (listeners s !! j) as [[| |num den]|]; try discriminate Hstep;
      injection Hstep as <-; exact Hi.
Qed.

Lemma run_notWorker (i : nat) (others : list Action) (s : State) (w : Worker) :
  forallb (notWorker i) others = true ->
  workers s !! i = Some w -> workers (run others s) !! i = Some w.
Proof.
  revert s. induction others as [|a others IH]; intros s Ho Hi; [exact Hi|].
  cbn [forallb] in Ho. apply andb_prop in Ho as [Ha Ho].
  destruct (step a s) as [s'|] eqn:E.
  - rewrite (run_cons_Some _ _ _ _ E). apply IH; [exact Ho|].
    exact (step_notWorker i a s s' w Ha E Hi).
  - rewrite (run_cons_None _ _ _ E). now apply IH.
Qed.

Lemma run_one (a : Action) (s s' : State) : step a s = Some s' -> run [a] s = s'.
Proof. intros E. cbn [run]. now rewrite E. Qed.

(** The first four steps of a worker: [sendEmail], the read and the write
    of the increment, the [UPDATE]; the other goroutines run in between. *)
Lemma worker_body (s : State) (i : nat) (r : Row) (err0 : option string)
    (net : nat -> SmtpOp -> bool) (ok : bool) (o1 o2 o3 : list Action) :
  workers s !! i = Some (mkWorker r WSend err0) ->
  forallb (notWorker i) (o1 ++ o2 ++ o3) = true ->
  let err := fst (sendEmail (smtpConfig (globals s)) (recipient_email r)
                    (recipient_name r) (sender_name r) (subject r) (body r) net) in
  let atRead := run o1 (run [Work i net ok] s) in
  let atWrite := run o2 (run [Work i net ok] atRead) in
  let written := run [Work i net ok] atWrite in
  let atUpdate := run o3 written in
  let s' := run [Work i net ok] atUpdate in
  workers s' !! i = Some (mkWorker r WNotify err) /\
  sqlLog s' = (SqlUpdateStatus "sent" (id r), ok) :: sqlLog atUpdate /\
  table s' = (if ok then updateStatus "sent" (id r) (table atUpdate) else table atUpdate) /\
  counterOf err (globals written) = wrap (counterOf err (globals atRead) + 1) /\
  match err with
  | Some _ => successCount (globals written) = successCount (globals atWrite)
  | None => failureCount (globals written) = failureCount (globals atWrite)
  end.
Proof.
  intros Hi Ho err atRead atWrite written atUpdate s'.
  rewrite !forallb_app in Ho. apply andb_prop in Ho as [Ho1 Ho].
  apply andb_prop in Ho as [Ho2 Ho3].
  (* sendEmail returns *)
  assert (E1 : run [Work i net ok] s =
               setWorkers (<[i := mkWorker r WLoad err]> (workers s)) s).
  { apply run_one. cbn [step]. unfold stepWorker. rewrite Hi. reflexivity. }
  assert (W1 : workers atRead !! i = Some (mkWorker r WLoad err)).
  { apply run_notWorker; [exact Ho1|]. rewrite E1. cbn [setWorkers workers].
    apply list_lookup_insert_eq. eapply lookup_lt_Some. exact Hi. }
  (* the counter is read *)
  assert (E2 : run [Work i net ok] atRead =
               setWorkers (<[i := mkWorker r (WStore (counterOf err (globals atRead))) err]>
                             (workers atRead)) atRead).
  { apply run_one. cbn [step]. unfold stepWorker. rewrite W1. reflexivity. }
  assert (W2 : workers atWrite !! i =
               Some (mkWorker r (WStore (counterOf err (globals atRead))) err)).
  { apply run_notWorker; [exact Ho2|]. rewrite E2. cbn [setWorkers workers].
    apply list_lookup_insert_eq. eapply lookup_lt_Some. exact W1. }
  (* the counter is written *)
  assert (E3 : written =
               setWorkers (<[i := mkWorker r WUpdate err]> (workers atWrite))
                 (setGlobals (setCounterOf err (wrap (counterOf err (globals atRead) + 1))
                                (globals atWrite)) atWrite)).
  { apply run_one. cbn [step]. unfold stepWorker. rewrite W2. reflexivity. }
  assert (W3 : workers atUpdate !! i = Some (mkWorker r WUpdate err)).
  { apply run_notWorker; [exact Ho3|]. rewrite E3. cbn [setWorkers setGlobals workers].
    apply list_lookup_insert_eq. eapply lookup_lt_Some. exact W2. }
  (* the UPDATE *)
  assert (E4 : s' =
               setWorkers (<[i := mkWorker r WNotify err]> (workers atUpdate))
                 (exec (SqlUpdateStatus "sent" (id r)) ok
                    (updateStatus "sent" (id r) (table atUpdate)) atUpdate)).
  { apply run_one. cbn [step]. unfold stepWorker. rewrite W3. cbn [wpc job sendErr].
    unfold exec, logSql, setTable. destruct ok; reflexivity. }
  split; [|split; [|split; [|split]]].
  - rewrite E4. unfold exec, logSql, setTable. destruct ok; cbn [setWorkers workers];
      apply list_lookup_insert_eq; eapply lookup_lt_Some; exact W3.
  - rewrite E4. unfold exec, logSql, setTable. destruct ok; reflexivity.
  - rewrite E4. unfold exec, logSql, setTable. destruct ok; reflexivity.
  - rewrite E3. cbn [setWorkers setGlobals globals].
    destruct err, (globals atWrite); reflexivity.
  - rewrite E3. cbn [setWorkers setGlobals globals].
    destruct err, (globals atWrite); reflexivity.
Qed.

(** C4, as stated, fails: a job whose three attempts failed is counted as
    a failure, and the worker marks its row [sent] all the same. *)
Lemma C4_failed_job_is_marked_sent :
  let s := run (batch 1 ++ launch 1 ++ replicate 4 (Work 0 (netAll false) true)) (init 0) in
  sendErr <$> workers s !! 0%nat =
    Some (Some "failed to send email to bob@x.org after multiple attempts") /\
  failureCount (globals s) = 1 /\ successCount (globals s) = 0 /\
  statusOf 1 (table s) = Some "sent" /\
  sqlLog s = (SqlUpdateStatus "sent" 1, true) :: sqlLog (run (batch 1) (init 0)).
Proof. vm_compute. repeat split; reflexivity. Qed.

(** C4 (amended): a worker issues the [UPDATE] that sets the status of its
    row to [sent] once [sendEmail] has returned, whether it returned an
    error or not, and whatever the other goroutines do in between; the row
    is then [sent] when the [UPDATE] succeeds, and keeps its status when it
    fails. Before that, the worker stores the value it read plus one into
    [failureCount] when [sendEmail] returned an error and into
    [successCount] otherwise, and leaves the other counter alone; the
    counter has grown by one when no other goroutine has run between the
    read and the write. Along every execution, every worker past that
    point has issued the [UPDATE] for its row with the value [sent]. *)
Theorem C4_update_whatever_the_outcome (s : State) (i : nat) (r : Row)
    (err0 : option string) (net : nat -> SmtpOp -> bool) (ok : bool)
    (o1 o2 o3 : list Action)
    (sched : list Action) (seq0 : Z) (j : nat) (w : Worker) :
  (workers s !! i = Some (mkWorker r WSend err0) ->
   forallb (notWorker i) (o1 ++ o2 ++ o3) = true ->
   let err := fst (sendEmail (smtpConfig (globals s)) (recipient_email r)
                     (recipient_name r) (sender_name r) (subject r) (body r) net) in
   let atRead := run o1 (run [Work i net ok] s) in
   let atWrite := run o2 (run [Work i net ok] atRead) in
   let written := run [Work i net ok] atWrite in
   let atUpdate := run o3 written in
   let s' := run [Work i net ok] atUpdate in
   workers s' !! i = Some (mkWorker r WNotify err) /\
   sqlLog s' = (SqlUpdateStatus "sent" (id r), ok) :: sqlLog atUpdate /\
   table s' = (if ok then updateStatus "sent" (id r) (table atUpdate) else table atUpdate) /\
   (forall st, statusOf (id r) (table atUpdate) = Some st ->
      statusOf (id r) (table s') = Some (if ok then "sent" else st)) /\
   match err with
   | Some _ => failureCount (globals written) = wrap (failureCount (globals atRead) + 1) /\
               successCount (globals written) = successCount (globals atWrite) /\
               (o2 = [] ->
                failureCount (globals written) = wrap (failureCount (globals atWrite) + 1))
   | None => successCount (globals written) = wrap (successCount (globals atRead) + 1) /\
             failureCount (globals written) = failureCount (globals atWrite) /\
             (o2 = [] ->
              successCount (globals written) = wrap (successCount (globals atWrite) + 1))
   end) /\
  (workers (run sched (init seq0)) !! j = Some w -> pastUpdate (wpc w) = true ->
   exists ok', In (SqlUpdateStatus "sent" (id (job w)), ok') (sqlLog (run sched (init seq0)))).
Proof.
  split.
  - intros Hi Ho err atRead atWrite written atUpdate s'.
    destruct (worker_body s i r err0 net ok o1 o2 o3 Hi Ho) as (W & L & T & C & O).
    fold err in W, C, O. fold atRead in W, L, T, C, O. fold atWrite in W, L, T, C, O.
    fold written in W, L, T, C, O. fold atUpdate in W, L, T. fold s' in W, L, T.
    assert (G : o2 = [] -> globals atWrite = globals atRead).
    { intros ->. subst atWrite. cbn [run].
      assert (Hr : workers atRead !! i = Some (mkWorker r WLoad err)).
      { rewrite !forallb_app in Ho. apply andb_prop in Ho as [Ho1 _].
        apply run_notWorker; [exact Ho1|].
        rewrite (run_one (Work i net ok) s
                   (setWorkers (<[i := mkWorker r WLoad err]> (workers s)) s))
          by (cbn [step]; unfold stepWorker; rewrite Hi; reflexivity).
        cbn [setWorkers workers].
        apply list_lookup_insert_eq. eapply lookup_lt_Some. exact Hi. }
      cbn [step]. unfold stepWorker. rewrite Hr. reflexivity. }
    split; [exact W|]. split; [exact L|]. split; [exact T|]. split.
    + intros st Hst. rewrite T. destruct ok; [|exact Hst].
      rewrite statusOf_update, Hst, Z.eqb_refl. reflexivity.
    + destruct err; cbn [counterOf] in C; (split; [exact C|]); (split; [exact O|]);
        intros E; rewrite (G E); exact C.
  - apply update_run.
Qed.

Lemma C4_update_whatever_the_outcome_witness :
  let s := run (batch 2 ++ launch 2) (init 0) in
  let other := Work 1 (netAll false) true in
  let me := Work 0 (netAll false) true in
  let atRead := run [other; other] (run [me] s) in
  let written := run [me] (run [] (run [me] atRead)) in
  let atUpdate := run [other] written in
  let s' := run [me] atUpdate in
  sqlLog s' = (SqlUpdateStatus "sent" 1, true) :: sqlLog atUpdate /\
  statusOf 1 (table s') = Some "sent" /\
  failureCount (globals written) = wrap (failureCount (globals atRead) + 1) /\
  failureCount (globals atUpdate) = 1.
Proof.
  intros s other me atRead written atUpdate s'.
  assert (Hi : workers s !! 0%nat =
               Some (mkWorker (mkRow 1 "Alice" "Bob" "bob@x.org" "" "" "pending") WSend None))
    by (vm_compute; reflexivity).
  assert (Hst : statusOf 1 (table atUpdate) = Some "pending") by (vm_compute; reflexivity).
  pose proof (C4_update_whatever_the_outcome s 0
                (mkRow 1 "Alice" "Bob" "bob@x.org" "" "" "pending") None
                (netAll false) true [other; other] [] [other]
                [] 0 0 (mkWorker (mkRow 0 "" "" "" "" "" "") WSend None))
    as [H _].
  specialize (H Hi eq_refl). cbv zeta in H.
  destruct H as (_ & L & _ & S & C).
  split; [exact L|]. split; [exact (S "pending" Hst)|].
  split; [|vm_compute; reflexivity].
  assert (E : fst (sendEmail (smtpConfig (globals s)) "bob@x.org" "Bob" "Alice" "" ""
                     (netAll false)) =
              Some "failed to send email to bob@x.org after multiple attempts")
    by (vm_compute; reflexivity).
  cbn [recipient_email recipient_name sender_name subject body] in C.
  rewrite E in C. exact (proj1 C).
Defined.

(** ** The rate constants *)

(** C6, as stated, fails: 10 workers that each pause 2 seconds can make
    18000 deliveries an hour, and [emailsPerHour] is 180. *)
Lemma C6_contract_violated :
  ~ (Z.of_nat concurrency * 1800 <= emailsPerHour).
Proof. unfold concurrency, emailsPerHour. cbn. lia. Qed.

(** C6 (amended): an hour holds 1800 pauses of [emailDelay]; with the
    concurrency of 10 the product [concurrency * 1800] is 18000, one
    hundred times [emailsPerHour], and a single worker already exceeds it:
    the constants do not satisfy [concurrency * 1800 <= emailsPerHour]. *)
Theorem C6_rate_constants :
  emailDelay = 2 * Second /\
  hourDuration / emailDelay = 1800 /\
  Z.of_nat concurrency * (hourDuration / emailDelay) = 18000 /\
  Z.of_nat concurrency * 1800 = 100 * emailsPerHour /\
  emailsPerHour < 1 * 1800 /\
  emailsPerHour < Z.of_nat concurrency * 1800.
Proof. vm_compute. repeat split; reflexivity. Qed.

(** ** Runs that find nothing to send *)

(** Between two runs, and from the return of [wg.Wait()] on, no worker
    goroutine is left. *)
Lemma quiescent_no_worker (s : State) (i : nat) (net : nat -> SmtpOp -> bool) (ok : bool) :
  PoolInv s -> quiescent (mainPc s) = true -> stepWorker i net ok s = None.
Proof.
  intros [_ _ Hwg Hq] Q. specialize (Hq Q). unfold stepWorker.
  destruct (workers s !! i) as [[r pc err]|] eqn:Hi; [|reflexivity].
  cbn [wpc]. destruct pc; try reflexivity;
    (assert (1 <= count live (workers s))%nat
       by (apply (count_lookup live _ i _ Hi); reflexivity); lia).
Qed.

Lemma purge_init (seq0 : Z) : PurgeInv (init seq0).
Proof. intros _ r []. Qed.

Lemma purge_step (a : Action) (s s' : State) :
  PoolInv s -> PurgeInv s -> step a s = Some s' -> PurgeInv s'.
Proof.
  intros Hpool Hinv Hstep Hlog'.
  assert (Hlog : ~ In (SqlDeleteAll, false) (sqlLog s))
    by (intros H; exact (Hlog' (step_log_mono a s s' _ Hstep H))).
  specialize (Hinv Hlog).
  destruct a as [op|ok|i net ok|i]; cbn [step] in Hstep.
  - unfold stepUser in Hstep.
    destruct (mainPc s) eqn:Hpc; try discriminate Hstep. injection Hstep as <-.
    destruct op as [cfg|rs|subj bod|f|q c]; cbn; rewrite ?Hpc; try exact Hinv.
    + unfold queueEmails. cbn [show mainPc table].
      destruct (queueLoop_frame (recipients (globals s)) 0 f s) as (_ & _ & M & _).
      rewrite M, Hpc.
      destruct (queueLoop_table (recipients (globals s)) 0 f s)
        as (news & sq & E & Hn & _). rewrite E. cbn [rows].
      intros r [Hin|Hin]%in_app_or; [exact (Hinv r Hin)|exact (proj1 (Hn r Hin))].
    + unfold sendEmailsStart.
      destruct q; cbn [negb]; [|cbn; rewrite Hpc; exact Hinv].
      destruct c; cbn [negb]; [|cbn; rewrite Hpc; exact Hinv].
      match goal with |- context [if ?b then _ else _] => destruct b end;
        cbn; rewrite ?Hpc; [exact Hinv|exact I].
  - unfold stepMain in Hstep.
    destruct (mainPc s) as [|cur|r cur|r cur| | |] eqn:Hpc.
    + discriminate Hstep.
    + destruct cur as [|r cur]; [|destruct ok]; injection Hstep as <-; exact I.
    + destruct (sem s <? concurrency)%nat; [|discriminate Hstep].
      injection Hstep as <-. exact I.
    + injection Hstep as <-. exact I.
    + destruct (wg s =? 0)%nat; [|discriminate Hstep].
      injection Hstep as <-. exact I.
    + injection Hstep as <-. unfold exec, logSql, setTable in *.
      destruct ok; cbn in *; [reflexivity|].
      destruct Hlog'. now left.
    + injection Hstep as <-. cbn. rewrite Hinv. intros r [].
  - destruct (quiescent (mainPc s)) eqn:Q.
    + rewrite (quiescent_no_worker s i net ok Hpool Q) in Hstep. discriminate Hstep.
    + unfold stepWorker in Hstep.
      destruct (workers s !! i) as [[r pc err]|]; [|discriminate Hstep].
      cbn [job wpc sendErr] in Hstep.
      assert (M : mainPc s' = mainPc s).
      { destruct pc; try discriminate Hstep; try (injection Hstep as <-; reflexivity).
        - injection Hstep as <-. unfold exec, logSql, setTable. now destruct ok.
        - destruct (listeners s) as [|[| |] ls]; try discriminate Hstep.
          injection Hstep as <-. reflexivity. }
      rewrite M. now destruct (mainPc s).
  - unfold stepListener in Hstep.
    destruct (listeners s !! i) as [[| |num den]|]; try discriminate Hstep;
      injection Hstep as <-; exact Hinv.
Qed.

Lemma purge_run (sched : list Action) (seq0 : Z) : PurgeInv (run sched (init seq0)).
Proof.
  enough (PoolInv (run sched (init seq0)) /\ PurgeInv (run sched (init seq0))) by tauto.
  apply (run_invariant (fun s => PoolInv s /\ PurgeInv s)).
  - intros a s s' [Hp Hq] Hstep. split; [exact (pool_step a s s' Hp Hstep)|].
    exact (purge_step a s s' Hp Hq Hstep).
  - split; [apply pool_init|apply purge_init].
Qed.

Lemma no_pending_all_pending (rs : list Row) :
  (forall r, In r rs -> status r = "pending") ->
  length (filter (fun r => pending r = true) rs) = 0%nat -> rs = [].
Proof.
  destruct rs as [|r rs]; [reflexivity|]. intros H.
  rewrite filter_cons.
  destruct (decide (pending r = true)) as [_|Hn]; [discriminate|].
  destruct Hn. unfold pending. now rewrite (H r) by now left.
Qed.

(** C8, as stated, fails: after a run that sent one mail, a run that finds
    nothing pending shows "No pending emails to send." and no summary, and
    leaves the counters at 1 and 0; and when the purge of the earlier run
    failed, it leaves the table with the row of that run. *)
Lemma C8_no_summary_and_no_purge :
  let s1 := run firstRun (init 0) in
  let s2 := run [Click (SendEmails true true)] s1 in
  let t1 := run firstRunPurgeFailed (init 0) in
  let t2 := run [Click (SendEmails true true)] t1 in
  (mainPc s1 = MIdle /\ countPending (table s1) = 0 /\
   ui s2 = ResultNoPending :: ui s1 /\
   ~ In (ResultCompleted 0 0) (ui s2) /\
   successCount (globals s2) = 1) /\
  (mainPc t1 = MIdle /\ countPending (table t1) = 0 /\
   rows (table t2) = [mkRow 1 "Alice" "Bob" "bob@x.org" "" "" "sent"]).
Proof.
  vm_compute. repeat split; try reflexivity.
  intros H. repeat (destruct H as [H|H]; [discriminate H|]). exact H.
Qed.

(** C8 (amended): a run that starts with no pending row returns at once
    with the result "No pending emails to send."; it starts no goroutine
    (the pool is as it was, and no worker can take a step), shows no
    summary, leaves the two counters as they were, and runs no purge: the
    table is as it was, with no pending row, and it is empty when no
    earlier purge has failed. *)
Theorem C8_nothing_to_send (sched : list Action) (seq0 : Z) :
  let s := run sched (init seq0) in
  let s' := run [Click (SendEmails true true)] s in
  mainPc s = MIdle -> countPending (table s) = 0 ->
  mainPc s' = MIdle /\
  ui s' = ResultNoPending :: ui s /\
  (workers s' = workers s /\ listeners s' = listeners s /\
   forall i net ok, step (Work i net ok) s' = None) /\
  (successCount (globals s') = successCount (globals s) /\
   failureCount (globals s') = failureCount (globals s) /\
   totalEmails (globals s') = 0) /\
  (table s' = table s /\
   sqlLog s' = (SqlCountPending, true) :: (SqlSelectPending, true) :: sqlLog s) /\
  (forall r, In r (rows (table s')) -> status r <> "pending") /\
  (~ In (SqlDeleteAll, false) (sqlLog s) -> rows (table s') = []).
Proof.
  intros s s' Hpc Hzero.
  assert (Hstep : step (Click (SendEmails true true)) s =
            Some (show ResultNoPending
                    (setGlobals (setTotalEmails 0 (globals s))
                       (logSql SqlCountPending true (logSql SqlSelectPending true s))))).
  { cbn [step]. unfold stepUser. rewrite Hpc.
    unfold sendEmailsStart. cbn. rewrite Hzero. reflexivity. }
  assert (E : s' = show ResultNoPending
                (setGlobals (setTotalEmails 0 (globals s))
                   (logSql SqlCountPending true (logSql SqlSelectPending true s)))).
  { subst s'. now rewrite (run_cons_Some _ _ _ _ Hstep). }
  assert (Hpool : PoolInv s').
  { rewrite E. exact (pool_step _ s _ (pool_run sched seq0) Hstep). }
  clearbody s'. subst s'. cbn.
  repeat split; try assumption.
  - intros i net ok. apply quiescent_no_worker; [exact Hpool|]. cbn. now rewrite Hpc.
  - intros r Hin Hst. unfold countPending, selectPending in Hzero.
    assert (Hp : r ∈ filter (fun r => pending r = true) (rows (table s))).
    { apply list_elem_of_filter. split; [unfold pending; now rewrite Hst|].
      now apply list_elem_of_In. }
    destruct (filter _ (rows (table s))); [inversion Hp|discriminate Hzero].
  - intros Hlog. pose proof (purge_run sched seq0 Hlog) as Hall. fold s in Hall.
    rewrite Hpc in Hall. apply no_pending_all_pending; [exact Hall|].
    unfold countPending, selectPending in Hzero. lia.
Qed.

Lemma C8_nothing_to_send_witness :
  ui (run [Click (SendEmails true true)] (run firstRun (init 0))) =
    ResultNoPending :: ui (run firstRun (init 0)) /\
  rows (table (run [Click (SendEmails true true)] (run firstRun (init 0)))) = [].
Proof.
  pose proof (C8_nothing_to_send firstRun 0) as H. cbv zeta in H.
  destruct H as (_ & U & _ & _ & _ & _ & R); [reflexivity|reflexivity|].
  split; [exact U|]. apply R. vm_compute.
  intros H. repeat (destruct H as [H|H]; [discriminate H|]). exact H.
Defined.

(** ** The counters across runs *)

Lemma wrap_add_l (a b : Z) : wrap (wrap a + b) = wrap (a + b).
Proof.
  unfold wrap. f_equal.
  replace ((a + 2 ^ 63) mod 2 ^ 64 - 2 ^ 63 + b + 2 ^ 63)
    with ((a + 2 ^ 63) mod 2 ^ 64 + b) by ring.
  rewrite Z.add_mod_idemp_l by lia. f_equal. ring.
Qed.

Lemma wrap_add_r (a b : Z) : wrap (a + wrap b) = wrap (a + b).
Proof. rewrite (Z.add_comm a (wrap b)), wrap_add_l. f_equal. ring. Qed.

Lemma wrap_inRange (z : Z) : inRange (wrap z).
Proof.
  unfold inRange, wrap.
  pose proof (Z.mod_pos_bound (z + 2 ^ 63) (2 ^ 64) ltac:(lia)). lia.
Qed.

Lemma wrap_small (z : Z) : inRange z -> wrap z = z.
Proof. unfold inRange, wrap. intros H. rewrite Z.mod_small by lia. ring. Qed.

Lemma wrap_incr_shift (v d : Z) : wrap (wrap (v + d) + 1) = wrap (wrap (v + 1) + d).
Proof. rewrite !wrap_add_l. f_equal. ring. Qed.

Lemma wrap_sum_shift (s f ds df : Z) :
  wrap (wrap (s + ds) + wrap (f + df)) = wrap (wrap (s + f) + (ds + df)).
Proof. rewrite !wrap_add_l, wrap_add_r. f_equal. ring. Qed.

Section Shift.

Variables (ds df : Z) (past : list Ui).

Lemma queueLoop_shift (rs : list Recipient) (k : nat) (f : nat -> bool) (s : State) :
  queueLoop rs k f (shift ds df past s) = shift ds df past (queueLoop rs k f s).
Proof.
  revert k s. induction rs as [|rc rs IH]; intros k s; [reflexivity|].
  cbn [queueLoop]. rewrite <- IH. f_equal.
  unfold exec. now destruct (f k).
Qed.

Ltac fields :=
  unfold shift, exec, logSql, show, setTable, setWorkers, setListeners, setGlobals,
         setSem, setWg, setMain;
  cbn [globals table sqlLog ui mainPc workers sem wg listeners
       fmap option_fmap option_map].

(** The program never looks at its counters except to add one to them and
    to show them: started with higher counters, it does the same thing and
    shows counts that are higher by as much. *)
Lemma step_shift (a : Action) (s : State) :
  step a (shift ds df past s) = shift ds df past <$> step a s.
Proof.
  destruct a as [op|ok|i net ok|i]; cbn [step].
  - unfold stepUser. cbn [shift mainPc].
    destruct (mainPc s) eqn:Hpc; try reflexivity. cbn [fmap option_fmap option_map]. f_equal.
    destruct op as [cfg|rs|subj bod|f|q c]; try reflexivity.
    + unfold queueEmails. cbn [shift globals shiftGlobals recipients].
      now rewrite (queueLoop_shift (recipients (globals s)) 0 f s).
    + unfold sendEmailsStart.
      destruct q; cbn [negb]; [|reflexivity].
      destruct c; cbn [negb]; [|reflexivity].
      cbn. now destruct (countPending (table s) =? 0).
  - unfold stepMain. cbn [shift mainPc sem wg].
    destruct (mainPc s) as [|cur|r cur|r cur| | |] eqn:Hpc; try reflexivity.
    + destruct cur as [|r cur]; [|destruct ok]; reflexivity.
    + now destruct (sem s <? concurrency)%nat.
    + fields. now rewrite fmap_app.
    + now destruct (wg s =? 0)%nat.
    + unfold exec. now destruct ok.
  - unfold stepWorker. cbn [shift workers]. rewrite list_lookup_fmap.
    destruct (workers s !! i) as [[r pc err]|] eqn:Hi; [|reflexivity].
    cbn [fmap option_fmap option_map].
    destruct pc; cbn [shiftWorker wpc job sendErr]; try reflexivity.
    + fields. now rewrite list_fmap_insert.
    + fields. rewrite list_fmap_insert.
      destruct (globals s), err; reflexivity.
    + fields. rewrite list_fmap_insert.
      destruct (globals s), err; cbn; now rewrite wrap_incr_shift.
    + destruct ok; fields; now rewrite list_fmap_insert.
    + destruct (listeners s) as [|[| |] ls] eqn:Hl; fields; rewrite ?Hl;
        cbn [fmap list_fmap shiftListener]; try reflexivity.
      now rewrite list_fmap_insert.
    + fields. now rewrite list_fmap_insert.
    + fields. now rewrite list_fmap_insert.
    + fields. now rewrite list_fmap_insert.
  - unfold stepListener. cbn [shift listeners]. rewrite list_lookup_fmap.
    destruct (listeners s !! i) as [[| |num den]|] eqn:Hi; try reflexivity;
      cbn [fmap option_fmap option_map shiftListener]; fields;
      rewrite list_fmap_insert.
    + destruct (globals s); cbn. now rewrite wrap_sum_shift.
    + reflexivity.
Qed.

Lemma run_shift (sched : list Action) (s : State) :
  run sched (shift ds df past s) = shift ds df past (run sched s).
Proof.
  revert s. induction sched as [|a sched IH]; intros s; [reflexivity|].
  cbn [run]. rewrite step_shift.
  destruct (step a s) as [s'|]; cbn; apply IH.
Qed.

End Shift.

(** The two counters are written by no statement but the second half of
    the increment of a worker, which writes one of them. *)
Lemma step_counters (a : Action) (s s' : State) :
  step a s = Some s' ->
  (successCount (globals s') = successCount (globals s) /\
   failureCount (globals s') = failureCount (globals s)) \/
  (exists i net ok r v err,
     a = Work i net ok /\
     workers s !! i = Some (mkWorker r (WStore v) err) /\
     counterOf err (globals s') = wrap (v + 1) /\
     match err with
     | Some _ => successCount (globals s') = successCount (globals s)
     | None => failureCount (globals s') = failureCount (globals s)
     end).
Proof.
  intros Hstep.
  assert (Same : globals s' = globals s ->
            (successCount (globals s') = successCount (globals s) /\
             failureCount (globals s') = failureCount (globals s)) \/
            (exists i net ok r v err,
               a = Work i net ok /\
               workers s !! i = Some (mkWorker r (WStore v) err) /\
               counterOf err (globals s') = wrap (v + 1) /\
               match err with
               | Some _ => successCount (globals s') = successCount (globals s)
               | None => failureCount (globals s') = failureCount (globals s)
               end))
    by (intros ->; left; split; reflexivity).
  destruct a as [op|ok|i net ok|i]; cbn [step] in Hstep.
  - unfold stepUser in Hstep.
    destruct (mainPc s); try discriminate Hstep. injection Hstep as <-.
    destruct op as [cfg|rs|subj bod|f|q c]; try (left; split; reflexivity).
    + apply Same. unfold queueEmails. cbn [show globals].
      exact (proj1 (queueLoop_frame _ 0 f s)).
    + unfold sendEmailsStart.
      destruct q; cbn [negb]; [|left; split; reflexivity].
      destruct c; cbn [negb]; [|left; split; reflexivity].
      match goal with |- context [if ?b then _ else _] => destruct b end;
        left; split; reflexivity.
  - apply Same. unfold stepMain in Hstep.
    destruct (mainPc s) as [|cur|r cur|r cur| | |]; try discriminate Hstep.
    + destruct cur as [|r cur]; [|destruct ok]; injection Hstep as <-; reflexivity.
    + destruct (sem s <? concurrency)%nat; [|discriminate Hstep].
      injection Hstep as <-. reflexivity.
    + injection Hstep as <-. reflexivity.
    + destruct (wg s =? 0)%nat; [|discriminate Hstep].
      injection Hstep as <-. reflexivity.
    + injection Hstep as <-. unfold exec, logSql, setTable. now destruct ok.
    + injection Hstep as <-. reflexivity.
  - unfold stepWorker in Hstep.
    destruct (workers s !! i) as [[r pc err]|] eqn:Hi; [|discriminate Hstep].
    cbn [job wpc sendErr] in Hstep.
    destruct pc; try discriminate Hstep;
      try (apply Same; injection Hstep as <-; reflexivity).
    + injection Hstep as <-. right. exists i, net, ok, r, v, err.
      split; [reflexivity|]. split; [exact Hi|].
      cbn [setWorkers setGlobals globals]. destruct (globals s), err; cbn; split; reflexivity.
    + apply Same. injection Hstep as <-. unfold exec, logSql, setTable. now destruct ok.
    + apply Same. destruct (listeners s) as [|[| |] ls]; try discriminate Hstep.
      injection Hstep as <-. reflexivity.
  - apply Same. unfold stepListener in Hstep.
    destruct (listeners s !! i) as [[| |num den]|]; try discriminate Hstep;
      injection Hstep as <-; reflexivity.
Qed.

Lemma range_run (sched : list Action) (seq0 : Z) : RangeInv (run sched (init seq0)).
Proof.
  apply run_invariant.
  - intros a s s' [Hs Hf] Hstep. unfold RangeInv.
    destruct (step_counters a s s' Hstep)
      as [[E1 E2]|(i & net & ok & r & v & err & _ & _ & E1 & E2)].
    + now rewrite E1, E2.
    + destruct err; cbn [counterOf] in E1; rewrite E1, E2;
        split; try assumption; apply wrap_inRange.
  - split; cbn; unfold inRange; lia.
Qed.

Lemma shiftWorker_settled (ds df : Z) (ws : list Worker) :
  forallb (fun w => match wpc w with WStore _ => false | _ => true end) ws = true ->
  shiftWorker ds df <$> ws = ws.
Proof.
  induction ws as [|[r pc err] ws IH]; [reflexivity|].
  cbn [forallb wpc]. intros [Hw Hws]%andb_prop. cbn [fmap list_fmap].
  change (list_fmap _ _ (shiftWorker ds df) ws) with (shiftWorker ds df <$> ws).
  rewrite (IH Hws). f_equal. now destruct pc.
Qed.

Lemma shiftListener_settled (ds df : Z) (ls : list ListenerPc) :
  forallb (fun l => match l with LPublish _ _ => false | _ => true end) ls = true ->
  shiftListener ds df <$> ls = ls.
Proof.
  induction ls as [|l ls IH]; [reflexivity|].
  cbn [forallb]. intros [Hl Hls]%andb_prop. cbn [fmap list_fmap].
  change (list_fmap _ _ (shiftListener ds df) ls) with (shiftListener ds df <$> ls).
  rewrite (IH Hls). f_equal. now destruct l.
Qed.

(** C10, as stated, fails for the total: [totalEmails] is written by every
    run that counts its pending rows. After a first run of one job, a
    second batch of two sets it to 2; and the progress fraction of a second
    run of one job is 2 over 1, the count of both runs over the total of
    the second alone. *)
Lemma C10_total_is_set_by_each_run :
  let s1 := run firstRun (init 0) in
  let s2 := run [Click (LoadRecipients (replicate 2 bob));
                 Click (QueueEmails (fun _ => true));
                 Click (SendEmails true true)] s1 in
  totalEmails (globals s1) = 1 /\ totalEmails (globals s2) = 2 /\
  In (BarSetValue 2 1) (ui (run secondRun s1)).
Proof. vm_compute. repeat split; try reflexivity. do 3 right. now left. Qed.

(** The counters and the shown output of later runs, after earlier runs
    that left [sent1] and [failed1] in the counters. *)
Lemma counters_shift (sched1 : list Action) (seq0 : Z) (sched2 : list Action) :
  let s1 := run sched1 (init seq0) in
  let sent1 := successCount (globals s1) in
  let failed1 := failureCount (globals s1) in
  settled s1 = true ->
  (forall a s', step a s1 = Some s' -> (forall i net ok, a <> Work i net ok) ->
     successCount (globals s') = sent1 /\ failureCount (globals s') = failed1) /\
  (forall s', step (Click (SendEmails true true)) s1 = Some s' ->
     totalEmails (globals s') = countPending (table s1)) /\
  (forall s ds df past, run sched2 (shift ds df past s) = shift ds df past (run sched2 s)) /\
  run sched2 s1 = shift sent1 failed1 (ui s1) (run sched2 (withCountersReset s1)) /\
  ui (run sched2 s1) =
    (shiftUi sent1 failed1 <$> ui (run sched2 (withCountersReset s1))) ++ ui s1 /\
  successCount (globals (run sched2 s1)) =
    wrap (successCount (globals (run sched2 (withCountersReset s1))) + sent1) /\
  failureCount (globals (run sched2 s1)) =
    wrap (failureCount (globals (run sched2 (withCountersReset s1))) + failed1).
Proof.
  intros s1 sent1 failed1 Hset.
  apply andb_prop in Hset as [Hw Hl].
  destruct (range_run sched1 seq0) as [Rs Rf]. fold s1 in Rs, Rf.
  assert (E : s1 = shift sent1 failed1 (ui s1) (withCountersReset s1)).
  { subst sent1 failed1. unfold shift, withCountersReset.
    cbn [globals table sqlLog ui mainPc workers sem wg listeners fmap list_fmap app].
    rewrite (shiftWorker_settled _ _ _ Hw), (shiftListener_settled _ _ _ Hl).
    unfold shiftGlobals, setSuccessCount, setFailureCount.
    cbn [smtpConfig recipients emailSubject emailBody successCount failureCount totalEmails].
    rewrite !Z.add_0_l, (wrap_small _ Rs), (wrap_small _ Rf).
    clearbody s1. destruct s1 as [[] ? ? ? ? ? ? ? ?]. reflexivity. }
  assert (R : run sched2 s1 =
              shift sent1 failed1 (ui s1) (run sched2 (withCountersReset s1))).
  { rewrite E at 1. apply run_shift. }
  split; [|split; [|split; [|split; [exact R|]]]].
  - intros a s' Hstep Ha.
    destruct (step_counters a s1 s' Hstep)
      as [H|(i & net & ok & _ & _ & _ & Ea & _)]; [exact H|].
    destruct (Ha i net ok Ea).
  - intros s' Hstep. cbn [step] in Hstep. unfold stepUser in Hstep.
    destruct (mainPc s1); try discriminate Hstep. injection Hstep as <-.
    unfold sendEmailsStart. cbn [negb].
    match goal with |- context [if ?b then _ else _] => destruct b end; reflexivity.
  - intros s ds df past. apply run_shift.
  - rewrite R. cbn [shift ui globals shiftGlobals successCount failureCount].
    repeat split; reflexivity.
Qed.


(** Only the start of a run writes [totalEmails]. *)
Lemma step_total (a : Action) (s s' : State) :
  noClick a = true -> step a s = Some s' ->
  totalEmails (globals s') = totalEmails (globals s).
Proof.
  intros Ha Hstep.
  destruct a as [op|ok|i net ok|i]; [discriminate Ha| | |]; cbn [step] in Hstep.
  - unfold stepMain in Hstep.
    destruct (mainPc s) as [|cur|r cur|r cur| | |]; try discriminate Hstep.
    + destruct cur as [|r cur]; [|destruct ok]; injection Hstep as <-; reflexivity.
    + destruct (sem s <? concurrency)%nat; [|discriminate Hstep].
      injection Hstep as <-. reflexivity.
    + injection Hstep as <-. reflexivity.
    + destruct (wg s =? 0)%nat; [|discriminate Hstep].
      injection Hstep as <-. reflexivity.
    + injection Hstep as <-. unfold exec, logSql, setTable. destruct ok; reflexivity.
    + injection Hstep as <-. reflexivity.
  - unfold stepWorker in Hstep.
    destruct (workers s !! i) as [[r pc err]|] eqn:Hi; [|discriminate Hstep].
    cbn [job wpc sendErr] in Hstep.
    destruct pc; try discriminate Hstep.
    5: destruct (listeners s) as [|[| |] ls] eqn:Hl; try discriminate Hstep.
    all: unfold exec, logSql, setTable in Hstep; try destruct ok; injection Hstep as <-;
      try reflexivity.
    all: cbn [setWorkers setGlobals globals]; destruct err; reflexivity.
  - unfold stepListener in Hstep.
    destruct (listeners s !! i) as [[| |num den]|]; try discriminate Hstep;
      injection Hstep as <-; reflexivity.
Qed.

Lemma run_total (sched : list Action) (s : State) :
  forallb noClick sched = true ->
  totalEmails (globals (run sched s)) = totalEmails (globals s).
Proof.
  revert s. induction sched as [|a sched IH]; intros s H; [reflexivity|].
  cbn [forallb] in H. apply andb_prop in H as [Ha H].
  destruct (step a s) as [s'|] eqn:E.
  - rewrite (run_cons_Some _ _ _ _ E), (IH s' H). exact (step_total a s s' Ha E).
  - rewrite (run_cons_None _ _ _ E). exact (IH s H).
Qed.

(** C10 (amended): [successCount] and [failureCount] are process-wide and
    neither starting a run nor any statement other than the increment of a
    worker writes them, whereas [totalEmails] is set by each run to its own
    number of pending rows, and keeps that value for as long as no other
    run is started. The program behaves alike from higher counters
    and shows counts higher by as much. After any earlier runs
    that left [sent1] and [failed1] in the counters (and whose listeners
    have shown their last update), whatever the next runs do, every
    progress fraction, progress text and summary they show, and the
    counters they leave, are those the same runs would give from counters
    put back to zero, with [sent1] and [failed1] added to the counts (in
    the arithmetic of Go's [int]) and the totals unchanged: the counts of
    the earlier runs and of the new one together. What is shown is read
    from these variables: a progress fraction is the sum of the two
    counters over [totalEmails] as they are when the listener computes
    it, the progress text gives that fraction and the two counters as they
    are when it is set, and the summary gives the two counters. *)
Theorem C10_counters_accumulate (sched1 : list Action) (seq0 : Z) (sched2 : list Action) :
  let s1 := run sched1 (init seq0) in
  let sent1 := successCount (globals s1) in
  let failed1 := failureCount (globals s1) in
  settled s1 = true ->
  (forall a s', step a s1 = Some s' -> (forall i net ok, a <> Work i net ok) ->
     successCount (globals s') = sent1 /\ failureCount (globals s') = failed1) /\
  (forall s', step (Click (SendEmails true true)) s1 = Some s' ->
     totalEmails (globals s') = countPending (table s1)) /\
  (forall s ds df past, run sched2 (shift ds df past s) = shift ds df past (run sched2 s)) /\
  run sched2 s1 = shift sent1 failed1 (ui s1) (run sched2 (withCountersReset s1)) /\
  ui (run sched2 s1) =
    (shiftUi sent1 failed1 <$> ui (run sched2 (withCountersReset s1))) ++ ui s1 /\
  successCount (globals (run sched2 s1)) =
    wrap (successCount (globals (run sched2 (withCountersReset s1))) + sent1) /\
  failureCount (globals (run sched2 s1)) =
    wrap (failureCount (globals (run sched2 (withCountersReset s1))) + failed1) /\
  (forall s' more, step (Click (SendEmails true true)) s1 = Some s' ->
     forallb noClick more = true ->
     totalEmails (globals (run more s')) = countPending (table s1)) /\
  (forall s i, listeners s !! i = Some LCompute ->
     let num := wrap (successCount (globals s) + failureCount (globals s)) in
     let den := totalEmails (globals s) in
     exists s', step (Listen i) s = Some s' /\
       ui s' = BarSetValue num den :: ui s /\
       listeners s' = <[i := LPublish num den]> (listeners s) /\
       globals s' = globals s) /\
  (forall s i num den, listeners s !! i = Some (LPublish num den) ->
     exists s', step (Listen i) s = Some s' /\
       ui s' = ResultProgress num den (successCount (globals s)) (failureCount (globals s))
               :: ui s) /\
  (forall s ok, mainPc s = MReport ->
     exists s', step (Main ok) s = Some s' /\
       ui s' = ResultCompleted (successCount (globals s)) (failureCount (globals s))
               :: BarSetFull :: ui s).
Proof.
  intros s1 sent1 failed1 Hset.
  destruct (counters_shift sched1 seq0 sched2 Hset) as (H1 & H2 & H3 & H4 & H5 & H6 & H7).
  fold s1 in H1, H2, H4, H5, H6, H7. fold sent1 in H1, H4, H5, H6. fold failed1 in H1, H4, H5, H7.
  split; [exact H1|]. split; [exact H2|]. split; [exact H3|]. split; [exact H4|].
  split; [exact H5|]. split; [exact H6|]. split; [exact H7|].
  split; [|split; [|split]].
  - intros s' more Hstep Hmore. rewrite (run_total more s' Hmore). exact (H2 s' Hstep).
  - intros s i Hi num den. eexists. cbn [step]. unfold stepListener. rewrite Hi.
    split; [reflexivity|]. repeat split.
  - intros s i num den Hi. eexists. cbn [step]. unfold stepListener. rewrite Hi.
    split; reflexivity.
  - intros s ok Hpc. eexists. cbn [step]. unfold stepMain. rewrite Hpc.
    split; reflexivity.
Qed.

Lemma C10_counters_accumulate_witness :
  ui (run secondRun (run firstRun (init 0))) =
    (shiftUi 1 0 <$> ui (run secondRun (withCountersReset (run firstRun (init 0)))))
    ++ ui (run firstRun (init 0)) /\
  head (ui (run secondRun (withCountersReset (run firstRun (init 0))))) =
    Some (ResultCompleted 1 0) /\
  head (ui (run secondRun (run firstRun (init 0)))) = Some (ResultCompleted 2 0).
Proof.
  split; [|split; vm_compute; reflexivity].
  exact (proj1 (proj2 (proj2 (proj2 (proj2
           (C10_counters_accumulate firstRun 0 secondRun eq_refl)))))).
Defined.

(** ** The summary of a run *)

(** In a fresh process whose workers do not interleave, the scenario of the
    specification gives the summary it expects: 13 sent, 12 failed, and an
    empty table. *)
Lemma scenario25_summary :
  let s := run scenario25 (init 0) in
  mainPc s = MIdle /\ totalEmails (globals s) = 25 /\
  head (ui s) = Some (ResultCompleted 13 12) /\ rows (table s) = [].
Proof. vm_compute. repeat split; reflexivity. Qed.

(** C1 fails on the code in two ways. A second run of one job, after a
    first run of one job, ends with the summary "sent 2, failed 0" for its
    batch of 1: the counters are not reset. And a first run of two jobs
    whose workers both read [successCount] before either writes it ends
    with the summary "sent 1, failed 0" for its batch of 2: the increments
    are not atomic. *)
Theorem C1_summary_differs_from_batch_size :
  (let s := run (firstRun ++ secondRun) (init 0) in
   mainPc s = MIdle /\ totalEmails (globals s) = 1 /\
   head (ui s) = Some (ResultCompleted 2 0) /\ rows (table s) = []) /\
  (let s := run racyRun (init 0) in
   mainPc s = MIdle /\ totalEmails (globals s) = 2 /\
   head (ui s) = Some (ResultCompleted 1 0) /\ rows (table s) = []).
Proof. vm_compute. repeat split; reflexivity. Qed.

(** * Further properties *)

(** ** [loadTemplate] *)

Lemma splitFrom_skip (sep a b : string) :
  splitFrom sep (String.length a) (a +:+ b) = splitFrom sep 0 b.
Proof. induction a as [|c a IH]; [reflexivity|exact IH]. Qed.

Lemma splitFrom_nonempty (sep : string) (skip : nat) (s : string) :
  splitFrom sep skip s <> [].
Proof.
  revert skip. induction s as [|c s IH]; intros skip; [discriminate|].
  cbn [splitFrom]. destruct skip; [|apply IH].
  destruct (HasPrefix (String c s) sep); [discriminate|].
  destruct (splitFrom sep 0 s); discriminate.
Qed.

(** A piece without the first byte of the separator, followed by the
    separator, is the first piece. *)
Lemma Split_first (c0 : ascii) (sep' a b : string) :
  lacks c0 a = true ->
  Split (a +:+ String c0 sep' +:+ b) (String c0 sep') = a :: Split b (String c0 sep').
Proof.
  unfold Split. intros Ha. induction a as [|c a IH].
  - change ("" +:+ String c0 sep' +:+ b) with (String c0 (sep' +:+ b)).
    cbn [splitFrom]. rewrite HasPrefix_cons, Ascii.eqb_refl, HasPrefix_app.
    cbn [andb].
    replace (String.length (String c0 sep') - 1)%nat with (String.length sep')
      by (cbn [String.length]; lia).
    now rewrite splitFrom_skip.
  - cbn [lacks] in Ha. apply andb_prop in Ha as [Hc Ha]. apply negb_true_iff in Hc.
    change (String c a +:+ String c0 sep' +:+ b)
      with (String c (a +:+ String c0 sep' +:+ b)).
    cbn [splitFrom]. rewrite HasPrefix_cons, Hc. cbn [andb].
    now rewrite (IH Ha).
Qed.

(** A string without the first byte of the separator is one piece. *)
Lemma Split_none (c0 : ascii) (sep' a : string) :
  lacks c0 a = true -> Split a (String c0 sep') = [a].
Proof.
  unfold Split. intros Ha. induction a as [|c a IH]; [reflexivity|].
  cbn [lacks] in Ha. apply andb_prop in Ha as [Hc Ha]. apply negb_true_iff in Hc.
  cbn [splitFrom]. rewrite HasPrefix_cons, Hc. cbn [andb]. now rewrite (IH Ha).
Qed.

Lemma append_assoc (a b c : string) : (a +:+ b) +:+ c = a +:+ (b +:+ c).
Proof.
  induction a as [|x a IH]; [reflexivity|].
  change (String x ((a +:+ b) +:+ c) = String x (a +:+ (b +:+ c))). now rewrite IH.
Qed.

Lemma lacks_app (c : ascii) (a b : string) :
  lacks c (a +:+ b) = lacks c a && lacks c b.
Proof.
  induction a as [|x a IH]; [reflexivity|].
  change (String x a +:+ b) with (String x (a +:+ b)). cbn [lacks].
  now rewrite IH, andb_assoc.
Qed.

Lemma dropBytes_app (p s : string) : dropBytes (String.length p) (p +:+ s) = s.
Proof. induction p as [|x p IH]; [now destruct s|exact IH]. Qed.

Lemma TrimPrefix_app (p s : string) : TrimPrefix (p +:+ s) p = s.
Proof. unfold TrimPrefix. now rewrite HasPrefix_app, dropBytes_app. Qed.

(** The lines after the first are appended to the body, each with a line
    break. *)
Lemma templateLoop_rest (lines : list string) (i : nat) (subj bod : string) :
  templateLoop lines (S i) subj bod = (subj, bod +:+ unlines lines).
Proof.
  revert i bod. induction lines as [|line rest IH]; intros i bod.
  - cbn. now rewrite append_empty_r.
  - cbn [templateLoop Nat.eqb unlines]. rewrite IH. now rewrite !append_assoc.
Qed.

(** Splitting at the line breaks and putting a line break after every
    piece gives the text back, with a line break more. *)
Lemma unlines_Split (s : string) : unlines (Split s newline) = s +:+ newline.
Proof.
  unfold Split. induction s as [|c s IH]; [reflexivity|].
  change newline with (String (ascii_of_nat 10) "") in *.
  cbn [splitFrom]. rewrite HasPrefix_cons. cbn [HasPrefix andb String.length Nat.sub].
  rewrite andb_true_r.
  destruct (Ascii.eqb (ascii_of_nat 10) c) eqn:Ec.
  - apply Ascii.eqb_eq in Ec. subst c. cbn [unlines]. now rewrite IH.
  - destruct (splitFrom (String (ascii_of_nat 10) "") 0 s) as [|p ps] eqn:Es.
    + destruct (splitFrom_nonempty _ _ _ Es).
    + cbn [unlines] in *.
      change (String c p +:+ newline +:+ unlines ps)
        with (String c (p +:+ newline +:+ unlines ps)).
      change newline with (String (ascii_of_nat 10) "") in *. now rewrite IH.
Qed.

Lemma parseTemplate_cut (first rest : string) :
  lacks (ascii_of_nat 10) first = true ->
  parseTemplate (first +:+ newline +:+ rest) =
    (TrimPrefix first "Subject: ", rest +:+ newline) /\
  parseTemplate first = (TrimPrefix first "Subject: ", "").
Proof.
  intros H. unfold parseTemplate. split.
  - change newline with (String (ascii_of_nat 10) "") at 1 2.
    rewrite (Split_first _ _ _ _ H).
    cbn [templateLoop Nat.eqb]. rewrite templateLoop_rest.
    change (String (ascii_of_nat 10) "") with newline.
    now rewrite unlines_Split.
  - change newline with (String (ascii_of_nat 10) "").
    now rewrite (Split_none _ _ _ H).
Qed.

(** X1: [loadTemplate] cuts the file at its first line break. The subject
    is the first line, without ["Subject: "] when the line begins with it;
    the body is everything after the first line break, followed by one
    more line break. A file without line break (an empty file too) is all
    subject, and its body is empty. *)
Theorem X1_template_cut_at_first_line_break (first rest : string) :
  lacks (ascii_of_nat 10) first = true ->
  parseTemplate (first +:+ newline +:+ rest) =
    (TrimPrefix first "Subject: ", rest +:+ newline) /\
  parseTemplate first = (TrimPrefix first "Subject: ", "").
Proof. apply parseTemplate_cut. Qed.

Lemma X1_template_cut_at_first_line_break_witness :
  parseTemplate ("subject: Hi" +:+ newline +:+ "Dear {name}," +:+ newline +:+ "bye") =
    ("subject: Hi", "Dear {name}," +:+ newline +:+ "bye" +:+ newline).
Proof.
  exact (proj1 (X1_template_cut_at_first_line_break "subject: Hi"
                  ("Dear {name}," +:+ newline +:+ "bye") eq_refl)).
Defined.

(** X2: a file made of ["Subject: "], a subject without line break, a line
    break and a body is loaded as that subject and that body followed by a
    line break; the callback stores them in [emailSubject] and [emailBody]
    and touches nothing else. *)
Theorem X2_template_round_trip (subj bod : string) (g : Globals) :
  lacks (ascii_of_nat 10) subj = true ->
  parseTemplate ("Subject: " +:+ subj +:+ newline +:+ bod) = (subj, bod +:+ newline) /\
  loadTemplate (Content ("Subject: " +:+ subj +:+ newline +:+ bod)) g =
    (mkGlobals (smtpConfig g) (recipients g) subj (bod +:+ newline)
               (successCount g) (failureCount g) (totalEmails g),
     StatusTemplateLoaded).
Proof.
  intros H.
  assert (E : parseTemplate ("Subject: " +:+ subj +:+ newline +:+ bod) = (subj, bod +:+ newline)).
  { rewrite <- (append_assoc "Subject: " subj).
    rewrite (proj1 (parseTemplate_cut ("Subject: " +:+ subj) bod
                      ltac:(rewrite lacks_app, H; reflexivity))).
    now rewrite TrimPrefix_app. }
  split; [exact E|]. unfold loadTemplate. now rewrite E.
Qed.

Lemma X2_template_round_trip_witness :
  parseTemplate ("Subject: " +:+ "Hi {name}" +:+ newline +:+ "Dear {name}") =
    ("Hi {name}", "Dear {name}" +:+ newline).
Proof.
  exact (proj1 (X2_template_round_trip "Hi {name}" "Dear {name}"
                  (mkGlobals (mkSMTPConfig "" 0 "" "" "") [] "" "" 0 0 0) eq_refl)).
Defined.

(** ** [loadRecipients] *)

(** The loop over records of 3 fields fills the slots one after the
    other. *)
Lemma fillLoop_good (good rest : list (list string)) (pre : list Recipient) (m : nat) :
  Forall (fun record => length record = 3%nat) good ->
  fillLoop (good ++ rest) (length pre)
           (pre ++ replicate (length good + m) zeroRecipient) =
  fillLoop rest (length pre + length good)
           ((pre ++ map recipientOf good) ++ replicate m zeroRecipient).
Proof.
  intros Hgood. revert pre. induction Hgood as [|record good H3 _ IH]; intros pre.
  - cbn [app length map]. now rewrite Nat.add_0_r, app_nil_r.
  - cbn [app fillLoop length map]. rewrite H3. cbn [Nat.eqb].
    rewrite insert_app_r_alt by lia. rewrite Nat.sub_diag.
    cbn [Nat.add replicate insert list_insert].
    specialize (IH (pre ++ [recipientOf record])).
    rewrite length_app in IH. cbn [length] in IH.
    replace (length pre + 1)%nat with (S (length pre)) in IH by lia.
    rewrite <- !app_assoc in IH. cbn [app] in IH.
    rewrite IH. rewrite <- !app_assoc. cbn [app].
    f_equal. lia.
Qed.

Lemma fieldCountOk_uniform (n : nat) (header : list string) (data : list (list string)) :
  length header = n -> Forall (fun record => length record = n) data ->
  fieldCountOk (header :: data) = true.
Proof.
  intros Hh Hd. cbn [fieldCountOk]. apply forallb_forall. intros record Hin.
  rewrite List.Forall_forall in Hd. rewrite (Hd record Hin), Hh. apply Nat.eqb_refl.
Qed.

(** X3: when every record of the file, the header too, has 3 fields,
    [loadRecipients] stores one recipient per record after the first, in
    the order of the file, and reports their number; the first record is
    dropped as the header, whatever it holds, and a file without records
    loads no recipient. *)
Theorem X3_recipients_loaded_in_order (header : list string) (data : list (list string))
    (g : Globals) :
  length header = 3%nat ->
  Forall (fun record => length record = 3%nat) data ->
  loadRecipients (Content (header :: data)) g =
    (setRecipients (map recipientOf data) g,
     StatusRecipientsLoaded (Z.of_nat (length data))) /\
  loadRecipients (Content []) g = (setRecipients [] g, StatusRecipientsLoaded 0).
Proof.
  intros Hh Hdata. split; [|reflexivity].
  unfold loadRecipients. rewrite (fieldCountOk_uniform 3 header data Hh Hdata). cbn [negb].
  pose proof (fillLoop_good data [] [] 0 Hdata) as E.
  rewrite app_nil_r, Nat.add_0_r in E. cbn [length app replicate] in E.
  rewrite app_nil_r in E. cbn [Nat.add fillLoop] in E.
  rewrite E. now rewrite length_map.
Qed.

Lemma X3_recipients_loaded_in_order_witness :
  recipients (fst (loadRecipients
     (Content [["SenderName"; "RecipientName"; "RecipientEmail"];
               ["Alice"; "Bob"; "bob@x.org"]; ["Alice"; "Carol"; "carol@x.org"]])
     (mkGlobals (mkSMTPConfig "" 0 "" "" "") [] "" "" 0 0 0))) =
  [mkRecipient "Alice" "Bob" "bob@x.org"; mkRecipient "Alice" "Carol" "carol@x.org"].
Proof.
  rewrite (proj1 (X3_recipients_loaded_in_order
                    ["SenderName"; "RecipientName"; "RecipientEmail"]
                    [["Alice"; "Bob"; "bob@x.org"]; ["Alice"; "Carol"; "carol@x.org"]]
                    (mkGlobals (mkSMTPConfig "" 0 "" "" "") [] "" "" 0 0 0)
                    eq_refl ltac:(repeat constructor))).
  reflexivity.
Defined.



(** ** [queueEmails] *)

Lemma queuedRows_pending (sq : Z) (subj bod : string) (rs : list Recipient) :
  filter (fun r => pending r = true) (queuedRows sq subj bod rs) = queuedRows sq subj bod rs.
Proof.
  revert sq. induction rs as [|rc rs IH]; intros sq; [reflexivity|].
  cbn [queuedRows]. rewrite filter_cons_True by reflexivity. now rewrite IH.
Qed.

Lemma queuedRows_length (sq : Z) (subj bod : string) (rs : list Recipient) :
  length (queuedRows sq subj bod rs) = length rs.
Proof. revert sq. induction rs as [|rc rs IH]; intros sq; cbn; [reflexivity|now rewrite IH]. Qed.

Lemma queueLoop_all_ok (rs : list Recipient) (k : nat) (f : nat -> bool) (s : State) :
  (forall j, f j = true) ->
  table (queueLoop rs k f s) =
    mkTable (rows (table s) ++
             queuedRows (seq (table s)) (emailSubject (globals s)) (emailBody (globals s)) rs)
            (seq (table s) + Z.of_nat (length rs)).
Proof.
  intros Hf. revert k s. induction rs as [|rc rs IH]; intros k s.
  - cbn [queueLoop queuedRows length]. rewrite app_nil_r, Z.add_0_r. now destruct (table s).
  - cbn [queueLoop]. rewrite IH. unfold exec. rewrite Hf.
    cbn [logSql setTable table globals insertRow rows seq newRow id queuedRows].
    rewrite <- app_assoc. cbn [app length]. f_equal. lia.
Qed.

(** What the inserts add, whichever of them succeed. *)
Lemma queueLoop_inserted (rs : list Recipient) (k : nat) (f : nat -> bool) (s : State) :
  exists news,
    rows (table (queueLoop rs k f s)) = rows (table s) ++ news /\
    length news = inserted f k (length rs) /\
    Forall (fun r => status r = "pending") news /\
    seq (table (queueLoop rs k f s)) = seq (table s) + Z.of_nat (inserted f k (length rs)).
Proof.
  revert k s. induction rs as [|rc rs IH]; intros k s.
  - exists []. cbn. rewrite app_nil_r.
    repeat split; first [reflexivity | constructor | lia].
  - cbn [queueLoop length inserted].
    match goal with |- context [queueLoop rs (S k) f ?x] =>
      destruct (IH (S k) x) as (news & E & L & P & Q); rewrite E, Q end.
    unfold exec. destruct (f k); cbn [logSql setTable table insertRow rows seq newRow id].
    + exists (newRow (table s) rc (emailSubject (globals s)) (emailBody (globals s)) :: news).
      rewrite <- app_assoc. cbn [app length]. repeat split.
      * now rewrite L.
      * constructor; [reflexivity|exact P].
      * cbn [newRow id]. lia.
    + exists news. repeat split; first [exact L | exact P | cbn; lia].
Qed.

(** X5: when every [INSERT] succeeds, [queueEmails] appends one row per
    loaded recipient, in the order of the list, with the ids that follow
    the AUTOINCREMENT mark, the current subject and body, and the status
    [pending]; the rows that were in the table stay, so queueing twice
    queues every recipient twice. *)
Theorem X5_queue_appends_one_row_per_recipient (f : nat -> bool) (s : State) :
  (forall k, f k = true) ->
  let g := globals s in
  let n := Z.of_nat (length (recipients g)) in
  table (queueEmails f s) =
    mkTable (rows (table s) ++
             queuedRows (seq (table s)) (emailSubject g) (emailBody g) (recipients g))
            (seq (table s) + n) /\
  table (queueEmails f (queueEmails f s)) =
    mkTable (rows (table s) ++
             queuedRows (seq (table s)) (emailSubject g) (emailBody g) (recipients g) ++
             queuedRows (seq (table s) + n) (emailSubject g) (emailBody g) (recipients g))
            (seq (table s) + n + n).
Proof.
  intros Hf g n.
  assert (E : forall x, table (queueEmails f x) =
            mkTable (rows (table x) ++
                     queuedRows (seq (table x)) (emailSubject (globals x))
                                (emailBody (globals x)) (recipients (globals x)))
                    (seq (table x) + Z.of_nat (length (recipients (globals x)))))
    by (intros x; unfold queueEmails; cbn [show table]; now apply queueLoop_all_ok).
  split; [apply E|].
  rewrite (E (queueEmails f s)), (E s).
  assert (G : globals (queueEmails f s) = globals s)
    by (unfold queueEmails; cbn [show globals]; apply queueLoop_frame).
  rewrite G. cbn [rows seq]. fold g. fold n. now rewrite <- app_assoc.
Qed.

Lemma X5_queue_appends_one_row_per_recipient_witness :
  rows (table (queueEmails (fun _ => true)
     (run [Click (LoadTemplate "Hi {name}" "Dear {name}");
           Click (LoadRecipients [bob; mkRecipient "Alice" "Carol" "carol@x.org"])]
          (init 7)))) =
  [mkRow 8 "Alice" "Bob" "bob@x.org" "Hi {name}" "Dear {name}" "pending";
   mkRow 9 "Alice" "Carol" "carol@x.org" "Hi {name}" "Dear {name}" "pending"].
Proof.
  rewrite (proj1 (X5_queue_appends_one_row_per_recipient (fun _ => true)
     (run [Click (LoadTemplate "Hi {name}" "Dear {name}");
           Click (LoadRecipients [bob; mkRecipient "Alice" "Carol" "carol@x.org"])]
          (init 7)) (fun _ => eq_refl))).
  reflexivity.
Defined.

(** X6: whichever [INSERT]s fail, [queueEmails] appends as many pending
    rows as [INSERT]s succeeded and nothing else changes in the table: the
    number of pending rows and the AUTOINCREMENT mark grow by that number;
    and it shows "Emails queued successfully." in every case, even when
    nothing was queued. *)
Theorem X6_queue_counts_successful_inserts (f : nat -> bool) (s : State) :
  let n := inserted f 0 (length (recipients (globals s))) in
  let s' := queueEmails f s in
  (exists news,
     rows (table s') = rows (table s) ++ news /\ length news = n /\
     Forall (fun r => status r = "pending") news) /\
  countPending (table s') = countPending (table s) + Z.of_nat n /\
  seq (table s') = seq (table s) + Z.of_nat n /\
  ui s' = ResultQueued :: ui s /\
  globals s' = globals s.
Proof.
  intros n s'. subst s'. unfold queueEmails. cbn [show table ui globals].
  destruct (queueLoop_inserted (recipients (globals s)) 0 f s) as (news & E & L & P & Q).
  destruct (queueLoop_frame (recipients (globals s)) 0 f s) as (G & U & _).
  fold n in L, Q.
  split; [exists news; repeat split; assumption|].
  split; [|split; [exact Q|split; [now rewrite U|exact G]]].
  unfold countPending, selectPending. rewrite E, filter_app, length_app.
  replace (filter (fun r => pending r = true) news) with news; [rewrite L; lia|].
  clear E L. induction P as [|r news Hr _ IH]; [reflexivity|].
  rewrite filter_cons_True by (unfold pending; now rewrite Hr). now rewrite <- IH.
Qed.

(** X7: pressing Queue and then Send, with recipients loaded and every
    statement succeeding, starts a run over the rows that were already
    pending followed by the new rows, in that order: [totalEmails] is their
    number, a listener is started, and no worker yet. *)
Theorem X7_queue_then_send_starts_run (f : nat -> bool) (s : State) :
  mainPc s = MIdle -> (forall k, f k = true) -> recipients (globals s) <> [] ->
  let g := globals s in
  let news := queuedRows (seq (table s)) (emailSubject g) (emailBody g) (recipients g) in
  let s' := run [Click (QueueEmails f); Click (SendEmails true true)] s in
  mainPc s' = MNext (selectPending (table s) ++ news) /\
  totalEmails (globals s') = countPending (table s) + Z.of_nat (length (recipients g)) /\
  listeners s' = LRecv :: listeners s /\
  workers s' = workers s /\ sem s' = 0%nat /\ wg s' = 0%nat.
Proof.
  intros Hpc Hf Hne g news s'.
  assert (T : table (queueEmails f s) =
              mkTable (rows (table s) ++ news) (seq (table s) + Z.of_nat (length (recipients g))))
    by (unfold queueEmails; cbn [show table]; now apply queueLoop_all_ok).
  destruct (queueLoop_frame (recipients g) 0 f s) as (G & _ & M & W & _ & _ & L).
  assert (P : selectPending (table (queueEmails f s)) = selectPending (table s) ++ news).
  { unfold selectPending. rewrite T. cbn [rows]. rewrite filter_app.
    f_equal. apply queuedRows_pending. }
  assert (C : countPending (table (queueEmails f s)) =
              countPending (table s) + Z.of_nat (length (recipients g))).
  { unfold countPending. rewrite P, length_app. unfold news.
    rewrite queuedRows_length. lia. }
  assert (Z0 : (countPending (table (queueEmails f s)) =? 0) = false).
  { apply Z.eqb_neq. rewrite C. unfold countPending.
    unfold g. destruct (recipients (globals s)) eqn:Er; [now destruct Hne|].
    cbn [length]. lia. }
  subst s'.
  rewrite (run_cons_Some _ _ s (queueEmails f s))
    by (cbn [step]; unfold stepUser; now rewrite Hpc).
  rewrite (run_cons_Some _ _ _ (sendEmailsStart true true (queueEmails f s)))
    by (cbn [step]; unfold stepUser, queueEmails; cbn [show mainPc];
        fold g; now rewrite M, Hpc).
  cbn [run]. unfold sendEmailsStart. cbn [negb]. cbn [logSql setGlobals globals setTotalEmails totalEmails table].
  rewrite Z0.
  cbn [setMain setSem setWg setListeners mainPc globals totalEmails listeners workers sem wg].
  rewrite P, C. unfold queueEmails.
  cbn [show logSql setGlobals listeners workers globals setTotalEmails totalEmails].
  fold g. rewrite L, W. repeat split; reflexivity.
Qed.

Lemma X7_queue_then_send_starts_run_witness :
  mainPc (run [Click (QueueEmails (fun _ => true)); Click (SendEmails true true)]
              (run [Click (LoadRecipients [bob])] (init 0))) =
  MNext [mkRow 1 "Alice" "Bob" "bob@x.org" "" "" "pending"].
Proof.
  exact (proj1 (X7_queue_then_send_starts_run (fun _ => true)
                  (run [Click (LoadRecipients [bob])] (init 0))
                  eq_refl (fun _ => eq_refl) ltac:(discriminate))).
Defined.

(** ** The pool: what it never does *)

Lemma live_workers_exited (s : State) :
  PoolInv s -> quiescent (mainPc s) = true ->
  forall i w, workers s !! i = Some w -> wpc w = WExit.
Proof.
  intros [_ _ Hwg Hq] Q i w Hi. specialize (Hq Q).
  destruct (wpc w) eqn:E; try reflexivity;
    (assert (1 <= count live (workers s))%nat
       by (apply (count_lookup live _ i _ Hi); unfold live; now rewrite E); lia).
Qed.

(** X8: [wg.Wait()] holds [sendEmails] back until every worker has
    returned: between two runs, and from the purge to the summary, every
    worker goroutine the process ever started has returned; in particular
    the [DELETE] never runs while a worker is still to do its [UPDATE]. *)
Theorem X8_purge_after_all_workers (sched : list Action) (seq0 : Z) (i : nat) (w : Worker) :
  let s := run sched (init seq0) in
  quiescent (mainPc s) = true -> workers s !! i = Some w ->
  wpc w = WExit /\ wg s = 0%nat /\ sem s = 0%nat /\ inFlight s = 0%nat.
Proof.
  intros s Q Hi.
  pose proof (pool_run sched seq0) as Hp. fold s in Hp.
  split; [exact (live_workers_exited s Hp Q i w Hi)|].
  destruct Hp as [Hsem _ Hwg Hq]. specialize (Hq Q).
  pose proof (holding_le_live (workers s)). pose proof (sending_le_holding (workers s)).
  unfold inFlight.
  assert (spawnSlot (mainPc s) = 0%nat) by (destruct (mainPc s); try discriminate Q; reflexivity).
  repeat split; lia.
Qed.

Lemma X8_purge_after_all_workers_witness :
  mainPc (run (batch 2 ++ launch 2 ++ [Main true] ++ serve 0 (netAll true) ++
               serve 1 (netAll false) ++ [Main true]) (init 0)) = MPurge /\
  wpc (mkWorker (mkRow 2 "Alice" "Bob" "bob@x.org" "" "" "pending") WExit
         (Some "failed to send email to bob@x.org after multiple attempts")) = WExit.
Proof.
  split; [vm_compute; reflexivity|].
  refine (proj1 (X8_purge_after_all_workers
                   (batch 2 ++ launch 2 ++ [Main true] ++ serve 0 (netAll true) ++
                    serve 1 (netAll false) ++ [Main true]) 0 1 _ _ _));
    vm_compute; reflexivity.
Defined.

(** X9: the deferred calls of a worker never go wrong: when a worker is
    about to take a token from [sem] there is one (the receive does not
    block), and when it is about to call [wg.Done()] the counter is
    positive (no "negative WaitGroup counter" panic). *)
Theorem X9_release_and_done_are_safe (sched : list Action) (seq0 : Z) (i : nat) (w : Worker) :
  let s := run sched (init seq0) in
  workers s !! i = Some w ->
  (wpc w = WRelease -> (1 <= sem s)%nat) /\
  (wpc w = WDone -> (1 <= wg s)%nat) /\
  (wpc w <> WExit -> (1 <= wg s)%nat /\ quiescent (mainPc s) = false).
Proof.
  intros s Hi.
  destruct (pool_run sched seq0) as [Hsem _ Hwg Hq]. fold s in Hsem, Hwg, Hq.
  assert (L : wpc w <> WExit -> (1 <= count live (workers s))%nat).
  { intros Hne. apply (count_lookup live _ i _ Hi). unfold live. now destruct (wpc w). }
  repeat split.
  - intros E.
    assert (1 <= count holding (workers s))%nat
      by (apply (count_lookup holding _ i _ Hi); unfold holding; now rewrite E).
    lia.
  - intros E. assert (1 <= count live (workers s))%nat by (apply L; now rewrite E). lia.
  - specialize (L H). lia.
  - specialize (L H). destruct (quiescent (mainPc s)); [|reflexivity].
    specialize (Hq eq_refl). lia.
Qed.

Lemma X9_release_and_done_are_safe_witness :
  (1 <= sem (run (batch 1 ++ launch 1 ++ replicate 5 (Work 0 (netAll true) true) ++
                  [Work 0 (netAll true) true]) (init 0)))%nat.
Proof.
  refine (proj1 (X9_release_and_done_are_safe
                   (batch 1 ++ launch 1 ++ replicate 5 (Work 0 (netAll true) true) ++
                    [Work 0 (netAll true) true]) 0 0
                   (mkWorker (mkRow 1 "Alice" "Bob" "bob@x.org" "" "" "pending") WRelease None)
                   _) _); vm_compute; reflexivity.
Defined.

(** ** [sendEmail]: connections and arguments *)

Section AttemptMore.

Variables (cfg : SMTPConfig) (recipientEmail msg : string).

Ltac by_cases net :=
  unfold attemptEvents, attemptDefers, succeeds, attempt, bind, call, defer, ret;
  destruct (Port cfg =? 587) eqn:?;
  destruct (net OpDial) eqn:?; cbn [fst snd trace defers];
  try destruct (net OpStartTLS) eqn:?; cbn [fst snd trace defers];
  try destruct (net OpAuth) eqn:?; cbn [fst snd trace defers];
  try destruct (net OpMail) eqn:?; cbn [fst snd trace defers];
  try destruct (net OpRcpt) eqn:?; cbn [fst snd trace defers];
  try destruct (net OpData) eqn:?; cbn [fst snd trace defers];
  try destruct (net OpWrite) eqn:?; cbn [fst snd trace defers].

Lemma attempt_frame_defers (net : SmtpOp -> bool) (c : Call) :
  attempt cfg recipientEmail msg net c =
    (if succeeds cfg recipientEmail msg net then Some tt else None,
     mkCall (trace c ++ attemptEvents cfg recipientEmail msg net)
            (attemptDefers cfg recipientEmail msg net ++ defers c)).
Proof. by_cases net; repeat rewrite <- app_assoc; reflexivity. Qed.

Lemma attempt_events_no_close (net : SmtpOp -> bool) :
  forallb (fun e => negb (isClose e)) (attemptEvents cfg recipientEmail msg net) = true.
Proof. by_cases net; reflexivity. Qed.

Lemma attempt_defers_closes (net : SmtpOp -> bool) :
  forallb isClose (attemptDefers cfg recipientEmail msg net) = true /\
  length (List.filter isCloseConn (attemptDefers cfg recipientEmail msg net)) =
    (if net OpDial then 1 else 0)%nat.
Proof. by_cases net; split; reflexivity. Qed.

Lemma attempt_success_tail (net : SmtpOp -> bool) :
  succeeds cfg recipientEmail msg net = true ->
  (exists pre,
     attemptEvents cfg recipientEmail msg net =
       pre ++ [EAuth (User cfg) (Password cfg) (Host cfg); EMail (From cfg);
               ERcpt recipientEmail; EData; EWrite msg]) /\
  attemptDefers cfg recipientEmail msg net = [ECloseData; ECloseConn].
Proof.
  by_cases net; intros H; try discriminate H; (split; [|reflexivity]); cbn [app];
    first [ exists [EDial (Host cfg) (Port cfg); EStartTLS (Host cfg)]; reflexivity
          | exists [EDial (Host cfg) (Port cfg)]; reflexivity ].
Qed.

Lemma attempt_as_configured (net : SmtpOp -> bool) :
  Forall (asConfigured cfg recipientEmail msg) (attemptEvents cfg recipientEmail msg net).
Proof.
  by_cases net; cbn [app]; repeat constructor.
Qed.

End AttemptMore.

Section SendEmailMore.

Variables (cfg : SMTPConfig).
Variables (recipientEmail recipientName senderName subj bod : string).
Variable (net : nat -> SmtpOp -> bool).

Let msg := composeMessage cfg recipientName senderName subj bod.
Let ok (i : nat) := succeeds cfg recipientEmail msg (net i).
Let events (i : nat) := attemptEvents cfg recipientEmail msg (net i).
Let closes (i : nat) := attemptDefers cfg recipientEmail msg (net i).

(** The call with its deferred closes spelled out: those of the last
    iteration first. *)
Lemma sendEmail_closes :
  sendEmail cfg recipientEmail recipientName senderName subj bod net =
    if ok 0 then (None, events 0 ++ closes 0)
    else if ok 1 then (None, (events 0 ++ events 1) ++ closes 1 ++ closes 0)
    else (if ok 2 then None else Some (exhausted recipientEmail),
          (events 0 ++ events 1 ++ events 2) ++ closes 2 ++ closes 1 ++ closes 0).
Proof.
  unfold sendEmail. fold msg. cbn [retryLoop].
  rewrite (attempt_frame_defers cfg recipientEmail msg (net 0)).
  fold (ok 0) (events 0) (closes 0). cbn [trace defers app].
  destruct (ok 0); [cbn [trace defers]; now rewrite app_nil_r|].
  rewrite (attempt_frame_defers cfg recipientEmail msg (net 1)).
  fold (ok 1) (events 1) (closes 1). cbn [trace defers app].
  destruct (ok 1); [cbn [trace defers]; now rewrite app_nil_r|].
  rewrite (attempt_frame_defers cfg recipientEmail msg (net 2)).
  fold (ok 2) (events 2) (closes 2). cbn [trace defers app].
  destruct (ok 2); cbn [trace defers]; now rewrite app_nil_r, <- !app_assoc.
Qed.

End SendEmailMore.

Lemma closes_as_configured (cfg : SMTPConfig) (recipientEmail msg : string) (ds : list Event) :
  forallb isClose ds = true -> Forall (asConfigured cfg recipientEmail msg) ds.
Proof.
  induction ds as [|e ds IH]; [constructor|].
  intros [He Hds]%andb_prop. constructor; [|exact (IH Hds)].
  destruct e; try discriminate He; exact I.
Qed.

Lemma closeConn_app (a b : list Event) :
  length (List.filter isCloseConn (a ++ b)) =
  (length (List.filter isCloseConn a) + length (List.filter isCloseConn b))%nat.
Proof. now rewrite List.filter_app, List.length_app. Qed.

(** X10: [sendEmail] calls [Close] only at its return. The [c.Close()]
    and [wc.Close()] of an attempt are deferred to the return of the
    function, not to the end of the loop iteration: no [Close] is called
    while attempts are still being made, every [Close] call comes after
    the last attempt, and [c.Close()] is then called once for each
    [smtp.Dial] that succeeded. (What the library does to a connection
    inside a call that fails is not a call of [sendEmail] and is not in
    the trace.) *)
Theorem X10_close_calls_deferred_to_return (cfg : SMTPConfig)
    (recipientEmail recipientName senderName subj bod : string)
    (net : nat -> SmtpOp -> bool) :
  let tr := snd (sendEmail cfg recipientEmail recipientName senderName subj bod net) in
  exists body closes,
    tr = body ++ closes /\
    forallb (fun e => negb (isClose e)) body = true /\
    forallb isClose closes = true /\
    attempts body = attempts tr /\
    length (List.filter isCloseConn closes) = dialled net (attempts tr).
Proof.
  intros tr. subst tr. rewrite sendEmail_closes.
  set (msg := composeMessage cfg recipientName senderName subj bod).
  assert (A := fun i => attempt_one_dial cfg recipientEmail msg (net i)).
  assert (N := fun i => attempt_events_no_close cfg recipientEmail msg (net i)).
  assert (D := fun i => attempt_defers_closes cfg recipientEmail msg (net i)).
  assert (Q := fun i => proj1 (closes_quiet _ (proj1 (D i)))).
  unfold dialled.
  destruct (succeeds cfg recipientEmail msg (net 0%nat)); [|
  destruct (succeeds cfg recipientEmail msg (net 1%nat)); [|
  destruct (succeeds cfg recipientEmail msg (net 2%nat))]]; cbn [snd];
    eexists; eexists; (split; [reflexivity|]);
    rewrite ?forallb_app, ?attempts_app, ?closeConn_app, ?N, ?A, ?Q;
    rewrite ?(proj1 (D 0%nat)), ?(proj1 (D 1%nat)), ?(proj1 (D 2%nat));
    rewrite ?(proj2 (D 0%nat)), ?(proj2 (D 1%nat)), ?(proj2 (D 2%nat));
    cbn [andb Nat.add List.seq List.filter];
    (repeat split; try reflexivity);
    destruct (net 0%nat OpDial), (net 1%nat OpDial), (net 2%nat OpDial); reflexivity.
Qed.

(** X11: every call [sendEmail] makes carries what it was given: it dials
    and authenticates to the configured host only, names the configured
    sender and the one recipient, and writes the composed message, the
    same at every attempt. When it returns [nil], the last things it did
    were to authenticate, name the sender and the recipient, open the data
    stream, write the message, and then, at the return, close the stream
    and the connection. *)
Theorem X11_calls_as_configured (cfg : SMTPConfig)
    (recipientEmail recipientName senderName subj bod : string)
    (net : nat -> SmtpOp -> bool) :
  let msg := composeMessage cfg recipientName senderName subj bod in
  let result := sendEmail cfg recipientEmail recipientName senderName subj bod net in
  Forall (asConfigured cfg recipientEmail msg) (snd result) /\
  (fst result = None ->
   exists pre rest,
     snd result =
       pre ++ [EAuth (User cfg) (Password cfg) (Host cfg); EMail (From cfg);
               ERcpt recipientEmail; EData; EWrite msg; ECloseData; ECloseConn] ++ rest /\
     forallb isClose rest = true).
Proof.
  intros msg result. subst result. rewrite sendEmail_closes. fold msg.
  assert (C := fun i => attempt_as_configured cfg recipientEmail msg (net i)).
  assert (D := fun i => attempt_defers_closes cfg recipientEmail msg (net i)).
  assert (K := fun i => closes_as_configured cfg recipientEmail msg _ (proj1 (D i))).
  assert (T := fun i => attempt_success_tail cfg recipientEmail msg (net i)).
  destruct (succeeds cfg recipientEmail msg (net 0%nat)) eqn:E0; [|
  destruct (succeeds cfg recipientEmail msg (net 1%nat)) eqn:E1; [|
  destruct (succeeds cfg recipientEmail msg (net 2%nat)) eqn:E2]]; cbn [fst snd];
    (split; [repeat (apply Forall_app; split); auto|]); intros H; try discriminate H.
  - destruct (T 0%nat E0) as [[pre ->] ->]. exists pre, [].
    rewrite <- !app_assoc. split; reflexivity.
  - destruct (T 1%nat E1) as [[pre ->] ->].
    exists (attemptEvents cfg recipientEmail msg (net 0%nat) ++ pre),
           (attemptDefers cfg recipientEmail msg (net 0%nat)).
    rewrite <- !app_assoc. split; [reflexivity|exact (proj1 (D 0%nat))].
  - destruct (T 2%nat E2) as [[pre ->] ->].
    exists (attemptEvents cfg recipientEmail msg (net 0%nat) ++
            attemptEvents cfg recipientEmail msg (net 1%nat) ++ pre),
           (attemptDefers cfg recipientEmail msg (net 1%nat) ++
            attemptDefers cfg recipientEmail msg (net 0%nat)).
    rewrite <- !app_assoc. split; [reflexivity|].
    now rewrite forallb_app, (proj1 (D 0%nat)), (proj1 (D 1%nat)).
Qed.

Lemma X11_calls_as_configured_witness :
  exists pre rest,
    snd (sendEmail (mkSMTPConfig "h" 587 "u" "p" "me@x.org")
           "bob@x.org" "Bob" "Alice" "Hi {name}" "Dear {name}" thirdTimeLucky) =
      pre ++ [EAuth "u" "p" "h"; EMail "me@x.org"; ERcpt "bob@x.org"; EData;
              EWrite (composeMessage (mkSMTPConfig "h" 587 "u" "p" "me@x.org")
                        "Bob" "Alice" "Hi {name}" "Dear {name}");
              ECloseData; ECloseConn] ++ rest /\
    forallb isClose rest = true.
Proof.
  exact (proj2 (X11_calls_as_configured (mkSMTPConfig "h" 587 "u" "p" "me@x.org")
                  "bob@x.org" "Bob" "Alice" "Hi {name}" "Dear {name}" thirdTimeLucky)
               eq_refl).
Defined.

(** ** The dispatch of the rows *)

Lemma jobs_insert (ws : list Worker) (i : nat) (w w' : Worker) :
  ws !! i = Some w -> job w' = job w -> job <$> <[i := w']> ws = job <$> ws.
Proof.
  intros Hi Hj. rewrite list_fmap_insert, Hj.
  apply list_insert_id. now rewrite list_lookup_fmap, Hi.
Qed.

(** One step of a goroutine leaves the rows dispatched or in hand as they
    are, except a failed [rows.Scan], which drops the row it was for. *)
Lemma step_dispatched (n0 : nat) (a : Action) (s s' : State) :
  noClick a = true -> (n0 <= length (workers s))%nat ->
  step a s = Some s' ->
  (n0 <= length (workers s'))%nat /\
  (dispatched n0 s' = dispatched n0 s \/
   scansOk a = false /\
   exists pre r post,
     dispatched n0 s = pre ++ r :: post /\ dispatched n0 s' = pre ++ post).
Proof.
  intros Hnc Hn Hstep. unfold dispatched.
  destruct a as [op|ok|i net ok|i]; [discriminate Hnc| | |]; cbn [step] in Hstep.
  - unfold stepMain in Hstep.
    destruct (mainPc s) as [|cur|r cur|r cur| | |] eqn:Hpc; try discriminate Hstep.
    + destruct cur as [|r cur]; [|destruct ok]; injection Hstep as <-;
        cbn [setMain setWg mainPc workers inHand]; (split; [exact Hn|]);
        try (left; reflexivity).
      right. split; [reflexivity|].
      exists (drop n0 (job <$> workers s)), r, cur. split; reflexivity.
    + destruct (sem s <? concurrency)%nat; [|discriminate Hstep].
      injection Hstep as <-. split; [exact Hn|]. left. reflexivity.
    + injection Hstep as <-. cbn [setMain setWorkers mainPc workers inHand].
      rewrite length_app. split; [lia|]. left.
      rewrite fmap_app, drop_app_le by (rewrite length_fmap; exact Hn).
      now rewrite <- app_assoc.
    + destruct (wg s =? 0)%nat; [|discriminate Hstep].
      injection Hstep as <-. split; [exact Hn|]. left. reflexivity.
    + injection Hstep as <-. unfold exec, logSql, setTable.
      destruct ok; split; try exact Hn; left; reflexivity.
    + injection Hstep as <-. split; [exact Hn|]. left. reflexivity.
  - unfold stepWorker in Hstep.
    destruct (workers s !! i) as [[r pc err]|] eqn:Hi; [|discriminate Hstep].
    cbn [job wpc sendErr] in Hstep.
    assert (K' : forall x w', s' = setWorkers (<[i := w']> (workers s)) x ->
              mainPc x = mainPc s -> job w' = r ->
              (n0 <= length (workers s'))%nat /\
              (drop n0 (job <$> workers s') ++ inHand (mainPc s') =
               drop n0 (job <$> workers s) ++ inHand (mainPc s) \/
               scansOk (Work i net ok) = false /\
               exists pre r0 post,
                 drop n0 (job <$> workers s) ++ inHand (mainPc s) = pre ++ r0 :: post /\
                 drop n0 (job <$> workers s') ++ inHand (mainPc s') = pre ++ post)).
    { intros x w' -> Em Hj. cbn [setWorkers workers mainPc]. rewrite Em.
      rewrite length_insert. split; [exact Hn|]. left.
      now rewrite (jobs_insert _ _ _ _ Hi Hj). }
    destruct pc; try discriminate Hstep.
    + injection Hstep as <-. eapply K'; reflexivity.
    + injection Hstep as <-. eapply K'; reflexivity.
    + injection Hstep as <-. eapply K'; reflexivity.
    + unfold exec, logSql, setTable in Hstep.
      destruct ok; injection Hstep as <-; eapply K'; reflexivity.
    + destruct (listeners s) as [|[| |] ls]; try discriminate Hstep.
      injection Hstep as <-. eapply K'; reflexivity.
    + injection Hstep as <-. eapply K'; reflexivity.
    + injection Hstep as <-. eapply K'; reflexivity.
    + injection Hstep as <-. eapply K'; reflexivity.
  - unfold stepListener in Hstep.
    destruct (listeners s !! i) as [[| |num den]|]; try discriminate Hstep;
      injection Hstep as <-; (split; [exact Hn|]); left; reflexivity.
Qed.

Lemma run_dispatched (n0 : nat) (sched : list Action) (s : State) :
  forallb noClick sched = true -> (n0 <= length (workers s))%nat ->
  dispatched n0 (run sched s) `sublist_of` dispatched n0 s /\
  (forallb scansOk sched = true -> dispatched n0 (run sched s) = dispatched n0 s).
Proof.
  revert s. induction sched as [|a sched IH]; intros s Hnc Hn; [now split|].
  cbn [forallb] in Hnc. apply andb_prop in Hnc as [Ha Hnc].
  destruct (step a s) as [s'|] eqn:E.
  - rewrite (run_cons_Some _ _ _ _ E).
    destruct (step_dispatched n0 a s s' Ha Hn E) as (Hn' & Hd).
    destruct (IH s' Hnc Hn') as [Hsub Heq]. split.
    + etransitivity; [exact Hsub|].
      destruct Hd as [->|(_ & pre & r & post & -> & ->)]; [reflexivity|].
      apply sublist_app; [reflexivity|]. now apply sublist_cons.
    + cbn [forallb]. intros [Hs Hss]%andb_prop. rewrite (Heq Hss).
      destruct Hd as [->|(Hf & _)]; [reflexivity|congruence].
  - rewrite (run_cons_None _ _ _ E). destruct (IH s Hnc Hn) as [Hsub Heq].
    split; [exact Hsub|]. cbn [forallb]. intros [_ Hss]%andb_prop. exact (Heq Hss).
Qed.

(** X12: during a run, the workers are started for rows that were pending
    when Send was pressed, in the order of the table, and never two for
    the same row of the cursor: the rows of the workers started so far,
    followed by the rows still to come, are a sublist of the pending rows.
    As long as no [rows.Scan] fails they are exactly the pending rows, so
    that once the loop is over every pending row has got its worker. *)
Theorem X12_one_worker_per_pending_row (s0 : State) (sched : list Action) :
  mainPc s0 = MIdle -> forallb noClick sched = true ->
  let s := run (Click (SendEmails true true) :: sched) s0 in
  let started := drop (length (workers s0)) (job <$> workers s) in
  started ++ inHand (mainPc s) `sublist_of` selectPending (table s0) /\
  (forallb scansOk sched = true ->
     started ++ inHand (mainPc s) = selectPending (table s0)) /\
  (forallb scansOk sched = true -> inHand (mainPc s) = [] ->
     started = selectPending (table s0)).
Proof.
  intros Hpc Hnc s started.
  set (s1 := sendEmailsStart true true s0).
  assert (E1 : s = run sched s1).
  { subst s. apply run_cons_Some. cbn [step]. unfold stepUser. now rewrite Hpc. }
  assert (D1 : dispatched (length (workers s0)) s1 = selectPending (table s0)).
  { unfold dispatched, s1, sendEmailsStart. cbn [negb].
    match goal with |- context [if ?b then _ else _] => destruct b eqn:Ez end;
      cbn [show setMain setSem setWg setListeners setGlobals logSql workers mainPc];
      rewrite drop_ge by (rewrite length_fmap; reflexivity).
    - rewrite Hpc. cbn [inHand app].
      cbn [setGlobals logSql globals setTotalEmails totalEmails table] in Ez.
      apply Z.eqb_eq in Ez. unfold countPending in Ez.
      destruct (selectPending (table s0)); [reflexivity|discriminate Ez].
    - reflexivity. }
  assert (W1 : (length (workers s0) <= length (workers s1))%nat).
  { unfold s1, sendEmailsStart. cbn [negb].
    match goal with |- context [if ?b then _ else _] => destruct b end; reflexivity. }
  destruct (run_dispatched (length (workers s0)) sched s1 Hnc W1) as [Hsub Heq].
  rewrite <- E1, D1 in Hsub, Heq. unfold dispatched in Hsub, Heq. fold started in Hsub, Heq.
  split; [exact Hsub|]. split; [exact Heq|].
  intros Hs Hh. specialize (Heq Hs). rewrite Hh, app_nil_r in Heq. exact Heq.
Qed.

Lemma X12_one_worker_per_pending_row_witness :
  drop 0 (job <$> workers (run (Click (SendEmails true true) :: launch 2 ++ [Main true])
                               (run [Click (LoadRecipients [bob; bob]);
                                     Click (QueueEmails (fun _ => true))] (init 0)))) =
  [mkRow 1 "Alice" "Bob" "bob@x.org" "" "" "pending";
   mkRow 2 "Alice" "Bob" "bob@x.org" "" "" "pending"].
Proof.
  refine (proj2 (proj2 (X12_one_worker_per_pending_row
            (run [Click (LoadRecipients [bob; bob]); Click (QueueEmails (fun _ => true))]
                 (init 0))
            (launch 2 ++ [Main true]) eq_refl eq_refl)) eq_refl eq_refl).
Defined.

(** ** The progress events *)

Lemma tally_app {A : Type} (p : A -> bool) (a b : list A) :
  tally p (a ++ b) = (tally p a + tally p b)%nat.
Proof. unfold tally. now rewrite List.filter_app, List.length_app. Qed.

Lemma tally_cons {A : Type} (p : A -> bool) (x : A) (l : list A) :
  tally p (x :: l) = ((if p x then 1 else 0) + tally p l)%nat.
Proof. unfold tally. cbn [List.filter]. now destruct (p x). Qed.

Lemma tally_insert {A : Type} (p : A -> bool) (l : list A) (i : nat) (x y : A) :
  l !! i = Some x ->
  (tally p (<[i := y]> l) + (if p x then 1 else 0) =
   tally p l + (if p y then 1 else 0))%nat.
Proof.
  revert i. induction l as [|z l IH]; intros i Hi; [discriminate Hi|].
  destruct i as [|i]; simpl in Hi.
  - injection Hi as ->. clear IH. simpl. rewrite !tally_cons.
    destruct (p x), (p y); lia.
  - specialize (IH i Hi). simpl. rewrite !tally_cons. lia.
Qed.

Lemma tally_none {A : Type} (p : A -> bool) (l : list A) :
  (forall x, In x l -> p x = false) -> tally p l = 0%nat.
Proof.
  induction l as [|x l IH]; intros H; [reflexivity|].
  rewrite tally_cons, (H x) by now left. apply IH. intros y Hy. apply H. now right.
Qed.

Lemma tally_all {A : Type} (p : A -> bool) (l : list A) :
  (forall x, In x l -> p x = true) -> tally p l = length l.
Proof.
  induction l as [|x l IH]; intros H; [reflexivity|].
  rewrite tally_cons, (H x) by now left. cbn [length Nat.add]. f_equal.
  apply IH. intros y Hy. apply H. now right.
Qed.

Lemma progress_init (seq0 : Z) : ProgressInv (init seq0).
Proof. constructor; reflexivity. Qed.

Lemma progress_step (a : Action) (s s' : State) :
  ProgressInv s -> step a s = Some s' -> ProgressInv s'.
Proof.
  intros [Hb Ht] Hstep.
  destruct a as [op|ok|i net ok|i]; cbn [step] in Hstep.
  - unfold stepUser in Hstep.
    destruct (mainPc s); try discriminate Hstep. injection Hstep as <-.
    destruct op as [cfg|rs|subj bod|f|q c]; try (constructor; assumption).
    + unfold queueEmails.
      destruct (queueLoop_frame (recipients (globals s)) 0 f s) as (_ & U & _ & W & _ & _ & L).
      constructor; cbn [show ui workers listeners]; rewrite ?U, ?W, ?L, ?tally_cons;
        cbn [isBarSetValue isResultProgress Nat.add]; assumption.
    + unfold sendEmailsStart.
      destruct q; cbn [negb];
        [|constructor; cbn [show logSql ui workers listeners]; rewrite ?tally_cons;
          cbn [isBarSetValue isResultProgress Nat.add]; assumption].
      destruct c; cbn [negb];
        [|constructor; cbn [show logSql ui workers listeners]; rewrite ?tally_cons;
          cbn [isBarSetValue isResultProgress Nat.add]; assumption].
      match goal with |- context [if ?b then _ else _] => destruct b end;
        constructor;
        cbn [show logSql setGlobals setMain setSem setWg setListeners ui workers listeners];
        rewrite ?tally_cons; cbn [isBarSetValue isResultProgress computing publishing Nat.add];
        assumption.
  - unfold stepMain in Hstep.
    destruct (mainPc s) as [|cur|r cur|r cur| | |]; try discriminate Hstep.
    + destruct cur as [|r cur]; [|destruct ok]; injection Hstep as <-;
        constructor; assumption.
    + destruct (sem s <? concurrency)%nat; [|discriminate Hstep].
      injection Hstep as <-. constructor; assumption.
    + injection Hstep as <-. constructor; cbn [setMain setWorkers ui workers listeners];
        rewrite ?tally_app, ?tally_cons; cbn [notified wpc]; [|assumption].
      change (tally notified []) with 0%nat. lia.
    + destruct (wg s =? 0)%nat; [|discriminate Hstep].
      injection Hstep as <-. constructor; assumption.
    + injection Hstep as <-. unfold exec, logSql, setTable.
      destruct ok; constructor; assumption.
    + injection Hstep as <-. constructor; cbn [setMain show ui workers listeners];
        rewrite ?tally_cons; cbn [isBarSetValue isResultProgress Nat.add]; assumption.
  - unfold stepWorker in Hstep.
    destruct (workers s !! i) as [[r pc err]|] eqn:Hi; [|discriminate Hstep].
    cbn [job wpc sendErr] in Hstep.
    assert (T := fun w' => tally_insert notified (workers s) i _ w' Hi).
    destruct pc; try discriminate Hstep.
    + injection Hstep as <-. constructor; cbn [setWorkers ui workers listeners]; [|assumption].
      specialize (T (mkWorker r WLoad
         (fst (sendEmail (smtpConfig (globals s)) (recipient_email r) (recipient_name r)
                 (sender_name r) (subject r) (body r) net)))).
      cbn in T. lia.
    + injection Hstep as <-. constructor; cbn [setWorkers ui workers listeners]; [|assumption].
      specialize (T (mkWorker r (WStore (counterOf err (globals s))) err)). cbn in T. lia.
    + injection Hstep as <-.
      constructor; cbn [setWorkers setGlobals ui workers listeners]; [|assumption].
      specialize (T (mkWorker r WUpdate err)). cbn in T. lia.
    + unfold exec, logSql, setTable in Hstep.
      specialize (T (mkWorker r WNotify err)). cbn in T.
      destruct ok; injection Hstep as <-;
        (constructor; cbn [setWorkers ui workers listeners]; [lia|assumption]).
    + destruct (listeners s) as [|[| |] ls] eqn:Hl; try discriminate Hstep.
      injection Hstep as <-.
      specialize (T (mkWorker r WSleep err)). cbn in T.
      rewrite !tally_cons in Hb, Ht. cbn [computing publishing] in Hb, Ht.
      constructor; cbn [setWorkers setListeners ui workers listeners];
        rewrite ?tally_cons; cbn [computing publishing]; lia.
    + injection Hstep as <-. constructor; cbn [setWorkers ui workers listeners]; [|assumption].
      specialize (T (mkWorker r WRelease err)). cbn in T. lia.
    + injection Hstep as <-.
      constructor; cbn [setWorkers setSem ui workers listeners]; [|assumption].
      specialize (T (mkWorker r WDone err)). cbn in T. lia.
    + injection Hstep as <-.
      constructor; cbn [setWorkers setWg ui workers listeners]; [|assumption].
      specialize (T (mkWorker r WExit err)). cbn in T. lia.
  - unfold stepListener in Hstep.
    destruct (listeners s !! i) as [[| |num den]|] eqn:Hi; try discriminate Hstep;
      injection Hstep as <-.
    + pose proof (tally_insert computing (listeners s) i _
                    (LPublish (wrap (successCount (globals s) + failureCount (globals s)))
                              (totalEmails (globals s))) Hi) as C.
      pose proof (tally_insert publishing (listeners s) i _
                    (LPublish (wrap (successCount (globals s) + failureCount (globals s)))
                              (totalEmails (globals s))) Hi) as P.
      cbn in C, P.
      constructor; cbn [setListeners show ui workers listeners]; rewrite ?tally_cons;
        cbn [isBarSetValue isResultProgress]; lia.
    + pose proof (tally_insert computing (listeners s) i _ LRecv Hi) as C.
      pose proof (tally_insert publishing (listeners s) i _ LRecv Hi) as P.
      cbn in C, P.
      constructor; cbn [setListeners show ui workers listeners]; rewrite ?tally_cons;
        cbn [isBarSetValue isResultProgress]; lia.
Qed.

Lemma progress_run (sched : list Action) (seq0 : Z) : ProgressInv (run sched (init seq0)).
Proof.
  apply run_invariant; [|apply progress_init].
  intros a s s'. apply progress_step.
Qed.

(** X13: every progress event a worker has sent on [updateChan] is shown
    exactly once on the progress bar and exactly once on the result label,
    or is still in the hands of a listener that is about to show it: along
    every execution the number of [SetValue] calls of the listeners plus
    the listeners that have received an event and not yet called it is the
    number of workers past their channel send, and likewise for the
    [SetText] calls after the [SetValue] calls. No event is lost or shown
    twice. *)
Theorem X13_every_progress_event_shown_once (sched : list Action) (seq0 : Z) :
  let s := run sched (init seq0) in
  (tally isBarSetValue (ui s) + tally computing (listeners s) =
   tally notified (workers s))%nat /\
  (tally isResultProgress (ui s) + tally publishing (listeners s) =
   tally isBarSetValue (ui s))%nat.
Proof.
  intros s. destruct (progress_run sched seq0) as [Hb Ht]. split; assumption.
Qed.

(** ** No deadlock *)

Lemma weight_app {A : Type} (f : A -> nat) (a b : list A) :
  weight f (a ++ b) = (weight f a + weight f b)%nat.
Proof. unfold weight. now rewrite List.map_app, list_sum_app. Qed.

Lemma weight_cons {A : Type} (f : A -> nat) (x : A) (l : list A) :
  weight f (x :: l) = (f x + weight f l)%nat.
Proof. reflexivity. Qed.

Lemma weight_insert {A : Type} (f : A -> nat) (l : list A) (i : nat) (x y : A) :
  l !! i = Some x ->
  (weight f (<[i := y]> l) + f x = weight f l + f y)%nat.
Proof.
  revert i. induction l as [|z l IH]; intros i Hi; [discriminate Hi|].
  destruct i as [|i]; simpl in Hi.
  - injection Hi as ->. clear IH. unfold weight. simpl. lia.
  - specialize (IH i Hi). unfold weight in *. simpl. lia.
Qed.

Lemma exited_or_live (ws : list Worker) :
  (forall w, In w ws -> wpc w = WExit) \/
  (exists i w, ws !! i = Some w /\ wpc w <> WExit).
Proof.
  induction ws as [|x ws IH]; [left; intros w []|].
  destruct (wpc x) eqn:E;
    try (right; exists 0%nat, x; split; [reflexivity|rewrite E; discriminate]).
  destruct IH as [IH|(i & w & Hi & Hw)].
  - left. intros w [<-|Hw]; [exact E|exact (IH w Hw)].
  - right. exists (S i), w. split; assumption.
Qed.

Lemma count_none (p : Worker -> bool) (ws : list Worker) :
  (forall w, In w ws -> p w = false) -> count p ws = 0%nat.
Proof.
  induction ws as [|x ws IH]; intros H; [reflexivity|].
  unfold count in *. simpl. rewrite (H x) by now left.
  apply IH. intros w Hw. apply H. now right.
Qed.

Lemma listen_init (seq0 : Z) : ListenInv (init seq0).
Proof. intros H. now contradiction H. Qed.

Lemma listen_step (a : Action) (s s' : State) :
  ListenInv s -> step a s = Some s' -> ListenInv s'.
Proof.
  unfold ListenInv. intros I Hstep.
  destruct a as [op|ok|i net ok|i]; cbn [step] in Hstep.
  - unfold stepUser in Hstep.
    destruct (mainPc s) eqn:Hpc; try discriminate Hstep. injection Hstep as <-.
    destruct op as [cfg|rs|subj bod|f|q c]; cbn; try (rewrite Hpc; congruence).
    + destruct (queueLoop_frame (recipients (globals s)) 0 f s) as (_ & _ & M & _).
      rewrite M, Hpc. congruence.
    + unfold sendEmailsStart.
      destruct q; cbn [negb]; [|cbn; rewrite Hpc; congruence].
      destruct c; cbn [negb]; [|cbn; rewrite Hpc; congruence].
      match goal with |- context [if ?b then _ else _] => destruct b end;
        cbn; [rewrite Hpc; congruence|discriminate].
  - unfold stepMain in Hstep.
    destruct (mainPc s) as [|cur|r cur|r cur| | |] eqn:Hpc; try discriminate Hstep;
      assert (L : listeners s <> []) by (apply I; discriminate).
    + destruct cur as [|r cur]; [|destruct ok]; injection Hstep as <-; intros _; exact L.
    + destruct (sem s <? concurrency)%nat; [|discriminate Hstep].
      injection Hstep as <-. intros _. exact L.
    + injection Hstep as <-. intros _. exact L.
    + destruct (wg s =? 0)%nat; [|discriminate Hstep].
      injection Hstep as <-. intros _. exact L.
    + injection Hstep as <-. intros _. unfold exec, logSql, setTable.
      destruct ok; exact L.
    + injection Hstep as <-. intros _. exact L.
  - unfold stepWorker in Hstep.
    destruct (workers s !! i) as [[r pc err]|] eqn:Hi; [|discriminate Hstep].
    cbn [job wpc sendErr] in Hstep.
    destruct pc; try discriminate Hstep;
      try (injection Hstep as <-; exact I).
    + unfold exec, logSql, setTable in Hstep. destruct ok; injection Hstep as <-; exact I.
    + destruct (listeners s) as [|[| |] ls]; try discriminate Hstep.
      injection Hstep as <-. intros _. discriminate.
  - unfold stepListener in Hstep.
    destruct (listeners s !! i) as [[| |num den]|] eqn:Hi; try discriminate Hstep;
      injection Hstep as <-; intros _ H; cbn [setListeners show listeners] in H;
      apply (f_equal length) in H; rewrite length_insert in H;
      (destruct (listeners s); [simpl in Hi; discriminate Hi|discriminate H]).
Qed.

(** Every step of a goroutine brings the end of the run nearer. *)
Lemma step_decreases (a : Action) (s s' : State) :
  noClick a = true -> step a s = Some s' -> (remaining s' < remaining s)%nat.
Proof.
  intros Ha Hstep. unfold remaining.
  destruct a as [op|ok|i net ok|i]; [discriminate Ha| | |]; cbn [step] in Hstep.
  - unfold stepMain in Hstep.
    destruct (mainPc s) as [|cur|r cur|r cur| | |]; try discriminate Hstep.
    + destruct cur as [|r cur]; [|destruct ok]; injection Hstep as <-;
        cbn [setMain setWg mainPc workers listeners mcost length]; lia.
    + destruct (sem s <? concurrency)%nat; [|discriminate Hstep].
      injection Hstep as <-. cbn [setMain setSem mainPc workers listeners mcost]. lia.
    + injection Hstep as <-. cbn [setMain setWorkers mainPc workers listeners mcost].
      rewrite weight_app. change (weight wcost [mkWorker r WSend None]) with 11%nat. lia.
    + destruct (wg s =? 0)%nat; [|discriminate Hstep].
      injection Hstep as <-. cbn [setMain mainPc workers listeners mcost]. lia.
    + injection Hstep as <-. unfold exec, logSql, setTable.
      destruct ok; cbn [setMain mainPc workers listeners mcost]; lia.
    + injection Hstep as <-. cbn [setMain show mainPc workers listeners mcost]. lia.
  - unfold stepWorker in Hstep.
    destruct (workers s !! i) as [[r pc err]|] eqn:Hi; [|discriminate Hstep].
    cbn [job wpc sendErr] in Hstep.
    pose proof (fun w' => weight_insert wcost (workers s) i _ w' Hi) as T.
    destruct pc; try discriminate Hstep.
    5: destruct (listeners s) as [|[| |] ls] eqn:Hl; try discriminate Hstep.
    all: unfold exec, logSql, setTable in Hstep; try destruct ok; injection Hstep as <-;
      cbn [setWorkers setGlobals setListeners setSem setWg mainPc workers listeners];
      rewrite ?weight_cons;
      match goal with
      | |- context [weight wcost (<[_ := ?w']> _)] =>
          specialize (T w'); cbv [wcost wpc] in T |- *
      end;
      cbn [lcost]; lia.
  - unfold stepListener in Hstep.
    destruct (listeners s !! i) as [[| |num den]|] eqn:Hi; try discriminate Hstep;
      injection Hstep as <-; cbn [setListeners show mainPc workers listeners];
      match goal with
      | |- context [weight lcost (<[i := ?l']> _)] =>
          pose proof (weight_insert lcost (listeners s) i _ l' Hi) as T; cbn [lcost] in T
      end; lia.
Qed.

(** As long as [sendEmails] has not returned, one of its goroutines can
    take a step. *)
Lemma run_progress (s : State) :
  PoolInv s -> ListenInv s -> mainPc s <> MIdle ->
  exists a s', noClick a = true /\ step a s = Some s'.
Proof.
  intros [Hsem Hb Hwg Hq] I Hpc. specialize (I Hpc).
  destruct (listeners s) as [|l ls] eqn:Hl; [now contradiction I|]. clear I.
  destruct l as [| |num den].
  - (* the listener waits for an event *)
    destruct (exited_or_live (workers s)) as [Hall|(i & [r pc err] & Hi & Hw)].
    + (* every worker has returned: [sendEmails] moves *)
      assert (Hh : count holding (workers s) = 0%nat)
        by (apply count_none; intros w Hw; unfold holding; now rewrite (Hall w Hw)).
      assert (Hlv : count live (workers s) = 0%nat)
        by (apply count_none; intros w Hw; unfold live; now rewrite (Hall w Hw)).
      exists (Main true). cbn [step]. unfold stepMain.
      destruct (mainPc s) as [|cur|r cur|r cur| | |] eqn:Em; [now contradiction Hpc| | | | | |].
      * destruct cur as [|r cur]; eexists; split; reflexivity.
      * cbn [spawnSlot] in Hsem. rewrite Hh in Hsem.
        replace (sem s <? concurrency)%nat with true
          by (symmetry; apply Nat.ltb_lt; rewrite Hsem; unfold concurrency; lia).
        eexists; split; reflexivity.
      * eexists; split; reflexivity.
      * cbn [pendingAdd] in Hwg. rewrite Hlv in Hwg. rewrite Hwg. cbn [Nat.eqb Nat.add].
        eexists; split; reflexivity.
      * eexists; split; reflexivity.
      * eexists; split; reflexivity.
    + (* some worker has not returned: it moves *)
      cbn [wpc] in Hw.
      exists (Work i (netAll true) true). cbn [step]. unfold stepWorker.
      rewrite Hi. cbn [job wpc sendErr]. rewrite Hl.
      destruct pc; [| | | | | | | |now contradiction Hw]; eexists; split; reflexivity.
  - (* the listener holds an event: it calls [SetValue] *)
    exists (Listen 0). cbn [step]. unfold stepListener. rewrite Hl.
    eexists; split; reflexivity.
  - (* the listener has called [SetValue]: it calls [SetText] *)
    exists (Listen 0). cbn [step]. unfold stepListener. rewrite Hl.
    eexists; split; reflexivity.
Qed.

Lemma run_to_the_end (n : nat) (s : State) :
  (remaining s <= n)%nat -> PoolInv s -> ListenInv s ->
  exists more,
    forallb noClick more = true /\
    taken more s = length more /\
    mainPc (run more s) = MIdle.
Proof.
  revert s. induction n as [|n IH]; intros s Hn P I.
  - exists []. assert (E : mainPc s = MIdle).
    { unfold remaining in Hn. destruct (mainPc s); cbn [mcost] in Hn; try lia. reflexivity. }
    repeat split. exact E.
  - destruct (mainPc s) eqn:E.
    1: { exists []. repeat split. exact E. }
    all: destruct (run_progress s P I) as (a & s' & Ha & Hs);
      [rewrite E; discriminate|].
    all: pose proof (pool_step a s s' P Hs) as P';
      pose proof (listen_step a s s' I Hs) as I';
      pose proof (step_decreases a s s' Ha Hs) as Hlt.
    all: destruct (IH s') as (more & Hm & Ht & Hidle); [lia|exact P'|exact I'|];
      exists (a :: more); cbn [forallb taken length];
      rewrite Ha, Hm, Hs, Ht, (run_cons_Some a more s s' Hs);
      (split; [reflexivity|]); (split; [reflexivity|exact Hidle]).
Qed.

Lemma listen_run (sched : list Action) (seq0 : Z) : ListenInv (run sched (init seq0)).
Proof.
  apply run_invariant; [|apply listen_init].
  intros a s s'. apply listen_step.
Qed.

(** X14: the goroutines of a run wait for each other only as long as a
    delivery is awaited. From every state an execution reaches, if the
    calls of [sendEmail] in flight return, the goroutines alone (no
    further click) can take steps, none of them blocked, that make
    [sendEmails] return; and whenever [sendEmails] is running and no
    delivery is in flight, some goroutine can take a step. The semaphore,
    the wait group and the unbuffered [updateChan] never block each other
    for good: a run that hangs hangs in a call of [sendEmail]. *)
Theorem X14_run_waits_only_for_deliveries (sched : list Action) (seq0 : Z) :
  let s := run sched (init seq0) in
  (exists more,
     forallb noClick more = true /\
     taken more s = length more /\
     mainPc (run more s) = MIdle) /\
  (running (mainPc s) = true -> inFlight s = 0%nat ->
   exists a s', noClick a = true /\ step a s = Some s').
Proof.
  intros s. split.
  - destruct (run_to_the_end (remaining s) s (Nat.le_refl _) (pool_run sched seq0)
                (listen_run sched seq0)) as (more & Hm & Ht & Hi).
    exists more. repeat split; assumption.
  - intros Hr _.
    destruct (run_progress s (pool_run sched seq0) (listen_run sched seq0))
      as (a & s' & Ha & Hs).
    + intros E. rewrite E in Hr. discriminate Hr.
    + exists a, s'. split; assumption.
Qed.

Lemma X14_run_waits_only_for_deliveries_witness :
  exists a s', noClick a = true /\ step a (run (batch 1) (init 0)) = Some s'.
Proof.
  exact (proj2 (X14_run_waits_only_for_deliveries (batch 1) 0) eq_refl eq_refl).
Defined.

(** X15: no goroutine of a run loops. Whatever the outcomes of the
    deliveries and of the database statements, and in whatever order the
    goroutines are scheduled, they take at most [remaining s] steps from a
    state [s] as long as no button is clicked, the return of a call of
    [sendEmail] counting as one step: at most 15 for each row the cursor
    has still to yield (the steps of its worker included), 11 for each
    worker already started, 2 for each listener, and 4 to wait, purge and
    report. A run that does not end is waiting, not busy. *)
Theorem X15_goroutines_take_boundedly_many_steps (sched : list Action) (s : State) :
  forallb noClick sched = true ->
  (taken sched s <= remaining s)%nat.
Proof.
  revert s. induction sched as [|a sched IH]; intros s H; cbn [taken]; [lia|].
  cbn [forallb] in H. apply andb_prop in H as [Ha H].
  destruct (step a s) as [s'|] eqn:E; [|exact (IH s H)].
  pose proof (step_decreases a s s' Ha E). specialize (IH s' H). lia.
Qed.

Lemma X15_goroutines_take_boundedly_many_steps_witness :
  forallb noClick (launch 1 ++ [Main true] ++ serve 0 (netAll false) ++ finish) = true /\
  (taken (launch 1 ++ [Main true] ++ serve 0 (netAll false) ++ finish)
         (run (batch 1) (init 0)) <=
   remaining (run (batch 1) (init 0)))%nat.
Proof.
  split; [reflexivity|].
  apply X15_goroutines_take_boundedly_many_steps. reflexivity.
Defined.

(** ** The primary key *)

Lemma sorted_snoc (l : list Z) (x : Z) :
  StronglySorted Z.lt l -> Forall (fun y => y < x) l -> StronglySorted Z.lt (l ++ [x]).
Proof.
  induction 1 as [|y l Hs IH Hy]; intros Hx; cbn [app].
  - constructor; constructor.
  - inversion Hx as [|? ? Hyx Hlx]; subst. constructor; [exact (IH Hlx)|].
    apply Forall_app. split; [exact Hy|]. constructor; [exact Hyx|constructor].
Qed.

Lemma sorted_NoDup (l : list Z) : StronglySorted Z.lt l -> NoDup l.
Proof.
  induction 1 as [|y l Hs IH Hy]; constructor; [|exact IH].
  intros Hin%list_elem_of_In. rewrite List.Forall_forall in Hy.
  specialize (Hy y Hin). lia.
Qed.

Lemma key_insert (t : Table) (rc : Recipient) (subj bod : string) :
  KeyInv t -> KeyInv (insertRow (newRow t rc subj bod) t).
Proof.
  intros [Hs Hb]. rewrite List.Forall_forall in Hb.
  constructor; unfold insertRow; cbn [rows seq newRow id].
  - rewrite List.map_app. cbn [List.map id]. apply sorted_snoc; [exact Hs|].
    apply List.Forall_forall. intros y Hy. apply List.in_map_iff in Hy as (r & <- & Hr).
    specialize (Hb r Hr). cbn [newRow id]. lia.
  - apply List.Forall_forall. intros r Hr. apply List.in_app_iff in Hr as [Hr|[<-|[]]].
    + specialize (Hb r Hr). cbn [newRow id]. lia.
    + cbn [newRow id]. lia.
Qed.

Lemma key_update (t : Table) (v : string) (i : Z) : KeyInv t -> KeyInv (updateStatus v i t).
Proof.
  intros [Hs Hb]. rewrite List.Forall_forall in Hb.
  assert (E : forall r, id (if id r =? i then setStatus v r else r) = id r)
    by (intros r; now destruct (id r =? i)).
  constructor; unfold updateStatus; cbn [rows seq].
  - rewrite List.map_map. erewrite List.map_ext; [exact Hs|exact E].
  - apply List.Forall_forall. intros r' Hr. apply List.in_map_iff in Hr as (r & <- & Hr).
    rewrite E. exact (Hb r Hr).
Qed.

Lemma key_delete (t : Table) : KeyInv (deleteAll t).
Proof. constructor; cbn; constructor. Qed.

Lemma queueLoop_key (rs : list Recipient) (k : nat) (f : nat -> bool) (s : State) :
  KeyInv (table s) -> KeyInv (table (queueLoop rs k f s)).
Proof.
  revert k s. induction rs as [|rc rs IH]; intros k s K; [exact K|].
  cbn [queueLoop]. apply IH. unfold exec, logSql, setTable.
  destruct (f k); cbn [table]; [now apply key_insert|exact K].
Qed.

Lemma key_step (a : Action) (s s' : State) :
  KeyInv (table s) -> step a s = Some s' -> KeyInv (table s').
Proof.
  intros K Hstep.
  destruct a as [op|ok|i net ok|i]; cbn [step] in Hstep.
  - unfold stepUser in Hstep.
    destruct (mainPc s); try discriminate Hstep. injection Hstep as <-.
    destruct op as [cfg|rs|subj bod|f|q c]; try exact K.
    + unfold queueEmails. cbn [show table]. now apply queueLoop_key.
    + unfold sendEmailsStart.
      destruct q; cbn [negb]; [|exact K].
      destruct c; cbn [negb]; [|exact K].
      match goal with |- context [if ?b then _ else _] => destruct b end; exact K.
  - unfold stepMain in Hstep.
    destruct (mainPc s) as [|cur|r cur|r cur| | |]; try discriminate Hstep.
    + destruct cur as [|r cur]; [|destruct ok]; injection Hstep as <-; exact K.
    + destruct (sem s <? concurrency)%nat; [|discriminate Hstep].
      injection Hstep as <-. exact K.
    + injection Hstep as <-. exact K.
    + destruct (wg s =? 0)%nat; [|discriminate Hstep].
      injection Hstep as <-. exact K.
    + injection Hstep as <-. unfold exec, logSql, setTable.
      destruct ok; cbn [setMain table]; [apply key_delete|exact K].
    + injection Hstep as <-. exact K.
  - unfold stepWorker in Hstep.
    destruct (workers s !! i) as [[r pc err]|] eqn:Hi; [|discriminate Hstep].
    cbn [job wpc sendErr] in Hstep.
    destruct pc; try discriminate Hstep;
      try (injection Hstep as <-; exact K).
    + unfold exec, logSql, setTable in Hstep.
      destruct ok; injection Hstep as <-; cbn [setWorkers table];
        [now apply key_update|exact K].
    + destruct (listeners s) as [|[| |] ls]; try discriminate Hstep.
      injection Hstep as <-. exact K.
  - unfold stepListener in Hstep.
    destruct (listeners s !! i) as [[| |num den]|]; try discriminate Hstep;
      injection Hstep as <-; exact K.
Qed.

Lemma key_run (sched : list Action) (seq0 : Z) : KeyInv (table (run sched (init seq0))).
Proof.
  apply (run_invariant (fun s => KeyInv (table s))).
  - intros a s s'. apply key_step.
  - constructor; cbn; constructor.
Qed.

Lemma update_one_row (l : list Row) (k : nat) (r : Row) (v : string) :
  NoDup (map id l) -> l !! k = Some r ->
  map (fun x => if id x =? id r then setStatus v x else x) l = <[k := setStatus v r]> l.
Proof.
  revert k. induction l as [|x l IH]; intros k Hn Hk; [discriminate Hk|].
  cbn [List.map] in Hn. apply NoDup_cons in Hn as [Hx Hn].
  rewrite list_elem_of_In in Hx.
  destruct k as [|k]; simpl in Hk; cbn [List.map].
  - injection Hk as ->. rewrite Z.eqb_refl. simpl. f_equal.
    clear IH Hn. induction l as [|y l IH]; [reflexivity|].
    cbn [List.map] in *.
    destruct (Z.eqb_spec (id y) (id r)) as [E|_]; [exfalso; apply Hx; now left|].
    f_equal. apply IH. intros Hin. apply Hx. now right.
  - destruct (Z.eqb_spec (id x) (id r)) as [E|_].
    + exfalso. apply Hx. rewrite E. apply List.in_map.
      apply list_elem_of_In. exact (list_elem_of_lookup_2 _ _ _ Hk).
    + simpl. f_equal. exact (IH k Hn Hk).
Qed.

(** X16: the ids that AUTOINCREMENT gives are a key. Along every execution
    the ids of the rows grow strictly along the table, so no two rows have
    the same id, and the [UPDATE ... WHERE id = ?] of a worker changes the
    status of the one row with that id and nothing else. *)
Theorem X16_update_changes_one_row (sched : list Action) (seq0 : Z)
    (k : nat) (r : Row) (v : string) :
  let t := table (run sched (init seq0)) in
  rows t !! k = Some r ->
  StronglySorted Z.lt (map id (rows t)) /\
  NoDup (map id (rows t)) /\
  updateStatus v (id r) t = mkTable (<[k := setStatus v r]> (rows t)) (seq t).
Proof.
  intros t Hk. destruct (key_run sched seq0) as [Hs _]. fold t in Hs.
  pose proof (sorted_NoDup _ Hs) as Hn.
  repeat split; [exact Hs|exact Hn|].
  unfold updateStatus. f_equal. now apply update_one_row.
Qed.

Lemma X16_update_changes_one_row_witness :
  rows (table (run (batch 2) (init 0))) !! 1%nat =
    Some (mkRow 2 "Alice" "Bob" "bob@x.org" "" "" "pending") /\
  updateStatus "sent" 2 (table (run (batch 2) (init 0))) =
    mkTable (<[1%nat := mkRow 2 "Alice" "Bob" "bob@x.org" "" "" "sent"]>
               (rows (table (run (batch 2) (init 0))))) 2.
Proof.
  split; [reflexivity|].
  exact (proj2 (proj2 (X16_update_changes_one_row (batch 2) 0 1
           (mkRow 2 "Alice" "Bob" "bob@x.org" "" "" "pending") "sent" eq_refl))).
Defined.

(** ** The listeners that stay behind *)

Lemma leak_step (a : Action) (s s' : State) :
  length (listeners s) =
    (tally isResultCompleted (ui s) + (if running (mainPc s) then 1 else 0))%nat ->
  step a s = Some s' ->
  length (listeners s') =
    (tally isResultCompleted (ui s') + (if running (mainPc s') then 1 else 0))%nat.
Proof.
  intros H Hstep.
  destruct a as [op|ok|i net ok|i]; cbn [step] in Hstep.
  - unfold stepUser in Hstep.
    destruct (mainPc s) eqn:Hpc; try discriminate Hstep. injection Hstep as <-.
    cbn [running] in H.
    destruct op as [cfg|rs|subj bod|f|q c];
      try (cbn [setGlobals listeners ui mainPc]; rewrite Hpc; exact H).
    + unfold queueEmails.
      destruct (queueLoop_frame (recipients (globals s)) 0 f s) as (_ & U & M & _ & _ & _ & L).
      cbn [show ui mainPc listeners]. rewrite tally_cons, U, M, L, Hpc. exact H.
    + unfold sendEmailsStart.
      destruct q; cbn [negb];
        [|cbn [show logSql ui mainPc listeners]; rewrite tally_cons, Hpc; exact H].
      destruct c; cbn [negb];
        [|cbn [show logSql ui mainPc listeners]; rewrite tally_cons, Hpc; exact H].
      match goal with |- context [if ?b then _ else _] => destruct b end;
        cbn [show logSql setGlobals setMain setSem setWg setListeners ui mainPc listeners];
        rewrite ?tally_cons, ?Hpc; cbn [isResultCompleted running length Nat.add];
        [exact H|lia].
  - unfold stepMain in Hstep.
    destruct (mainPc s) as [|cur|r cur|r cur| | |]; try discriminate Hstep;
      cbn [running] in H.
    + destruct cur as [|r cur]; [|destruct ok]; injection Hstep as <-; exact H.
    + destruct (sem s <? concurrency)%nat; [|discriminate Hstep].
      injection Hstep as <-. exact H.
    + injection Hstep as <-. exact H.
    + destruct (wg s =? 0)%nat; [|discriminate Hstep].
      injection Hstep as <-. exact H.
    + injection Hstep as <-. unfold exec, logSql, setTable. destruct ok; exact H.
    + injection Hstep as <-. cbn [setMain show ui mainPc listeners running].
      rewrite !tally_cons. cbn [isResultCompleted]. lia.
  - unfold stepWorker in Hstep.
    destruct (workers s !! i) as [[r pc err]|] eqn:Hi; [|discriminate Hstep].
    cbn [job wpc sendErr] in Hstep.
    destruct pc; try discriminate Hstep;
      try (injection Hstep as <-; exact H).
    + unfold exec, logSql, setTable in Hstep. destruct ok; injection Hstep as <-; exact H.
    + destruct (listeners s) as [|[| |] ls]; try discriminate Hstep.
      injection Hstep as <-. exact H.
  - unfold stepListener in Hstep.
    destruct (listeners s !! i) as [[| |num den]|]; try discriminate Hstep;
      injection Hstep as <-; cbn [setListeners show ui mainPc listeners];
      rewrite length_insert, tally_cons; exact H.
Qed.

(** X17: the listener goroutine of a run is never stopped, [updateChan]
    being never closed: along every execution the process holds one
    listener goroutine for every run that has shown its summary, and one
    more while a run is in progress. *)
Theorem X17_one_listener_left_per_run (sched : list Action) (seq0 : Z) :
  let s := run sched (init seq0) in
  length (listeners s) =
    (tally isResultCompleted (ui s) + (if running (mainPc s) then 1 else 0))%nat.
Proof.
  apply (run_invariant (fun s => length (listeners s) =
    (tally isResultCompleted (ui s) + (if running (mainPc s) then 1 else 0))%nat)).
  - intros a s s'. apply leak_step.
  - reflexivity.
Qed.
